(** * Akumuli query processing: parser, plan guards and pipeline nodes

    A shallow embedding of the query-processing core of Akumuli
    ([libakumuli/query_processing/queryparser.cpp], [queryplan.cpp],
    [randomsamplingnode.cpp] and [libakumuli/queryprocessor.cpp]) together
    with the properties of the query grammar, the where-clause resolver and
    the streaming nodes that are established about it.

    Conventions.
    - [u64]/[u32] values are [Z] with the wrap-around written out.
    - A [boost::property_tree::ptree] is a node carrying a string and an
      ordered list of (key, child) pairs; duplicate keys are kept, as
      [read_json] keeps them.
    - A C++ call that may abort ([AKU_PANIC]) or throw returns an [outcome].
    - A pipeline node is a record of operations over an explicit state. *)

From Stdlib Require Import ZArith List String Ascii Lia Bool Sorted Permutation.
From Stdlib Require OrderedTypeEx.
From stdpp Require Import base list strings gmap.
From stdpp Require sorting.

Set Warnings "-register-all".

Local Open Scope string_scope.
Local Open Scope Z_scope.

(* ===================================================================== *)
(** * Definitions                                                         *)
(* ===================================================================== *)

(** ** Status codes and outcomes *)

Inductive aku_Status : Set :=
| AKU_SUCCESS
| AKU_ENO_DATA
| AKU_EBAD_ARG
| AKU_EBAD_DATA
| AKU_EOVERFLOW
| AKU_EQUERY_PARSING_ERROR.

Definition aku_Status_eqb (a b : aku_Status) : bool :=
  match a, b with
  | AKU_SUCCESS, AKU_SUCCESS
  | AKU_ENO_DATA, AKU_ENO_DATA
  | AKU_EBAD_ARG, AKU_EBAD_ARG
  | AKU_EBAD_DATA, AKU_EBAD_DATA
  | AKU_EOVERFLOW, AKU_EOVERFLOW
  | AKU_EQUERY_PARSING_ERROR, AKU_EQUERY_PARSING_ERROR => true
  | _, _ => false
  end.

(** Result of a C++ call: a normal return, an [AKU_PANIC] (process abort),
    a thrown exception, or an operation the language leaves undefined. *)
Inductive outcome (A : Type) : Type :=
| Ok (a : A)
| Panic (msg : string)
| Throw (what : string)
| Undefined (why : string).
Arguments Ok {A} a.
Arguments Panic {A} msg.
Arguments Throw {A} what.
Arguments Undefined {A} why.

Definition outcome_bind {A B} (k : A -> outcome B) (m : outcome A) : outcome B :=
  match m with
  | Ok a => k a
  | Panic msg => Panic msg
  | Throw w => Throw w
  | Undefined w => Undefined w
  end.

#[export] Instance outcome_mbind : MBind outcome := @outcome_bind.
#[export] Instance outcome_mret : MRet outcome := @Ok.

(** ** Widths *)

Definition U64_MOD : Z := 2 ^ 64.
Definition U32_MOD : Z := 2 ^ 32.
Definition wrap64 (z : Z) : Z := z mod U64_MOD.
Definition wrap32 (z : Z) : Z := z mod U32_MOD.

Definition aku_Timestamp := Z.
Definition aku_ParamId := Z.
Definition aku_Duration := Z.

Definition AKU_MIN_TIMESTAMP : aku_Timestamp := 0.
Definition AKU_MAX_TIMESTAMP : aku_Timestamp := U64_MOD - 1.

(** ** Property trees *)

Inductive ptree : Type :=
| PTree (data : string) (children : list (string * ptree)).

Definition pt_data (p : ptree) : string :=
  match p with PTree d _ => d end.

Definition pt_children (p : ptree) : list (string * ptree) :=
  match p with PTree _ cs => cs end.

(** [ptree::empty()]: the node has no children. *)
Definition pt_empty (p : ptree) : bool :=
  match pt_children p with [] => true | _ => false end.

(** [get_child_optional(key)] for a key without a path separator: the first
    child carrying the key. *)
Fixpoint find_child (key : string) (cs : list (string * ptree)) : option ptree :=
  match cs with
  | [] => None
  | (k, c) :: rest => if String.eqb k key then Some c else find_child key rest
  end.

Definition get_child_optional (key : string) (p : ptree) : option ptree :=
  find_child key (pt_children p).

(** [get_value_optional<std::string>()]: the identity translator never fails. *)
Definition get_value_string (p : ptree) : option string := Some (pt_data p).

Definition leaf (s : string) : ptree := PTree s [].
Definition object (cs : list (string * ptree)) : ptree := PTree "" cs.
Definition array (vs : list ptree) : ptree := PTree "" (map (fun v => ("", v)) vs).

Definition str_mem (s : string) (l : list string) : bool :=
  existsb (String.eqb s) l.

(** ** queryparser.cpp: validate_query *)

Definition UNIQUE_STMTS : list string :=
  ["select"; "aggregate"; "join"; "group-aggregate"].

Definition ALLOWED_STMTS : list string :=
  ["select"; "aggregate"; "join"; "output"; "order-by"; "group-by";
   "limit"; "offset"; "range"; "where"; "group-aggregate"].

(** The loop of [validate_query].  [keywords] is the local
    [std::set<std::string>]; the body only reads it, so every iteration sees
    the set it was given. *)
Fixpoint validate_loop (keywords : list string) (items : list (string * ptree))
  : aku_Status :=
  match items with
  | [] => AKU_SUCCESS
  | (keyword, _) :: rest =>
      if negb (str_mem keyword ALLOWED_STMTS) then AKU_EQUERY_PARSING_ERROR
      else if str_mem keyword keywords then AKU_EQUERY_PARSING_ERROR
      else if existsb (fun kw => str_mem kw keywords) UNIQUE_STMTS
           then AKU_EQUERY_PARSING_ERROR
      else validate_loop keywords rest
  end.

Definition validate_query (p : ptree) : aku_Status :=
  validate_loop [] (pt_children p).

(** What the statement list of a document looks like to the grammar. *)
Definition has_unknown_key (p : ptree) : bool :=
  existsb (fun kv => negb (str_mem (fst kv) ALLOWED_STMTS)) (pt_children p).

Fixpoint has_dup (l : list string) : bool :=
  match l with
  | [] => false
  | x :: r => str_mem x r || has_dup r
  end.

Definition has_duplicate_key (p : ptree) : bool :=
  has_dup (map fst (pt_children p)).

Definition count_exclusive (p : ptree) : nat :=
  length (List.filter (fun kv => str_mem (fst kv) UNIQUE_STMTS) (pt_children p)).

Definition select_and_aggregate : ptree :=
  object [("select", leaf "cpu");
          ("aggregate", object [("cpu", leaf "max")]);
          ("range", object [("from", leaf "20150101T000000");
                            ("to", leaf "20150102T000000")])].

Definition zero_step_query : ptree :=
  object [("group-aggregate",
           object [("step", leaf "0s"); ("metric", leaf "cpu");
                   ("func", array [leaf "min"])]);
          ("range", object [("from", leaf "20150101T000000");
                            ("to", leaf "20150102T000000")])].

Definition select_twice : ptree :=
  object [("select", leaf "cpu"); ("select", leaf "mem")].

(** ** The request produced by the parser *)

Inductive OrderBy : Set := SERIES | TIME.

Inductive QueryKind : Set :=
| SELECT | SELECT_META | AGGREGATE | GROUP_AGGREGATE | JOIN.

(** External collaborators of the parser whose definitions live outside the
    files embedded here: the aggregation-function table, the date-time
    library and the numeric translator of the property tree. *)
Class ParserEnv := {
  AggregationFunction : Type;
  (** [Aggregation::from_string] *)
  Aggregation_from_string : string -> aku_Status * AggregationFunction;
  (** [Aggregation::to_string] *)
  Aggregation_to_string : AggregationFunction -> string;
  (** [DateTimeUtil::parse_duration]; [None] when [BadDateTimeFormat] is
      thrown. *)
  parse_duration : string -> option aku_Duration;
  (** [DateTimeUtil::from_iso_string]; [None] when it throws. *)
  from_iso_string : string -> option aku_Timestamp;
  (** [get_value<u64>()]; [None] when [ptree_bad_data] is thrown. *)
  get_value_u64 : string -> option Z;
  (** The value a value-initialised [OrderBy] holds. *)
  OrderBy_zero : OrderBy
}.

(** The catalogue interface the parser consults ([SeriesMatcher]). *)
Class SeriesMatcherOps (M : Type) := {
  get_all_ids : M -> list aku_ParamId;
  (** [regex_match]: the (name, id) pairs whose name matches. *)
  regex_match : M -> string -> list (string * aku_ParamId);
  (** [id2str]; the empty string stands for the [(nullptr, 0)] answer. *)
  id2str : M -> aku_ParamId -> string;
  (** [match]; 0 when the name is absent. *)
  matcher_match : M -> string -> aku_ParamId;
  (** A fresh matcher, [std::make_shared<SeriesMatcher>()]. *)
  matcher_new : M;
  (** [_add(name, id)] *)
  matcher_add : M -> string -> aku_ParamId -> M;
  (** [GroupByTag(matcher, metric, tags)]: its [get_mapping()] and its
      [local_matcher_]. *)
  GroupByTag_new : M -> string -> list string -> gmap Z Z * M
}.

Record Column := { ids : list aku_ParamId }.

Record Selection (M : Type) := {
  sel_begin : aku_Timestamp;
  sel_end : aku_Timestamp;
  columns : list Column;
  sel_matcher : option M
}.
Arguments sel_begin {M}. Arguments sel_end {M}.
Arguments columns {M}. Arguments sel_matcher {M}.

Record Aggregation (F : Type) := {
  agg_enabled : bool;
  agg_func : list F;
  agg_step : aku_Duration
}.
Arguments agg_enabled {F}. Arguments agg_func {F}. Arguments agg_step {F}.

Record GroupBy (M : Type) := {
  gb_enabled : bool;
  transient_map : gmap Z Z;
  gb_matcher : option M
}.
Arguments gb_enabled {M}. Arguments transient_map {M}. Arguments gb_matcher {M}.

Record ReshapeRequest (F M : Type) := {
  agg : Aggregation F;
  select : Selection M;
  order_by : OrderBy;
  group_by : GroupBy M
}.
Arguments agg {F M}. Arguments select {F M}.
Arguments order_by {F M}. Arguments group_by {F M}.

(** [GroupAggregate]: the result of parsing a `group-aggregate` statement. *)
Record GroupAggregate (F : Type) := {
  ga_metric : string;
  ga_func : list F;
  ga_step : aku_Duration
}.
Arguments ga_metric {F}. Arguments ga_func {F}. Arguments ga_step {F}.

(** ** queryparser.cpp: SeriesRetreiver *)

(** [tags_] is a [std::map]: keys are unique and iteration is in key order. *)
Record SeriesRetreiver := {
  metric_ : list string;
  tags_ : list (string * list string)
}.

Definition tags_count (name : string) (tags : list (string * list string)) : bool :=
  existsb (fun kv => String.eqb (fst kv) name) tags.

(** [tags_[name] = values] for a key the map does not hold yet. *)
Fixpoint tags_insert (name : string) (values : list string)
    (tags : list (string * list string)) : list (string * list string) :=
  match tags with
  | [] => [(name, values)]
  | (k, v) :: rest =>
      if String.ltb name k then (name, values) :: (k, v) :: rest
      else if String.eqb name k then (name, values) :: rest
      else (k, v) :: tags_insert name values rest
  end.

Definition add_tags (name : string) (values : list string) (r : SeriesRetreiver)
  : aku_Status * SeriesRetreiver :=
  match metric_ r with
  | [] => (AKU_EBAD_ARG, r)
  | _ =>
      if tags_count name (tags_ r) then (AKU_EBAD_ARG, r)
      else (AKU_SUCCESS,
            {| metric_ := metric_ r; tags_ := tags_insert name values (tags_ r) |})
  end.

Definition add_tag (name value : string) (r : SeriesRetreiver)
  : aku_Status * SeriesRetreiver :=
  match metric_ r with
  | [] => (AKU_EBAD_ARG, r)
  | _ =>
      if tags_count name (tags_ r) then (AKU_EBAD_ARG, r)
      else (AKU_SUCCESS,
            {| metric_ := metric_ r; tags_ := tags_insert name [value] (tags_ r) |})
  end.

Definition TAGS_RE : string := "(?:\s[\w\.\-]+=[\w\.\-]+)*".

(** The alternation written for one tag of the [tags_] map. *)
Fixpoint tag_alternatives (key : string) (first : bool) (vals : list string) : string :=
  match vals with
  | [] => ""
  | val :: rest =>
      (if first then "" else "|") ++
      TAGS_RE ++ "\s" ++ key ++ "=" ++ val ++ TAGS_RE ++
      tag_alternatives key false rest
  end.

Fixpoint tags_regexp (tags : list (string * list string)) : string :=
  match tags with
  | [] => ""
  | (key, vals) :: rest =>
      "(?:" ++ tag_alternatives key true vals ++ ")" ++ tags_regexp rest
  end.

(** The characters of [s] after its first [n].  The source takes them with
    a pointer range ([name.first + n] up to the end of the name) or with
    [substr(n)]; both are defined only for [n] within the length of [s], and
    every caller below tests that before it comes here. *)
Fixpoint string_drop (n : nat) (s : string) : string :=
  match n, s with
  | O, _ => s
  | S n', String _ s' => string_drop n' s'
  | S _, EmptyString => EmptyString
  end.

(** The expression [extract_ids] scans the catalogue with: case 2 (metric
    only) and case 3 (metric and tags). *)
Definition first_metric_expression (first_metric : string)
    (tags : list (string * list string)) : string :=
  match tags with
  | [] => first_metric ++ TAGS_RE
  | _ => first_metric ++ tags_regexp tags
  end.

Section Resolver.
Context {M : Type} {mops : SeriesMatcherOps M}.

(** The id looked up for [metric] in place of the first metric of the
    series [id]; 0 when the catalogue has no such series.  It stands for what
    [extract_ids] computes only for a series whose name is at least as long
    as the first metric. *)
Definition secondary_id (matcher : M) (first_metric metric : string)
    (id : aku_ParamId) : aku_ParamId :=
  matcher_match matcher
    (metric ++ string_drop (String.length first_metric) (id2str matcher id)).

(** The ids appended for the metrics after the first: one run per metric,
    one id per series of the first metric. *)
Definition secondary_columns (matcher : M) (first : string) (tail : list string)
    (ids0 : list aku_ParamId) : list aku_ParamId :=
  concat (map (fun metric => map (secondary_id matcher first metric) ids0) tail).

(** The ids the catalogue scan returns for the first metric. *)
Definition first_metric_ids (matcher : M) (first : string)
    (tags : list (string * list string)) : list aku_ParamId :=
  map snd (regex_match matcher (first_metric_expression first tags)).

(** The inner loop of [extract_ids] over the ids found for the first
    metric, for one of the remaining metrics.  The source tests only
    [name.second == 0] before it builds [series_tags] from the pointer range
    [name.first + first_metric.size()] to [name.first + name.second]: for a
    name shorter than the first metric the range runs backwards, which the
    language leaves undefined. *)
Fixpoint secondary_ids (matcher : M) (first_metric metric : string)
    (ids0 : list aku_ParamId) (full : list aku_ParamId)
  : outcome (list aku_ParamId) :=
  match ids0 with
  | [] => Ok full
  | id :: rest =>
      let name := id2str matcher id in
      if (String.length name =? 0)%nat then Panic "Matcher data is broken"
      else if (String.length name <? String.length first_metric)%nat
      then Undefined "std::string from a reversed pointer range"
      else
        let series_tags := string_drop (String.length first_metric) name in
        let alt_name := metric ++ series_tags in
        let sid := matcher_match matcher alt_name in
        secondary_ids matcher first_metric metric rest (full ++ [sid])
  end.

(** The catalogue holds a name for [id] and the name is at least as long as
    the first metric: what the loop above needs to rebuild the name of the
    series under another metric. *)
Definition named_in_range (matcher : M) (first_metric : string)
    (id : aku_ParamId) : Prop :=
  id2str matcher id <> "" /\
  (String.length first_metric <= String.length (id2str matcher id))%nat.

Fixpoint tail_metrics (matcher : M) (first_metric : string) (tail : list string)
    (ids0 : list aku_ParamId) (full : list aku_ParamId)
  : outcome (list aku_ParamId) :=
  match tail with
  | [] => Ok full
  | metric :: rest =>
      full' ← secondary_ids matcher first_metric metric ids0 full;
      tail_metrics matcher first_metric rest ids0 full'
  end.

Definition extract_ids (r : SeriesRetreiver) (matcher : M)
  : outcome (aku_Status * list aku_ParamId) :=
  match metric_ r with
  | [] => Ok (AKU_SUCCESS, get_all_ids matcher)
  | first_metric :: tail =>
      let expression := first_metric_expression first_metric (tags_ r) in
      let ids0 := map snd (regex_match matcher expression) in
      match tail with
      | [] => Ok (AKU_SUCCESS, ids0)
      | _ =>
          full ← tail_metrics matcher first_metric tail ids0 ids0;
          Ok (AKU_SUCCESS, full)
      end
  end.

(** The loop of [parse_where_clause] over the children of `where`; the
    statuses of [add_tags] and [add_tag] are dropped. *)
Fixpoint where_loop (items : list (string * ptree)) (retreiver : SeriesRetreiver)
  : SeriesRetreiver :=
  match items with
  | [] => retreiver
  | (tag, idslist) :: rest =>
      let retreiver' :=
        if negb (pt_empty idslist) then
          let tag_values := map (fun idnode => pt_data (snd idnode)) (pt_children idslist) in
          snd (add_tags tag tag_values retreiver)
        else
          snd (add_tag tag (pt_data idslist) retreiver) in
      where_loop rest retreiver'
  end.

Definition parse_where_clause (p : ptree) (metrics : list string) (matcher : M)
  : outcome (aku_Status * list aku_ParamId) :=
  match get_child_optional "where" p with
  | Some where_ =>
      match metrics with
      | [] => Ok (AKU_EQUERY_PARSING_ERROR, [])
      | _ =>
          let retreiver := {| metric_ := metrics; tags_ := [] |} in
          extract_ids (where_loop (pt_children where_) retreiver) matcher
      end
  | None =>
      match metrics with
      | _ :: _ => extract_ids {| metric_ := metrics; tags_ := [] |} matcher
      | [] => extract_ids {| metric_ := []; tags_ := [] |} matcher
      end
  end.
End Resolver.

(** One iteration of the loop of [parse_where_clause]. *)
Definition where_step (tag : string) (idslist : ptree) (r : SeriesRetreiver)
  : SeriesRetreiver :=
  if negb (pt_empty idslist) then
    snd (add_tags tag
           (map (fun idnode => pt_data (snd idnode)) (pt_children idslist)) r)
  else snd (add_tag tag (pt_data idslist) r).

(** The children of a `where` object with every repeated tag key removed
    after its first occurrence; [seen] holds the keys met so far. *)
Fixpoint first_occurrences (seen : list string) (items : list (string * ptree))
  : list (string * ptree) :=
  match items with
  | [] => []
  | (k, v) :: rest =>
      if str_mem k seen then first_occurrences seen rest
      else (k, v) :: first_occurrences (k :: seen) rest
  end.

(** The document with the children of its first `where` child so reduced. *)
Fixpoint dedup_where_children (cs : list (string * ptree)) : list (string * ptree) :=
  match cs with
  | [] => []
  | (k, c) :: rest =>
      if String.eqb k "where"
      then (k, PTree (pt_data c) (first_occurrences [] (pt_children c))) :: rest
      else (k, c) :: dedup_where_children rest
  end.

Definition dedup_where (p : ptree) : ptree :=
  PTree (pt_data p) (dedup_where_children (pt_children p)).


(** ** queryparser.cpp: statement parsers *)

Definition is_meta_query (name : string) : bool :=
  String.prefix "meta:names" name.

Definition parse_select_stmt (p : ptree) : aku_Status * string :=
  match get_child_optional "select" p with
  | Some select_ =>
      if pt_empty select_ then (AKU_SUCCESS, pt_data select_)
      else (AKU_EQUERY_PARSING_ERROR, "")
  | None => (AKU_EQUERY_PARSING_ERROR, "")
  end.

Fixpoint join_items (items : list (string * ptree)) (result : list string)
  : aku_Status * list string :=
  match items with
  | [] => (AKU_SUCCESS, result)
  | (_, item) :: rest =>
      match get_value_string item with
      | Some value => join_items rest (result ++ [value])
      | None => (AKU_EQUERY_PARSING_ERROR, result)
      end
  end.

Definition parse_join_stmt (p : ptree) : aku_Status * list string :=
  let '(st, result) :=
    match get_child_optional "join" p with
    | Some join => join_items (pt_children join) []
    | None => (AKU_SUCCESS, [])
    end in
  match st with
  | AKU_SUCCESS =>
      match result with
      | [] => (AKU_EQUERY_PARSING_ERROR, result)
      | _ => (AKU_SUCCESS, result)
      end
  | _ => (st, result)
  end.


Definition parse_orderby (p : ptree) : aku_Status * OrderBy :=
  match get_child_optional "order-by" p with
  | Some orderby =>
      let stringval := pt_data orderby in
      if String.eqb stringval "time" then (AKU_SUCCESS, TIME)
      else if String.eqb stringval "series" then (AKU_SUCCESS, SERIES)
      else (AKU_EQUERY_PARSING_ERROR, TIME)
  | None => (AKU_SUCCESS, TIME)
  end.

Fixpoint groupby_items (items : list (string * ptree)) (tags : list string)
  : aku_Status * list string :=
  match items with
  | [] => (AKU_SUCCESS, tags)
  | (_, item) :: rest =>
      match get_value_string item with
      | Some val => groupby_items rest (tags ++ [val])
      | None => (AKU_EQUERY_PARSING_ERROR, tags)
      end
  end.

Definition parse_groupby (p : ptree) : aku_Status * list string :=
  match get_child_optional "group-by" p with
  | Some groupby => groupby_items (pt_children groupby) []
  | None => (AKU_SUCCESS, [])
  end.

Section Statements.
Context {penv : ParserEnv}.

(** The loop over the children of `func`:
    (error, functions collected so far, n). *)
Fixpoint ga_func_loop (children : list (string * ptree))
    (func : list AggregationFunction) (n : nat)
  : bool * list AggregationFunction * nat :=
  match children with
  | [] => (false, func, n)
  | (_, child) :: rest =>
      match get_value_string child with
      | Some fn =>
          let '(status, f) := Aggregation_from_string fn in
          match status with
          | AKU_SUCCESS => ga_func_loop rest (func ++ [f]) (S n)
          | _ => (true, func, n)
          end
      | None => ga_func_loop rest func n
      end
  end.

(** The loop of [parse_group_aggregate_stmt] over the children of
    `group-aggregate`; a [break] ends it with the state reached. *)
Fixpoint ga_loop (aggregate : ptree) (items : list (string * ptree))
    (c0 c1 c2 : bool) (result : GroupAggregate AggregationFunction)
  : bool * bool * bool * GroupAggregate AggregationFunction :=
  match items with
  | [] => (c0, c1, c2, result)
  | (tag_name, kv) :: rest =>
      let value := get_value_string kv in
      if String.eqb tag_name "step" then
        if c0 then (c0, c1, c2, result)
        else
          match value with
          | None => (c0, c1, c2, result)
          | Some v =>
              match parse_duration v with
              | Some step =>
                  ga_loop aggregate rest true c1 c2
                    {| ga_metric := ga_metric result;
                       ga_func := ga_func result;
                       ga_step := step |}
              | None => ga_loop aggregate rest c0 c1 c2 result
              end
          end
      else if String.eqb tag_name "metric" then
        match value with
        | None => (c0, c1, c2, result)
        | Some v =>
            if c1 then (c0, c1, c2, result)
            else ga_loop aggregate rest c0 true c2
                   {| ga_metric := v;
                      ga_func := ga_func result;
                      ga_step := ga_step result |}
        end
      else if String.eqb tag_name "func" then
        if c2 then (c0, c1, c2, result)
        else
          let children :=
            match get_child_optional "func" aggregate with
            | Some f => pt_children f
            | None => []
            end in
          let '(error, func, n) := ga_func_loop children (ga_func result) O in
          let result' := {| ga_metric := ga_metric result;
                            ga_func := func;
                            ga_step := ga_step result |} in
          if error then (c0, c1, c2, result')
          else ga_loop aggregate rest c0 c1 (negb (n =? 0)%nat) result'
      else ga_loop aggregate rest c0 c1 c2 result
  end.

(** [result.step] has no initialiser in the source; it is read only after
    `step` was parsed, and stands as 0 before that. *)
Definition GroupAggregate_init : GroupAggregate AggregationFunction :=
  {| ga_metric := ""; ga_func := []; ga_step := 0 |}.

Definition parse_group_aggregate_stmt (p : ptree)
  : aku_Status * GroupAggregate AggregationFunction :=
  let '(c0, c1, c2, result) :=
    match get_child_optional "group-aggregate" p with
    | Some aggregate =>
        ga_loop aggregate (pt_children aggregate) false false false GroupAggregate_init
    | None => (false, false, false, GroupAggregate_init)
    end in
  if c0 && c1 && c2 then (AKU_SUCCESS, result)
  else (AKU_EQUERY_PARSING_ERROR, result).

(** [parse_limit_offset]: both the `limit` branch and the `offset` branch of
    the source assign to [limit]; [offset] keeps its initial 0. *)
Definition parse_limit_offset (p : ptree) : outcome (Z * Z) :=
  let limit := 0 in
  let offset := 0 in
  limit ←
    match get_child_optional "limit" p with
    | Some optlimit =>
        match get_value_u64 (pt_data optlimit) with
        | Some v => Ok v
        | None => Throw "ptree_bad_data"
        end
    | None => Ok limit
    end;
  limit ←
    match get_child_optional "offset" p with
    | Some optoffset =>
        match get_value_u64 (pt_data optoffset) with
        | Some v => Ok v
        | None => Throw "ptree_bad_data"
        end
    | None => Ok limit
    end;
  Ok (limit, offset).

(** The loop of [parse_range_timestamp] over the children of `range`:
    (begin, end, begin_set, end_set). *)
Fixpoint range_loop (items : list (string * ptree))
    (begin_ end_ : aku_Timestamp) (begin_set end_set : bool)
  : aku_Timestamp * aku_Timestamp * bool * bool :=
  match items with
  | [] => (begin_, end_, begin_set, end_set)
  | (k, child) :: rest =>
      if String.eqb k "from" then
        match from_iso_string (pt_data child) with
        | Some ts => range_loop rest ts end_ true end_set
        | None => range_loop rest begin_ end_ begin_set end_set
        end
      else if String.eqb k "to" then
        match from_iso_string (pt_data child) with
        | Some ts => range_loop rest begin_ ts begin_set true
        | None => range_loop rest begin_ end_ begin_set end_set
        end
      else range_loop rest begin_ end_ begin_set end_set
  end.

Definition parse_range_timestamp (p : ptree)
  : aku_Status * aku_Timestamp * aku_Timestamp :=
  let '(begin_, end_, begin_set, end_set) :=
    match get_child_optional "range" p with
    | Some range => range_loop (pt_children range) 0 0 false false
    | None => (0, 0, false, false)
    end in
  if negb begin_set || negb end_set
  then (AKU_EQUERY_PARSING_ERROR, begin_, end_)
  else (AKU_SUCCESS, begin_, end_).
End Statements.

(** [get_query_kind] *)
Fixpoint query_kind_loop (p : ptree) (items : list (string * ptree))
  : aku_Status * QueryKind :=
  match items with
  | [] => (AKU_EQUERY_PARSING_ERROR, SELECT)
  | (k, _) :: rest =>
      if String.eqb k "select" then
        let '(status, series) := parse_select_stmt p in
        match status with
        | AKU_SUCCESS =>
            if is_meta_query series then (AKU_SUCCESS, SELECT_META)
            else (AKU_SUCCESS, SELECT)
        | _ => (status, SELECT)
        end
      else if String.eqb k "aggregate" then (AKU_SUCCESS, AGGREGATE)
      else if String.eqb k "join" then (AKU_SUCCESS, JOIN)
      else if String.eqb k "group-aggregate" then (AKU_SUCCESS, GROUP_AGGREGATE)
      else query_kind_loop p rest
  end.

Definition get_query_kind (p : ptree) : aku_Status * QueryKind :=
  query_kind_loop p (pt_children p).


(** ** queryparser.cpp: query parsers *)

Section QueryParser.
Context {penv : ParserEnv} {M : Type} {mops : SeriesMatcherOps M}.

Abbreviation Request := (ReshapeRequest AggregationFunction M).

(** [ReshapeRequest result = {}] *)
Definition ReshapeRequest_default : Request :=
  {| agg := {| agg_enabled := false; agg_func := []; agg_step := 0 |};
     select := {| sel_begin := 0; sel_end := 0; columns := []; sel_matcher := None |};
     order_by := OrderBy_zero;
     group_by := {| gb_enabled := false; transient_map := ∅; gb_matcher := None |} |}.

(** The [std::shared_ptr<GroupByTag>] of the query parsers: set only when
    the `group-by` list is not empty. *)
Definition make_groupbytag (matcher : M) (metric : string) (tags : list string)
  : option (gmap Z Z * M) :=
  match tags with
  | [] => None
  | _ => Some (GroupByTag_new matcher metric tags)
  end.

Definition with_groupbytag (groupbytag : option (gmap Z Z * M))
    (a : Aggregation AggregationFunction) (begin_ end_ : aku_Timestamp)
    (cols : list Column) (m0 : option M) (order : OrderBy) : Request :=
  match groupbytag with
  | Some (mapping, local_matcher) =>
      {| agg := a;
         select := {| sel_begin := begin_; sel_end := end_; columns := cols;
                      sel_matcher := Some local_matcher |};
         order_by := order;
         group_by := {| gb_enabled := true; transient_map := mapping;
                        gb_matcher := None |} |}
  | None =>
      {| agg := a;
         select := {| sel_begin := begin_; sel_end := end_; columns := cols;
                      sel_matcher := m0 |};
         order_by := order;
         group_by := {| gb_enabled := false; transient_map := ∅;
                        gb_matcher := None |} |}
  end.

Definition parse_select_query (p : ptree) (matcher : M)
  : outcome (aku_Status * Request) :=
  let result := ReshapeRequest_default in
  match validate_query p with
  | AKU_SUCCESS =>
      let '(status, metric) := parse_select_stmt p in
      match status with
      | AKU_SUCCESS =>
          let '(status, tags) := parse_groupby p in
          match status with
          | AKU_SUCCESS =>
              let groupbytag := make_groupbytag matcher metric tags in
              let '(status, order) := parse_orderby p in
              match status with
              | AKU_SUCCESS =>
                  '(status, ids_) ← parse_where_clause p [metric] matcher;
                  match status with
                  | AKU_SUCCESS =>
                      let '(status, ts_begin, ts_end) := parse_range_timestamp p in
                      match status with
                      | AKU_SUCCESS =>
                          Ok (AKU_SUCCESS,
                              with_groupbytag groupbytag
                                {| agg_enabled := false; agg_func := []; agg_step := 0 |}
                                ts_begin ts_end [ {| ids := ids_ |} ] None order)
                      | _ => Ok (status, result)
                      end
                  | _ => Ok (status, result)
                  end
              | _ => Ok (status, result)
              end
          | _ => Ok (status, result)
          end
      | _ => Ok (status, result)
      end
  | status => Ok (status, result)
  end.


(** The display name [m:f1|m:f2|...] written by
    [init_matcher_in_group_aggregate]. *)
Fixpoint func_names_str (metric_name : string) (first : bool)
    (funcs : list AggregationFunction) : string :=
  match funcs with
  | [] => ""
  | func :: rest =>
      (if first then "" else "|") ++
      metric_name ++ ":" ++ Aggregation_to_string func ++
      func_names_str metric_name false rest
  end.

Fixpoint init_group_aggregate_loop (global_matcher : M) (metric_name : string)
    (funcs : list AggregationFunction) (ids0 : list aku_ParamId) (matcher : M)
  : aku_Status * M :=
  match ids0 with
  | [] => (AKU_SUCCESS, matcher)
  | id :: rest =>
      let name := id2str global_matcher id in
      if negb (String.prefix metric_name name) then (AKU_EBAD_DATA, matcher)
      else
        let tags := string_drop (String.length metric_name) name in
        init_group_aggregate_loop global_matcher metric_name funcs rest
          (matcher_add matcher (func_names_str metric_name true funcs ++ tags) id)
  end.

(** Returns the status and the matcher stored into [req->select.matcher]
    (unchanged when the loop fails). *)
Definition init_matcher_in_group_aggregate (cols : list Column)
    (old : option M) (global_matcher : M) (metric_name : string)
    (funcs : list AggregationFunction) : outcome (aku_Status * option M) :=
  match cols with
  | [] => Throw "std::out_of_range"
  | c :: _ =>
      let '(st, m) :=
        init_group_aggregate_loop global_matcher metric_name funcs (ids c) matcher_new in
      match st with
      | AKU_SUCCESS => Ok (AKU_SUCCESS, Some m)
      | _ => Ok (st, old)
      end
  end.

Definition parse_group_aggregate_query (p : ptree) (matcher : M)
  : outcome (aku_Status * Request) :=
  let result := ReshapeRequest_default in
  match validate_query p with
  | AKU_SUCCESS =>
      let '(status, gagg) := parse_group_aggregate_stmt p in
      match status with
      | AKU_SUCCESS =>
          match ga_func gagg with
          | [] => Ok (status, result)
          | _ =>
            if ga_step gagg =? 0 then Ok (status, result)
            else
              let '(status, tags) := parse_groupby p in
              match status with
              | AKU_SUCCESS =>
                  let groupbytag := make_groupbytag matcher (ga_metric gagg) tags in
                  '(status, ids_) ← parse_where_clause p [ga_metric gagg] matcher;
                  match status with
                  | AKU_SUCCESS =>
                      let '(status, ts_begin, ts_end) := parse_range_timestamp p in
                      match status with
                      | AKU_SUCCESS =>
                          let a := {| agg_enabled := true; agg_func := ga_func gagg;
                                      agg_step := ga_step gagg |} in
                          let cols := [ {| ids := ids_ |} ] in
                          let '(status, order) := parse_orderby p in
                          match status with
                          | AKU_SUCCESS =>
                              '(_, m) ← init_matcher_in_group_aggregate cols None matcher
                                         (ga_metric gagg) (ga_func gagg);
                              Ok (AKU_SUCCESS,
                                  with_groupbytag groupbytag a ts_begin ts_end cols m order)
                          | _ =>
                              Ok (status,
                                  {| agg := a;
                                     select := {| sel_begin := ts_begin; sel_end := ts_end;
                                                  columns := cols; sel_matcher := None |};
                                     order_by := order;
                                     group_by := group_by result |})
                          end
                      | _ => Ok (status, result)
                      end
                  | _ => Ok (status, result)
                  end
              | _ => Ok (status, result)
              end
          end
      | _ => Ok (status, result)
      end
  | status => Ok (status, result)
  end.

(** The display name [m1|m2|...] written by [init_matcher_in_join_query]. *)
Fixpoint metric_names_str (first : bool) (metrics : list string) : string :=
  match metrics with
  | [] => ""
  | metric :: rest =>
      (if first then "" else "|") ++ metric ++ metric_names_str false rest
  end.

Fixpoint init_join_loop (global_matcher : M) (metric_names : list string)
    (ids0 : list aku_ParamId) (matcher : M) : aku_Status * M :=
  match ids0 with
  | [] => (AKU_SUCCESS, matcher)
  | id :: rest =>
      let name := id2str global_matcher id in
      let front := hd "" metric_names in
      if negb (String.prefix front name) then (AKU_EBAD_DATA, matcher)
      else
        let tags := string_drop (String.length front) name in
        init_join_loop global_matcher metric_names rest
          (matcher_add matcher (metric_names_str true metric_names ++ tags) id)
  end.

Definition init_matcher_in_join_query (cols : list Column) (old : option M)
    (global_matcher : M) (metric_names : list string) : aku_Status * option M :=
  if (length cols <? 2)%nat then (AKU_EBAD_ARG, old)
  else if negb (length cols =? length metric_names)%nat then (AKU_EBAD_ARG, old)
  else
    let '(st, m) :=
      init_join_loop global_matcher metric_names (ids (hd {| ids := [] |} cols)) matcher_new in
    match st with
    | AKU_SUCCESS => (AKU_SUCCESS, Some m)
    | _ => (st, old)
    end.

(** The column loop of [parse_join_query]: [ncolumns] runs of [nentries]
    consecutive ids. *)
Fixpoint split_columns (ncolumns nentries : nat) (l : list aku_ParamId) : list Column :=
  match ncolumns with
  | O => []
  | S n => {| ids := take nentries l |} :: split_columns n nentries (drop nentries l)
  end.

(** Lines 893-906 of [parse_join_query]: the where-clause result is cut
    into one column per metric; a remainder aborts the process. *)
Definition join_columns (metrics : list string) (ids_ : list aku_ParamId)
  : outcome (list Column) :=
  let ncolumns := length metrics in
  let nentries := (length ids_ / ncolumns)%nat in
  if negb (length ids_ mod ncolumns =? 0)%nat
  then Panic "Invalid `where` statement processing results"
  else Ok (split_columns ncolumns nentries ids_).

Definition parse_join_query (p : ptree) (matcher : M)
  : outcome (aku_Status * Request) :=
  let result := ReshapeRequest_default in
  match validate_query p with
  | AKU_SUCCESS =>
      let '(status, metrics) := parse_join_stmt p in
      match status with
      | AKU_SUCCESS =>
          let '(status, order) := parse_orderby p in
          let with_order (r : Request) : Request :=
            {| agg := agg r; select := select r; order_by := order;
               group_by := group_by r |} in
          match status with
          | AKU_SUCCESS =>
              '(status, ids_) ← parse_where_clause p metrics matcher;
              match status with
              | AKU_SUCCESS =>
                  let '(status, ts_begin, ts_end) := parse_range_timestamp p in
                  match status with
                  | AKU_SUCCESS =>
                      cols ← join_columns metrics ids_;
                      let '(status, m) :=
                        init_matcher_in_join_query cols None matcher metrics in
                      Ok (status,
                          {| agg := {| agg_enabled := false; agg_func := [];
                                       agg_step := 0 |};
                             select := {| sel_begin := ts_begin; sel_end := ts_end;
                                          columns := cols; sel_matcher := m |};
                             order_by := order;
                             group_by := {| gb_enabled := false; transient_map := ∅;
                                            gb_matcher := None |} |})
                  | _ => Ok (status, with_order result)
                  end
              | _ => Ok (status, with_order result)
              end
          | _ => Ok (status, result)
          end
      | _ => Ok (status, result)
      end
  | status => Ok (status, result)
  end.
End QueryParser.


(** ** queryplan.cpp: the plan builder *)

Inductive Tier1Operator : Set :=
| SCAN_RANGE | AGGREGATE_RANGE | GROUP_AGGREGATE_RANGE.

Inductive Tier2Operator : Set :=
| CHAIN_SERIES | MERGE_TIME_ORDER | MERGE_SERIES_ORDER
| AGGREGATE_OP | AGGREGATE_COMBINE
| SERIES_ORDER_AGGREGATE_MATERIALIZER | TIME_ORDER_AGGREGATE_MATERIALIZER
| MERGE_JOIN_SERIES_ORDER | MERGE_JOIN_TIME_ORDER.

(** [QueryPlanStage]; the optional members are [None] until assigned. *)
Record QueryPlanStage (F M : Type) := {
  tier_ : Z;
  op_ : Tier1Operator + Tier2Operator;
  opt_ids_ : list aku_ParamId;
  opt_matcher_ : option M;
  time_range_ : aku_Timestamp * aku_Timestamp;
  opt_func_ : option (list F);
  opt_step_ : option aku_Duration;
  opt_join_cardinality_ : option Z
}.
Arguments tier_ {F M}. Arguments op_ {F M}. Arguments opt_ids_ {F M}.
Arguments opt_matcher_ {F M}. Arguments time_range_ {F M}.
Arguments opt_func_ {F M}. Arguments opt_step_ {F M}.
Arguments opt_join_cardinality_ {F M}.

Section QueryPlan.
Context {F M : Type}.

Abbreviation Stages := (list (QueryPlanStage F M)).

(** [columns.at(0)] *)
Definition column0 (req : ReshapeRequest F M) : outcome Column :=
  match columns (select req) with
  | c :: _ => Ok c
  | [] => Throw "std::out_of_range"
  end.

(** The group-by rewrite of tier-2 ids through [transient_map]; ids the
    map does not hold are dropped. *)
Fixpoint transient_ids (m : gmap Z Z) (l : list aku_ParamId) : list aku_ParamId :=
  match l with
  | [] => []
  | id :: rest =>
      match m !! id with
      | Some rep => rep :: transient_ids m rest
      | None => transient_ids m rest
      end
  end.

Definition create_scan (req : ReshapeRequest F M) : outcome Stages :=
  if agg_enabled (agg req) || negb (length (columns (select req)) =? 1)%nat
  then Panic "Invalid request"
  else
    c ← column0 req;
    let range := (sel_begin (select req), sel_end (select req)) in
    let t1stage :=
      {| tier_ := 1; op_ := inl SCAN_RANGE; opt_ids_ := ids c;
         opt_matcher_ := sel_matcher (select req); time_range_ := range;
         opt_func_ := None; opt_step_ := None; opt_join_cardinality_ := None |} in
    let t2stage :=
      if gb_enabled (group_by req) then
        {| tier_ := 2;
           op_ := inr (match order_by req with
                       | SERIES => MERGE_SERIES_ORDER
                       | TIME => MERGE_TIME_ORDER
                       end);
           opt_ids_ := transient_ids (transient_map (group_by req)) (ids c);
           opt_matcher_ := gb_matcher (group_by req); time_range_ := range;
           opt_func_ := None; opt_step_ := None; opt_join_cardinality_ := None |}
      else
        {| tier_ := 2;
           op_ := inr (match order_by req with
                       | SERIES => CHAIN_SERIES
                       | TIME => MERGE_TIME_ORDER
                       end);
           opt_ids_ := ids c;
           opt_matcher_ := sel_matcher (select req); time_range_ := range;
           opt_func_ := None; opt_step_ := None; opt_join_cardinality_ := None |} in
    Ok [t1stage; t2stage].

Definition create_aggregate (req : ReshapeRequest F M) : outcome Stages :=
  match order_by req with
  | TIME => Panic "Invalid request"
  | SERIES =>
      c ← column0 req;
      let range := (sel_begin (select req), sel_end (select req)) in
      let t1stage :=
        {| tier_ := 1; op_ := inl AGGREGATE_RANGE; opt_ids_ := ids c;
           opt_matcher_ := sel_matcher (select req); time_range_ := range;
           opt_func_ := None; opt_step_ := None; opt_join_cardinality_ := None |} in
      let t2stage :=
        if gb_enabled (group_by req) then
          {| tier_ := 2; op_ := inr AGGREGATE_COMBINE;
             opt_ids_ := transient_ids (transient_map (group_by req)) (ids c);
             opt_matcher_ := gb_matcher (group_by req); time_range_ := range;
             opt_func_ := Some (agg_func (agg req)); opt_step_ := None;
             opt_join_cardinality_ := None |}
        else
          {| tier_ := 2; op_ := inr AGGREGATE_OP; opt_ids_ := ids c;
             opt_matcher_ := sel_matcher (select req); time_range_ := range;
             opt_func_ := Some (agg_func (agg req)); opt_step_ := None;
             opt_join_cardinality_ := None |} in
      Ok [t1stage; t2stage]
  end.

(** [columns.at(c).ids.at(i)] for c = 0 .. cardinality-1. *)
Fixpoint join_row (cols : list Column) (i : nat) : outcome (list aku_ParamId) :=
  match cols with
  | [] => Ok []
  | c :: rest =>
      match ids c !! i with
      | Some id => r ← join_row rest i; Ok (id :: r)
      | None => Throw "std::out_of_range"
      end
  end.

Fixpoint join_rows (cols : list Column) (rows : list nat)
  : outcome (list aku_ParamId) :=
  match rows with
  | [] => Ok []
  | i :: rest =>
      r ← join_row cols i;
      t ← join_rows cols rest;
      Ok (r ++ t)%list
  end.

Definition create_join (req : ReshapeRequest F M) : outcome Stages :=
  if agg_enabled (agg req) || gb_enabled (group_by req)
     || (length (columns (select req)) <? 2)%nat
  then Panic "Invalid request"
  else
    c ← column0 req;
    t1ids ← join_rows (columns (select req)) (seq 0 (length (ids c)));
    let range := (sel_begin (select req), sel_end (select req)) in
    let cardinality := Z.of_nat (length (columns (select req))) in
    let t1stage :=
      {| tier_ := 1; op_ := inl SCAN_RANGE; opt_ids_ := t1ids;
         opt_matcher_ := sel_matcher (select req); time_range_ := range;
         opt_func_ := None; opt_step_ := None; opt_join_cardinality_ := None |} in
    let t2stage :=
      {| tier_ := 2;
         op_ := inr (match order_by req with
                     | SERIES => MERGE_JOIN_SERIES_ORDER
                     | TIME => MERGE_JOIN_TIME_ORDER
                     end);
         opt_ids_ := ids c;
         opt_matcher_ := sel_matcher (select req); time_range_ := range;
         opt_func_ := None; opt_step_ := None;
         opt_join_cardinality_ := Some cardinality |} in
    Ok [t1stage; t2stage].

Definition create_group_aggregate (req : ReshapeRequest F M) : outcome Stages :=
  if negb (agg_enabled (agg req)) || (agg_step (agg req) =? 0)
  then Panic "Invalid request"
  else
    c ← column0 req;
    let range := (sel_begin (select req), sel_end (select req)) in
    let t1stage :=
      {| tier_ := 1; op_ := inl GROUP_AGGREGATE_RANGE; opt_ids_ := ids c;
         opt_matcher_ := sel_matcher (select req); time_range_ := range;
         opt_func_ := None; opt_step_ := Some (agg_step (agg req));
         opt_join_cardinality_ := None |} in
    if gb_enabled (group_by req) then Panic "Not implemented"
    else
      let t2stage :=
        {| tier_ := 2;
           op_ := inr (match order_by req with
                       | SERIES => SERIES_ORDER_AGGREGATE_MATERIALIZER
                       | TIME => TIME_ORDER_AGGREGATE_MATERIALIZER
                       end);
           opt_ids_ := ids c;
           opt_matcher_ := sel_matcher (select req); time_range_ := range;
           opt_func_ := Some (agg_func (agg req)); opt_step_ := None;
           opt_join_cardinality_ := None |} in
      Ok [t1stage; t2stage].

Definition create_plan (req : ReshapeRequest F M) : outcome Stages :=
  if agg_enabled (agg req) && (agg_step (agg req) =? 0) then create_aggregate req
  else if agg_enabled (agg req) && negb (agg_step (agg req) =? 0)
  then create_group_aggregate req
  else if negb (agg_enabled (agg req)) && (1 <? length (columns (select req)))%nat
  then create_join req
  else create_scan req.
End QueryPlan.


(** ** Samples and the node interface *)

(** The payload tags the pipeline distinguishes. *)
Inductive PDataType : Set :=
| EMPTY | MARGIN | PARAMID_BIT | FLOAT_BIT.

Definition PDataType_eqb (a b : PDataType) : bool :=
  match a, b with
  | EMPTY, EMPTY | MARGIN, MARGIN | PARAMID_BIT, PARAMID_BIT
  | FLOAT_BIT, FLOAT_BIT => true
  | _, _ => false
  end.

Record aku_PData := {
  type : PDataType;
  size : Z;
  float64 : Z   (* the bits of the double *)
}.

Record aku_Sample := {
  timestamp : aku_Timestamp;
  paramid : aku_ParamId;
  payload : aku_PData
}.

(** Layout facts of [aku_Sample] declared outside the embedded files. *)
Class SampleEnv := {
  sizeof_aku_Sample : Z;
  (** What an automatic [aku_Sample] holds in a field nobody assigned. *)
  indeterminate_float64 : Z
}.

(** Modelled from the spec: the constant [EMPTY_SAMPLE] is not defined in the
    embedded files; it is the marker sample whose payload is [EMPTY], the
    group-by boundary marker of the data model. *)
Definition EMPTY_SAMPLE : aku_Sample :=
  {| timestamp := 0; paramid := 0;
     payload := {| type := EMPTY; size := 0; float64 := 0 |} |}.

Definition with_timestamp (ts : aku_Timestamp) (s : aku_Sample) : aku_Sample :=
  {| timestamp := ts; paramid := paramid s; payload := payload s |}.

Definition is_empty_marker (s : aku_Sample) : bool :=
  PDataType_eqb (type (payload s)) EMPTY.

(** The node interface ([QP::Node]) over an explicit state. *)
Class NodeOps (S : Type) := {
  put : aku_Sample -> S -> bool * S;
  complete : S -> S;
  set_error : aku_Status -> S -> S
}.

(** A cursor supplied by the caller ([InternalCursor]): it records every
    call made to it and answers [put] by its own policy over what it was
    offered before. *)
Record Cursor := {
  accept : list aku_Sample -> aku_Sample -> bool;
  offered : list aku_Sample;
  completed : nat;
  errors : list aku_Status
}.

Definition cursor_put (s : aku_Sample) (c : Cursor) : bool * Cursor :=
  (accept c (offered c) s,
   {| accept := accept c; offered := offered c ++ [s];
      completed := completed c; errors := errors c |}).

Definition cursor_complete (c : Cursor) : Cursor :=
  {| accept := accept c; offered := offered c;
     completed := S (completed c); errors := errors c |}.

Definition cursor_set_error (st : aku_Status) (c : Cursor) : Cursor :=
  {| accept := accept c; offered := offered c;
     completed := completed c; errors := errors c ++ [st] |}.

#[export] Instance Cursor_node : NodeOps Cursor :=
  {| put := cursor_put; complete := cursor_complete; set_error := cursor_set_error |}.

Definition new_cursor (policy : list aku_Sample -> aku_Sample -> bool) : Cursor :=
  {| accept := policy; offered := []; completed := O; errors := [] |}.

Definition accept_all : list aku_Sample -> aku_Sample -> bool := fun _ _ => true.
Definition accept_none : list aku_Sample -> aku_Sample -> bool := fun _ _ => false.

(** ** queryparser.cpp: TerminalNode *)

Record TerminalNode := { cursor : Cursor }.

Definition terminal_put (sample : aku_Sample) (t : TerminalNode) : bool * TerminalNode :=
  if negb (PDataType_eqb (type (payload sample)) MARGIN) then
    let '(ok, c) := cursor_put sample (cursor t) in (ok, {| cursor := c |})
  else (true, t).

#[export] Instance TerminalNode_node : NodeOps TerminalNode :=
  {| put := terminal_put;
     complete := fun t => {| cursor := cursor_complete (cursor t) |};
     set_error := fun st t => {| cursor := cursor_set_error st (cursor t) |} |}.

(** ** Feeding a run of samples to a node *)

(** [for (auto const& sample: samples) if (!next->put(sample)) return false;] *)
Fixpoint put_all {S : Type} {nops : NodeOps S} (l : list aku_Sample) (next : S) : bool * S :=
  match l with
  | [] => (true, next)
  | sample :: rest =>
      let '(ok, next') := put sample next in
      if ok then put_all rest next' else (false, next')
  end.

(** ** limiter.h: Limiter *)

Record Limiter (S : Type) := {
  limit_ : Z;
  offset_ : Z;
  counter_ : Z;
  lim_next_ : S
}.
Arguments limit_ {S}. Arguments offset_ {S}.
Arguments counter_ {S}. Arguments lim_next_ {S}.

(** [QP::Limiter(limit, offset, next)] *)
Definition Limiter_new {S : Type} (limit offset : Z) (next : S) : Limiter S :=
  {| limit_ := limit; offset_ := offset; counter_ := 0; lim_next_ := next |}.

(** Modelled from the spec: [Limiter::put] is declared in [limiter.h], which
    is not among the embedded files.  The node skips the first [offset]
    samples, passes up to [limit] samples to the next node, and from then on
    reports [false]. *)
Definition limiter_put {S : Type} {nops : NodeOps S} (sample : aku_Sample) (l : Limiter S)
  : bool * Limiter S :=
  if counter_ l <? offset_ l then
    (true, {| limit_ := limit_ l; offset_ := offset_ l;
              counter_ := counter_ l + 1; lim_next_ := lim_next_ l |})
  else if counter_ l - offset_ l <? limit_ l then
    let '(ok, next') := put sample (lim_next_ l) in
    (ok, {| limit_ := limit_ l; offset_ := offset_ l;
            counter_ := counter_ l + 1; lim_next_ := next' |})
  else (false, l).

#[export] Instance Limiter_node {S : Type} {nops : NodeOps S} : NodeOps (Limiter S) :=
  {| put := limiter_put;
     complete := fun l =>
       {| limit_ := limit_ l; offset_ := offset_ l; counter_ := counter_ l;
          lim_next_ := complete (lim_next_ l) |};
     set_error := fun st l =>
       {| limit_ := limit_ l; offset_ := offset_ l; counter_ := counter_ l;
          lim_next_ := set_error st (lim_next_ l) |} |}.

(** The answers and the final state of a node offered the samples of [l] one
    after the other, whatever each answer was. *)
Fixpoint put_each {S : Type} {nops : NodeOps S} (l : list aku_Sample) (node : S)
  : list bool * S :=
  match l with
  | [] => ([], node)
  | sample :: rest =>
      let '(ok, node') := put sample node in
      let '(oks, node'') := put_each rest node' in
      (ok :: oks, node'')
  end.

(** ** queryparser.cpp: parse_processing_topology *)

(** The nodes of the vector returned by [parse_processing_topology].  The
    limiter's [next] is the terminal node that also closes the vector. *)
Inductive TopologyNode : Set :=
| LimiterNode (limit offset : Z)
| Terminal.

Section Topology.
Context {penv : ParserEnv}.

Definition parse_processing_topology (p : ptree)
  : outcome (aku_Status * list TopologyNode) :=
  limoff ← parse_limit_offset p;
  if negb (fst limoff =? 0) || negb (snd limoff =? 0)
  then Ok (AKU_SUCCESS, [LimiterNode (fst limoff) (snd limoff); Terminal])
  else Ok (AKU_SUCCESS, [Terminal]).
End Topology.

(** The root node of a topology over the caller's cursor. *)
Inductive Pipeline :=
| PLimited (l : Limiter TerminalNode)
| PTerminal (t : TerminalNode).

Definition build_pipeline (nodes : list TopologyNode) (cur : Cursor) : Pipeline :=
  match nodes with
  | LimiterNode limit offset :: _ =>
      PLimited (Limiter_new limit offset {| cursor := cur |})
  | _ => PTerminal {| cursor := cur |}
  end.

Definition pipeline_put (s : aku_Sample) (p : Pipeline) : bool * Pipeline :=
  match p with
  | PLimited l => let '(ok, l') := put s l in (ok, PLimited l')
  | PTerminal t => let '(ok, t') := put s t in (ok, PTerminal t')
  end.

Definition pipeline_cursor (p : Pipeline) : Cursor :=
  match p with
  | PLimited l => cursor (lim_next_ l)
  | PTerminal t => cursor t
  end.

#[export] Instance Pipeline_node : NodeOps Pipeline :=
  {| put := pipeline_put;
     complete := fun p => match p with
                          | PLimited l => PLimited (complete l)
                          | PTerminal t => PTerminal (complete t)
                          end;
     set_error := fun st p => match p with
                              | PLimited l => PLimited (set_error st l)
                              | PTerminal t => PTerminal (set_error st t)
                              end |}.


(** ** randomsamplingnode.cpp: RandomSamplingNode *)

(** The generator member [random_]: each call yields a value and the next
    generator state. *)
Class Rand (G : Type) := { rand_next : G -> Z * G }.

Record RandomSamplingNode (G S : Type) := {
  buffer_size_ : Z;
  samples_ : list aku_Sample;
  random_ : G;
  next_ : S
}.
Arguments buffer_size_ {G S}. Arguments samples_ {G S}.
Arguments random_ {G S}. Arguments next_ {G S}.

(** The predicate handed to [std::stable_sort]:
    [(lhs.timestamp, lhs.paramid) < (rhs.timestamp, rhs.paramid)]. *)
Definition sample_lt (lhs rhs : aku_Sample) : bool :=
  (timestamp lhs <? timestamp rhs)
  || ((timestamp lhs =? timestamp rhs) && (paramid lhs <? paramid rhs)).

(** [std::stable_sort] with [sample_lt]: an element moves past the elements
    before it only when it is strictly smaller. *)
Fixpoint insert_sorted (x : aku_Sample) (l : list aku_Sample) : list aku_Sample :=
  match l with
  | [] => [x]
  | y :: rest => if sample_lt y x then y :: insert_sorted x rest else x :: y :: rest
  end.

Fixpoint stable_sort (l : list aku_Sample) : list aku_Sample :=
  match l with
  | [] => []
  | x :: rest => insert_sorted x (stable_sort rest)
  end.

Section RandomSampling.
Context {G S : Type} {rand : Rand G} {nops : NodeOps S}.

Definition RandomSamplingNode_new (buffer_size : Z) (g : G) (next : S)
  : RandomSamplingNode G S :=
  {| buffer_size_ := buffer_size; samples_ := []; random_ := g; next_ := next |}.

Definition rs_flush (n : RandomSamplingNode G S) : bool * RandomSamplingNode G S :=
  let sorted := stable_sort (samples_ n) in
  let '(ok, next') := put_all sorted (next_ n) in
  if ok then
    (true, {| buffer_size_ := buffer_size_ n; samples_ := [];
              random_ := random_ n; next_ := next' |})
  else
    (false, {| buffer_size_ := buffer_size_ n; samples_ := sorted;
               random_ := random_ n; next_ := next' |}).

Definition rs_complete (n : RandomSamplingNode G S) : RandomSamplingNode G S :=
  let '(_, n') := rs_flush n in
  {| buffer_size_ := buffer_size_ n'; samples_ := samples_ n';
     random_ := random_ n'; next_ := complete (next_ n') |}.

Definition rs_put (sample : aku_Sample) (n : RandomSamplingNode G S)
  : outcome (bool * RandomSamplingNode G S) :=
  if PDataType_eqb (type (payload sample)) EMPTY then Ok (rs_flush n)
  else
    let size_ := Z.of_nat (length (samples_ n)) in
    if size_ <? buffer_size_ n then
      Ok (true, {| buffer_size_ := buffer_size_ n;
                   samples_ := samples_ n ++ [sample];
                   random_ := random_ n; next_ := next_ n |})
    else
      let '(r, g') := rand_next (random_ n) in
      if size_ =? 0 then Undefined "remainder by zero"
      else
        let ix := wrap32 (wrap32 r mod size_) in
        if ix <? buffer_size_ n then
          if ix <? size_ then
            Ok (true, {| buffer_size_ := buffer_size_ n;
                         samples_ := <[Z.to_nat ix := sample]> (samples_ n);
                         random_ := g'; next_ := next_ n |})
          else Throw "std::out_of_range"
        else
          Ok (true, {| buffer_size_ := buffer_size_ n; samples_ := samples_ n;
                       random_ := g'; next_ := next_ n |}).

(** The node fed a run of samples, as long as [put] answers [true]. *)
Fixpoint rs_run (l : list aku_Sample) (n : RandomSamplingNode G S)
  : outcome (bool * RandomSamplingNode G S) :=
  match l with
  | [] => Ok (true, n)
  | sample :: rest =>
      r ← rs_put sample n;
      if fst (r : bool * RandomSamplingNode G S)
      then rs_run rest (snd r) else Ok (false, snd r)
  end.
End RandomSampling.

(** What Algorithm R does with the sample that arrives after [k] others
    ([k] at least the capacity): the index is the drawn value reduced modulo
    [k], and the slot is replaced only when the index falls inside the
    buffer. *)
Definition algorithm_R_step (capacity k r : Z) (sample : aku_Sample)
    (buf : list aku_Sample) : list aku_Sample :=
  let ix := r mod k in
  if ix <? capacity then <[Z.to_nat ix := sample]> buf else buf.

(** A generator replaying a fixed list of values (0 once exhausted). *)
Definition replay_next (g : list Z) : Z * list Z :=
  match g with
  | [] => (0, [])
  | r :: rest => (r, rest)
  end.

#[export] Instance Replay_rand : Rand (list Z) := {| rand_next := replay_next |}.

(** ** queryprocessor.cpp: GroupByStatement and the processors *)

Record GroupByStatement := {
  step_ : aku_Timestamp;
  first_hit_ : bool;
  lowerbound_ : aku_Timestamp;
  upperbound_ : aku_Timestamp
}.

Definition GroupByStatement_new (step : aku_Timestamp) : GroupByStatement :=
  {| step_ := step; first_hit_ := true;
     lowerbound_ := AKU_MIN_TIMESTAMP; upperbound_ := AKU_MIN_TIMESTAMP |}.

Section Processors.
Context {S : Type} {nops : NodeOps S}.

Definition groupby_put (sample : aku_Sample) (g : GroupByStatement) (next : S)
  : bool * GroupByStatement * S :=
  if negb (step_ g =? 0) then
    let ts := timestamp sample in
    let g1 :=
      if first_hit_ g then
        let aligned := ts / step_ g * step_ g in
        {| step_ := step_ g; first_hit_ := false;
           lowerbound_ := aligned; upperbound_ := wrap64 (aligned + step_ g) |}
      else g in
    if upperbound_ g1 <=? ts then
      let empty := with_timestamp (upperbound_ g1) EMPTY_SAMPLE in
      let '(ok, next1) := put empty next in
      if negb ok then (false, g1, next1)
      else
        let g2 := {| step_ := step_ g1; first_hit_ := first_hit_ g1;
                     lowerbound_ := wrap64 (lowerbound_ g1 + step_ g1);
                     upperbound_ := wrap64 (upperbound_ g1 + step_ g1) |} in
        let '(ok', next2) := put sample next1 in (ok', g2, next2)
    else if ts <? lowerbound_ g1 then
      let empty := with_timestamp (upperbound_ g1) EMPTY_SAMPLE in
      let '(ok, next1) := put empty next in
      if negb ok then (false, g1, next1)
      else
        let g2 := {| step_ := step_ g1; first_hit_ := first_hit_ g1;
                     lowerbound_ := wrap64 (lowerbound_ g1 - step_ g1);
                     upperbound_ := wrap64 (upperbound_ g1 - step_ g1) |} in
        let '(ok', next2) := put sample next1 in (ok', g2, next2)
    else
      let '(ok, next1) := put sample next in (ok, g1, next1)
  else
    let '(ok, next1) := put sample next in (ok, g, next1).

(** [ScanQueryProcessor]: the group-by statement and the root node. *)
Record ScanQueryProcessor := {
  groupby_ : GroupByStatement;
  root_node_ : S
}.

Definition scan_put (sample : aku_Sample) (q : ScanQueryProcessor)
  : bool * ScanQueryProcessor :=
  let '(ok, g, root) := groupby_put sample (groupby_ q) (root_node_ q) in
  (ok, {| groupby_ := g; root_node_ := root |}).

Definition scan_stop (q : ScanQueryProcessor) : ScanQueryProcessor :=
  {| groupby_ := groupby_ q; root_node_ := complete (root_node_ q) |}.

(** The storage side driving a stream into the processor: it stops at the
    first [put] that answers [false]. *)
Fixpoint scan_drive (l : list aku_Sample) (q : ScanQueryProcessor)
  : bool * ScanQueryProcessor :=
  match l with
  | [] => (true, q)
  | sample :: rest =>
      let '(ok, q') := scan_put sample q in
      if ok then scan_drive rest q' else (false, q')
  end.

(** [MetadataQueryProcessor]: the ids its filter returns ([get_ids()]) and
    the root node. *)
Record MetadataQueryProcessor := {
  filter_ids_ : list aku_ParamId;
  root_ : S
}.

Context {senv : SampleEnv}.

Definition id_sample (id : aku_ParamId) : aku_Sample :=
  {| timestamp := 0; paramid := id;
     payload := {| type := PARAMID_BIT; size := sizeof_aku_Sample;
                   float64 := indeterminate_float64 |} |}.

Fixpoint metadata_start_loop (l : list aku_ParamId) (root : S) : bool * S :=
  match l with
  | [] => (true, root)
  | id :: rest =>
      let '(ok, root') := put (id_sample id) root in
      if negb ok then (false, root') else metadata_start_loop rest root'
  end.

Definition metadata_start (q : MetadataQueryProcessor) : bool * MetadataQueryProcessor :=
  let '(ok, root) := metadata_start_loop (filter_ids_ q) (root_ q) in
  (ok, {| filter_ids_ := filter_ids_ q; root_ := root |}).

Definition metadata_put (sample : aku_Sample) (q : MetadataQueryProcessor)
  : bool * MetadataQueryProcessor := (false, q).

Definition metadata_stop (q : MetadataQueryProcessor) : MetadataQueryProcessor :=
  {| filter_ids_ := filter_ids_ q; root_ := complete (root_ q) |}.
End Processors.
Arguments ScanQueryProcessor S : clear implicits.
Arguments MetadataQueryProcessor S : clear implicits.


(** ** A concrete environment for running the parser *)

(** Decimal digits to a number; [None] on any other character or on the
    empty string. *)
Fixpoint decimal_digits (s : string) (acc : Z) : option Z :=
  match s with
  | EmptyString => Some acc
  | String c rest =>
      let n := Z.of_nat (nat_of_ascii c) in
      if (48 <=? n) && (n <=? 57) then decimal_digits rest (acc * 10 + (n - 48))
      else None
  end.

Definition decimal (s : string) : option Z :=
  match s with
  | EmptyString => None
  | _ => decimal_digits s 0
  end.

Inductive SampleFunction : Set := F_MIN | F_MAX | F_CNT.

Definition sample_from_string (s : string) : aku_Status * SampleFunction :=
  if String.eqb s "min" then (AKU_SUCCESS, F_MIN)
  else if String.eqb s "max" then (AKU_SUCCESS, F_MAX)
  else if String.eqb s "cnt" then (AKU_SUCCESS, F_CNT)
  else (AKU_EQUERY_PARSING_ERROR, F_CNT).

Definition sample_to_string (f : SampleFunction) : string :=
  match f with F_MIN => "min" | F_MAX => "max" | F_CNT => "cnt" end.

(** Durations written as a number of seconds followed by [s], in 10 ns
    ticks. *)
Definition seconds_duration (s : string) : option Z :=
  match String.length s with
  | O => None
  | S n =>
      if String.eqb (String.substring n 1 s) "s" then
        match decimal (String.substring 0 n s) with
        | Some v => Some (v * 100000000)
        | None => None
        end
      else None
  end.

(** Basic ISO timestamps [yyyymmddThhmmss], read as the number
    [yyyymmddhhmmss]: a stand-in that keeps their order. *)
Fixpoint drop_T (s : string) : string :=
  match s with
  | EmptyString => EmptyString
  | String c rest =>
      if Ascii.eqb c "T"%char then drop_T rest else String c (drop_T rest)
  end.

Definition compact_iso (s : string) : option Z := decimal (drop_T s).

Definition sample_env : ParserEnv :=
  {| AggregationFunction := SampleFunction;
     Aggregation_from_string := sample_from_string;
     Aggregation_to_string := sample_to_string;
     parse_duration := seconds_duration;
     from_iso_string := compact_iso;
     get_value_u64 := decimal;
     OrderBy_zero := SERIES |}.

(** A catalogue held as a list of (name, id).  Its [regex_match] understands
    the expressions [extract_ids] writes for a metric without tags: the text
    before the first parenthesis is the metric, and a name matches when it is
    the metric alone or the metric followed by a space. *)
Fixpoint before_paren (s : string) : string :=
  match s with
  | EmptyString => EmptyString
  | String c rest =>
      if Ascii.eqb c "("%char then EmptyString else String c (before_paren rest)
  end.

Definition names_metric (metric name : string) : bool :=
  String.eqb name metric || String.prefix (metric ++ " ") name.

Definition list_regex_match (m : list (string * Z)) (expr : string)
  : list (string * Z) :=
  List.filter (fun e => names_metric (before_paren expr) (fst e)) m.

Fixpoint list_id2str (m : list (string * Z)) (id : Z) : string :=
  match m with
  | [] => ""
  | (name, i) :: rest => if i =? id then name else list_id2str rest id
  end.

Fixpoint list_match (m : list (string * Z)) (name : string) : Z :=
  match m with
  | [] => 0
  | (n, i) :: rest => if String.eqb n name then i else list_match rest name
  end.

#[export] Instance ListMatcher : SeriesMatcherOps (list (string * Z)) :=
  {| get_all_ids := map snd;
     regex_match := list_regex_match;
     id2str := list_id2str;
     matcher_match := list_match;
     matcher_new := [];
     matcher_add := fun m name id => (m ++ [(name, id)])%list;
     GroupByTag_new := fun m _ _ => (∅, m) |}.

Definition catalogue : list (string * Z) :=
  [("cpu host=a", 1); ("cpu host=b", 2); ("mem host=a", 3)].

Definition sample_env_layout : SampleEnv :=
  {| sizeof_aku_Sample := 32; indeterminate_float64 := 0 |}.

Definition value_sample (ts id : Z) : aku_Sample :=
  {| timestamp := ts; paramid := id;
     payload := {| type := FLOAT_BIT; size := 32; float64 := 0 |} |}.






Definition join_query : ptree :=
  object [("join", array [leaf "cpu"; leaf "mem"]);
          ("range", object [("from", leaf "20150101T000000");
                            ("to", leaf "20150102T000000")])].

Definition where_with_duplicate : ptree :=
  object [("select", leaf "cpu");
          ("where", object [("host", leaf "a"); ("host", leaf "b")])].


(** ** Orders and counts used to state the node properties *)

(** [(x.timestamp, x.paramid) <= (y.timestamp, y.paramid)] *)
Definition sample_le (x y : aku_Sample) : Prop :=
  timestamp x < timestamp y \/
  (timestamp x = timestamp y /\ paramid x <= paramid y).

Definition same_key (x y : aku_Sample) : bool :=
  (timestamp x =? timestamp y) && (paramid x =? paramid y).

Definition count_markers (l : list aku_Sample) : nat :=
  length (List.filter is_empty_marker l).

Definition data_samples (l : list aku_Sample) : list aku_Sample :=
  List.filter (fun s => negb (is_empty_marker s)) l.

(** A forward stream of timestamps in which no sample lies more than one
    bucket of width [step] after the bucket of the sample before it. *)
Fixpoint forward_dense (step : Z) (prev : Z) (l : list Z) : bool :=
  match l with
  | [] => true
  | ts :: rest =>
      (prev <=? ts) && (ts / step <=? prev / step + 1) && forward_dense step ts rest
  end.

Definition accepting (c : Cursor) : Prop := forall h s, accept c h s = true.

(** A sampling node whose two buffered samples are out of order, in front of
    a cursor that refuses everything. *)
Definition refused_node : RandomSamplingNode (list Z) Cursor :=
  {| buffer_size_ := 2;
     samples_ := [value_sample 2 1; value_sample 1 1];
     random_ := [];
     next_ := new_cursor accept_none |}.

Definition sample_a : aku_Sample := value_sample 1 1.
Definition sample_b : aku_Sample := value_sample 2 2.
Definition sample_c : aku_Sample := value_sample 3 3.
Definition sample_d : aku_Sample := value_sample 4 4.


(** The cursor after it was offered the samples of [l]. *)
Definition cursor_after (l : list aku_Sample) (c : Cursor) : Cursor :=
  {| accept := accept c; offered := offered c ++ l;
     completed := completed c; errors := errors c |}.


Definition metadata_query : MetadataQueryProcessor Cursor :=
  {| filter_ids_ := [1; 2]; root_ := new_cursor accept_all |}.

Definition empty_query : ptree := object [].

Definition limit_only_query : ptree := object [("limit", leaf "2")].

Definition limit_offset_query : ptree :=
  object [("limit", leaf "2"); ("offset", leaf "1")].


(** A node state from which every run of samples is taken whole. *)
Definition accepts_from {S : Type} {nops : NodeOps S} (st : S) : Prop :=
  forall l : list aku_Sample, fst (put_all l st) = true.

(** The samples a limiter whose counter stands at [c] lets through out of
    the run [l]. *)
Definition limiter_window (limit offset c : Z) (l : list aku_Sample)
  : list aku_Sample :=
  firstn (Z.to_nat (offset + limit - Z.max c offset)) (skipn (Z.to_nat (offset - c)) l).


Definition open_terminal : TerminalNode := {| cursor := new_cursor accept_all |}.


(** The last timestamp of a stream that starts with [prev]. *)
Fixpoint last_of (prev : Z) (l : list Z) : Z :=
  match l with
  | [] => prev
  | ts :: rest => last_of ts rest
  end.

(** The group-by statement once aligned on bucket number [q] of width
    [step]. *)
Definition groupby_at (step q : Z) : GroupByStatement :=
  {| step_ := step; first_hit_ := false;
     lowerbound_ := q * step; upperbound_ := q * step + step |}.

(** The bucket boundaries after bucket [a] up to bucket [b]. *)
Definition bucket_bounds (step a b : Z) : list Z :=
  map (fun i => (a + 1 + Z.of_nat i) * step) (seq 0 (Z.to_nat (b - a))).

Definition marker_at (ts : Z) : aku_Sample := with_timestamp ts EMPTY_SAMPLE.

Definition groupby_query (step : Z) (cur : Cursor) : ScanQueryProcessor Cursor :=
  {| groupby_ := GroupByStatement_new step; root_node_ := cur |}.


(** ** Further definitions: the rest of the query parser *)

(** A top-level key that names the kind of a query. *)
Definition is_kind_key (k : string) : bool := str_mem k UNIQUE_STMTS.

(** The timestamps that [from_iso_string] reads out of the children of
    `range` carrying [key], in document order. *)
Fixpoint parsed_stamps {penv : ParserEnv} (key : string)
    (items : list (string * ptree)) : list aku_Timestamp :=
  match items with
  | [] => []
  | (k, child) :: rest =>
      if String.eqb k key then
        match from_iso_string (pt_data child) with
        | Some ts => ts :: parsed_stamps key rest
        | None => parsed_stamps key rest
        end
      else parsed_stamps key rest
  end.

(** [boost::erase_first(s, pat)]: the first occurrence of [pat] in [s] is
    removed; [s] is returned as it is when [pat] does not occur. *)
Fixpoint erase_first (pat s : string) : string :=
  if String.prefix pat s then string_drop (String.length pat) s
  else match s with
       | EmptyString => EmptyString
       | String c rest => String c (erase_first pat rest)
       end.

Section MetaQuery.
Context {M : Type} {mops : SeriesMatcherOps M}.

(** [QueryParser::parse_select_meta_query] *)
Definition parse_select_meta_query (p : ptree) (matcher : M)
  : outcome (aku_Status * list aku_ParamId) :=
  match validate_query p with
  | AKU_SUCCESS =>
      let '(status, name) := parse_select_stmt p in
      match status with
      | AKU_SUCCESS =>
          if negb (is_meta_query name) then Ok (AKU_EQUERY_PARSING_ERROR, [])
          else
            let metrics :=
              if (10 <? String.length name)%nat && String.prefix "meta:names" name
              then [erase_first "meta:names:" name]
              else [] in
            '(status, ids_) ← parse_where_clause p metrics matcher;
            match status with
            | AKU_SUCCESS => Ok (AKU_SUCCESS, ids_)
            | _ => Ok (status, ids_)
            end
      | _ => Ok (status, [])
      end
  | status => Ok (status, [])
  end.
End MetaQuery.

Definition meta_names_query : ptree := object [("select", leaf "meta:names")].

Definition meta_names_where_query : ptree :=
  object [("select", leaf "meta:names");
          ("where", object [("host", leaf "a")])].

Definition meta_names_cpu_query : ptree :=
  object [("select", leaf "meta:names:cpu")].

(** A select that starts with [meta:names] without the colon that would
    separate a metric. *)
Definition meta_namescpu_query : ptree :=
  object [("select", leaf "meta:namescpu")].

Definition range_twice_query : ptree :=
  object [("select", leaf "cpu");
          ("range", object [("from", leaf "bad"); ("from", leaf "20150101T000000");
                            ("to", leaf "20150102T000000");
                            ("from", leaf "20150103T000000")])].

Definition output_first_query : ptree :=
  object [("output", leaf "csv"); ("limit", leaf "10");
          ("join", array [leaf "cpu"; leaf "mem"]);
          ("select", leaf "cpu")].



Definition group_aggregate_query : ptree :=
  object [("group-aggregate",
           object [("step", leaf "1s"); ("metric", leaf "cpu");
                   ("func", array [leaf "min"; leaf "max"])]);
          ("range", object [("from", leaf "20150101T000000");
                            ("to", leaf "20150102T000000")])].


Definition single_join_query : ptree :=
  object [("join", array [leaf "cpu"]);
          ("range", object [("from", leaf "20150101T000000");
                            ("to", leaf "20150102T000000")])].



(** The two timestamps of what [parse_range_timestamp] returns. *)
Definition snd_range (r : aku_Status * aku_Timestamp * aku_Timestamp)
  : aku_Timestamp * aku_Timestamp := (snd (fst r), snd r).


(** The request a query parser returned ([d] when it did not return). *)
Definition request_of {A : Type} (o : outcome (aku_Status * A)) (d : A) : A :=
  match o with
  | Ok (_, r) => r
  | _ => d
  end.





Definition join_request : ReshapeRequest SampleFunction (list (string * Z)) :=
  request_of (parse_join_query (penv := sample_env) join_query catalogue)
    (ReshapeRequest_default (penv := sample_env)).


Definition join_tier2 (order : OrderBy) : Tier2Operator :=
  match order with
  | SERIES => MERGE_JOIN_SERIES_ORDER
  | TIME => MERGE_JOIN_TIME_ORDER
  end.




(** Row-major reading of [k] columns of [n] ids stored one column after the
    other in [l]: row [i] holds the [i]-th id of every column. *)
Definition interleave (k n : nat) (l : list aku_ParamId) : list aku_ParamId :=
  flat_map (fun i => map (fun j => nth (j * n + i) l 0) (seq 0 k)) (seq 0 n).


(** ** Further definitions: streams and nodes *)

(** A backward stream of timestamps in which no sample lies more than one
    bucket of width [step] before the bucket of the sample before it. *)
Fixpoint backward_dense (step : Z) (prev : Z) (l : list Z) : bool :=
  match l with
  | [] => true
  | ts :: rest =>
      (ts <=? prev) && (prev / step - 1 <=? ts / step) && backward_dense step ts rest
  end.

(** The upper bounds of the buckets left on the way down from bucket [a] to
    bucket [b]. *)
Definition bucket_bounds_down (step a b : Z) : list Z :=
  map (fun i => (a + 1 - Z.of_nat i) * step) (seq 0 (Z.to_nat (a - b))).

Definition is_margin (s : aku_Sample) : bool :=
  PDataType_eqb (type (payload s)) MARGIN.

Definition margin_sample (ts : Z) : aku_Sample :=
  {| timestamp := ts; paramid := 0;
     payload := {| type := MARGIN; size := 0; float64 := 0 |} |}.


(** ** The display names of the matcher a request carries *)

Section DisplayNames.
Context {penv : ParserEnv} {M : Type} {mops : SeriesMatcherOps M}.

(** [m:f1|m:f2|...] *)
Definition function_names (metric_name : string)
    (funcs : list AggregationFunction) : string :=
  String.concat "|"
    (map (fun func => metric_name ++ ":" ++ Aggregation_to_string func) funcs).

(** A matcher that holds, for every id of [ids0] in order, [display]
    followed by the catalogue name of the id less its first [skip]
    characters. *)
Definition renamed_series (global_matcher : M) (display : string) (skip : nat)
    (ids0 : list aku_ParamId) (matcher : M) : M :=
  fold_left
    (fun acc id =>
       matcher_add acc (display ++ string_drop skip (id2str global_matcher id)) id)
    ids0 matcher.

Definition named_after (global_matcher : M) (metric_name : string)
    (ids0 : list aku_ParamId) : bool :=
  forallb (fun id => String.prefix metric_name (id2str global_matcher id)) ids0.
End DisplayNames.

(** A catalogue whose second entry reuses the id of the first: [id2str 1]
    answers the [mem] name although the id is also listed under [cpu]. *)
Definition aliased_catalogue : list (string * Z) :=
  [("mem host=a", 1); ("cpu host=a", 1)].


(** ** queryprocessor.cpp: the constructor of ScanQueryProcessor *)

(** The bit masks [Node::GROUP_BY_REQUIRED] and [Node::TERMINAL], declared
    with the node interface outside the files embedded here. *)
Class NodeFlags := {
  GROUP_BY_REQUIRED : Z;
  TERMINAL : Z
}.

Inductive CursorDirection : Set :=
| AKU_CURSOR_DIR_FORWARD
| AKU_CURSOR_DIR_BACKWARD.

Section ScanConstructor.
Context {flags : NodeFlags} {S : Type}.
(** [Node::get_requirements] *)
Variable get_requirements : S -> Z.

(** [GroupByStatement::empty] *)
Definition groupby_empty (g : GroupByStatement) : bool := step_ g =? 0.

(** [(ptr->get_requirements() & Node::GROUP_BY_REQUIRED) != 0] *)
Definition requires_group_by (ptr : S) : bool :=
  negb (Z.land (get_requirements ptr) GROUP_BY_REQUIRED =? 0).

(** The requirements of the node under the reverse iterator masked with
    [Node::TERMINAL] are not zero. *)
Definition is_terminal (ptr : S) : bool :=
  negb (Z.land (get_requirements ptr) TERMINAL =? 0).

(** The loop of lines 193-198. *)
Fixpoint check_group_by (nodes : list S) : outcome unit :=
  match nodes with
  | [] => Ok tt
  | ptr :: rest =>
      if requires_group_by ptr then Throw "`group_by` required"
      else check_group_by rest
  end.

(** The loop of lines 202-211 over the nodes from the last to the first;
    [nnormal] counts the nodes met so far that are not terminal. *)
Fixpoint check_sampling_order (rnodes : list S) (nnormal : Z) : outcome unit :=
  match rnodes with
  | [] => Ok tt
  | it :: rest =>
      if is_terminal it then
        if negb (nnormal =? 0) then Throw "invalid sampling order"
        else check_sampling_order rest nnormal
      else check_sampling_order rest (nnormal + 1)
  end.

(** What the constructor leaves in the object: the bounds, the direction,
    the group-by statement and the root node. *)
Record ScanQuery := {
  scan_lowerbound_ : aku_Timestamp;
  scan_upperbound_ : aku_Timestamp;
  scan_direction_ : CursorDirection;
  scan_processor : ScanQueryProcessor S
}.

Definition ScanQueryProcessor_new (nodes : list S) (begin_ end_ : aku_Timestamp)
    (groupby : GroupByStatement) : outcome ScanQuery :=
  match nodes with
  | [] => Panic "`nodes` shouldn't be empty"
  | root :: _ =>
      _ ← (if groupby_empty groupby then check_group_by nodes else Ok tt);
      _ ← check_sampling_order (rev nodes) 0;
      Ok {| scan_lowerbound_ := Z.min begin_ end_;
            scan_upperbound_ := Z.max begin_ end_;
            scan_direction_ := if end_ <? begin_ then AKU_CURSOR_DIR_BACKWARD
                               else AKU_CURSOR_DIR_FORWARD;
            scan_processor := {| groupby_ := groupby; root_node_ := root |} |}
  end.

(** Every terminal node comes after every node that is not terminal. *)
Definition terminals_last (nodes : list S) : Prop :=
  exists normal terminals,
    nodes = (normal ++ terminals)%list /\
    Forall (fun ptr => is_terminal ptr = false) normal /\
    Forall (fun ptr => is_terminal ptr = true) terminals.
End ScanConstructor.


(** ** queryprocessor.cpp: Builder::build_query_processor *)

Module Builder.

(** What [QP::create_node] can do, as the [catch] clause of [make_sampler]
    tells it apart: return a node, throw a
    [boost::property_tree::ptree_error], or throw something else. *)
Inductive created (N : Type) : Type :=
| Created (node : N)
| PtreeError
| OtherError (what : string).
Arguments Created {N} node.
Arguments PtreeError {N}.
Arguments OtherError {N} what.

(** The collaborators of the builder declared outside the files embedded
    here: the node factory, the requirements of a node, and the constructor
    of [RegexFilter] over the string pool of the matcher. *)
Class BuilderEnv (N F : Type) := {
  create_node : string -> ptree -> N -> created N;
  get_requirements : N -> Z;
  RegexFilter_new : string -> outcome F
}.

(** The processor returned: [filter] is [None] for a null pointer. *)
Inductive QueryProcessor (N F : Type) : Type :=
| Scan (q : ScanQuery (S := N)) (metric : string) (filter : option F)
| Metadata (filter : option F) (root : N).
Arguments Scan {N F} q metric filter.
Arguments Metadata {N F} filter root.

Section Readers.
Context {penv : ParserEnv} {flags : NodeFlags} {N F : Type} {benv : BuilderEnv N F}.

Definition make_sampler (p : ptree) (next : N) : outcome N :=
  match get_child_optional "name" p with
  | None => Throw "invalid sampler description"
  | Some name =>
      match create_node (pt_data name) p next with
      | Created node => Ok node
      | PtreeError => Throw "invalid sampler description"
      | OtherError what => Throw what
      end
  end.

Definition parse_select_stmt (p : ptree) : outcome (option string) :=
  match get_child_optional "select" p with
  | Some select =>
      if pt_empty select then
        if String.eqb (pt_data select) "names" then Ok (Some (pt_data select))
        else Throw "Invalid `select` query"
      else Ok None
  | None => Ok None
  end.

Fixpoint groupby_duration (items : list (string * ptree)) (duration : aku_Timestamp)
  : outcome aku_Timestamp :=
  match items with
  | [] => Ok duration
  | (k, child) :: rest =>
      if String.eqb k "time" then
        match parse_duration (pt_data child) with
        | Some d => groupby_duration rest d
        | None => Throw "BadDateTimeFormat"
        end
      else groupby_duration rest duration
  end.

Definition parse_groupby (p : ptree) : outcome GroupByStatement :=
  match get_child_optional "group-by" p with
  | Some groupby =>
      duration ← groupby_duration (pt_children groupby) 0;
      Ok (GroupByStatement_new duration)
  | None => Ok (GroupByStatement_new 0)
  end.

Definition parse_metric (p : ptree) : string :=
  match get_child_optional "metric" p with
  | Some opt => pt_data opt
  | None => ""
  end.

Fixpoint range_child (items : list (string * ptree)) (name : string)
  : outcome aku_Timestamp :=
  match items with
  | [] => Throw ("can't find `" ++ name ++ "` tag inside the query")
  | (k, child) :: rest =>
      if String.eqb k name then
        match from_iso_string (pt_data child) with
        | Some ts => Ok ts
        | None => Throw "BadDateTimeFormat"
        end
      else range_child rest name
  end.

Definition parse_range_timestamp (p : ptree) (name : string) : outcome aku_Timestamp :=
  match get_child_optional "range" p with
  | Some range => range_child (pt_children range) name
  | None => Throw "ptree_bad_path"
  end.

(** The expression written for one child of `where`. *)
Fixpoint series_alternatives (metric tag : string) (firstitem : bool)
    (idslist : list (string * ptree)) : string :=
  match idslist with
  | [] => ""
  | idnode :: rest =>
      (if firstitem then "(?:" else "|") ++
      "(" ++ metric ++ "(?:\s\w+=\w+)*\s" ++ tag ++ "=" ++ pt_data (snd idnode) ++
      "(?:\s\w+=\w+)*)" ++
      series_alternatives metric tag false rest
  end.

Definition series_regexp (metric tag : string) (idslist : ptree) : string :=
  series_alternatives metric tag true (pt_children idslist) ++ ")".

(** The loop over the children of `where`: every child builds a filter and
    overwrites [result]. *)
Fixpoint where_items (metric : string) (items : list (string * ptree))
    (result : option F) : outcome (option F) :=
  match items with
  | [] => Ok result
  | (tag, idslist) :: rest =>
      f ← RegexFilter_new (series_regexp metric tag idslist);
      where_items metric rest (Some f)
  end.

Definition parse_where_clause (p : ptree) (metric pred : string)
  : outcome (option F) :=
  let metric := if String.eqb metric "" then "\w+" else metric in
  match get_child_optional "where" p with
  | Some where_ => where_items metric (pt_children where_) None
  | None =>
      f ← RegexFilter_new (metric ++ "(\s\w+=\w+)*");
      Ok (Some f)
  end.

(** The loop of lines 480-483 over the children of `sample` from the last
    to the first. *)
Fixpoint make_samplers (rchildren : list (string * ptree)) (next : N)
    (allnodes : list N) : outcome (list N) :=
  match rchildren with
  | [] => Ok allnodes
  | i :: rest =>
      next' ← make_sampler (snd i) next;
      make_samplers rest next' (allnodes ++ [next'])%list
  end.

(** [build_query_processor] from the parsed document on. *)
Definition build_query_processor (p : ptree) (terminal : N)
  : outcome (QueryProcessor N F) :=
  groupby ← parse_groupby p;
  let metric := parse_metric p in
  select ← parse_select_stmt p;
  let sampling_params := get_child_optional "sample" p in
  filter ← parse_where_clause p metric "in";
  match sampling_params, select with
  | Some _, Some _ => Throw "`sample` and `select` can't be used together"
  | _, None =>
      ts_begin ← parse_range_timestamp p "from";
      ts_end ← parse_range_timestamp p "to";
      allnodes ←
        match sampling_params with
        | Some params => make_samplers (rev (pt_children params)) terminal [terminal]
        | None => Ok [terminal]
        end;
      q ← ScanQueryProcessor_new get_requirements (rev allnodes) ts_begin ts_end groupby;
      Ok (Scan q metric filter)
  | None, Some _ => Ok (Metadata filter terminal)
  end.

(** The samplers of a `sample` list linked in the order of the list: every
    sampler feeds the one listed after it, the last one feeds [terminal].
    The answer lists the nodes from the first sampler to [terminal]. *)
Fixpoint sampler_chain (children : list (string * ptree)) (terminal : N)
  : outcome (list N) :=
  match children with
  | [] => Ok [terminal]
  | i :: rest =>
      nodes ← sampler_chain rest terminal;
      node ← make_sampler (snd i) (hd terminal nodes);
      Ok (node :: nodes)
  end.
End Readers.
End Builder.

(** Flags and a node factory for running the builder: a node is the list of
    the names from itself down to the terminal node. *)
Definition sample_flags : NodeFlags := {| GROUP_BY_REQUIRED := 1; TERMINAL := 2 |}.

Definition named_nodes : Builder.BuilderEnv (list string) string :=
  {| Builder.create_node := fun name _ next =>
       if String.eqb name "" then Builder.PtreeError
       else Builder.Created (name :: next);
     Builder.get_requirements := fun node =>
       match node with
       | [_] => 2
       | _ => 0
       end;
     Builder.RegexFilter_new := fun regex => Ok regex |}.

Definition sampled_query : ptree :=
  object [("metric", leaf "cpu");
          ("sample", array [object [("name", leaf "reservoir")];
                            object [("name", leaf "paa")]]);
          ("where", object [("host", array [leaf "a"; leaf "b"]);
                            ("region", array [leaf "eu"])]);
          ("range", object [("from", leaf "20150101T000000");
                            ("from", leaf "20140101T000000");
                            ("to", leaf "20150102T000000")])].

Definition names_query : ptree :=
  object [("select", leaf "names"); ("where", object [])].


(** ** The tags a `where` object asks for *)

(** The entry of [tags_] one child of `where` stands for. *)
Definition where_entry (item : string * ptree) : string * list string :=
  (fst item,
   if negb (pt_empty (snd item))
   then map (fun idnode => pt_data (snd idnode)) (pt_children (snd item))
   else [pt_data (snd item)]).

(** The order of the keys of [tags_] ([std::less<std::string>]). *)
Definition tag_lt (a b : string * list string) : Prop :=
  String.ltb (fst a) (fst b) = true.

Definition where_host_region : ptree :=
  object [("select", leaf "cpu");
          ("where", object [("host", array [leaf "a"; leaf "b"]);
                            ("region", leaf "eu")])].

Definition where_region_host : ptree :=
  object [("select", leaf "cpu");
          ("where", object [("region", leaf "eu");
                            ("host", array [leaf "a"; leaf "b"])])].


(** A `group-aggregate` statement followed, inside the same object, by a
    second `step` that cannot be read and a second `func` naming no
    function. *)
Definition group_aggregate_trailing_query : ptree :=
  object [("group-aggregate",
           object [("step", leaf "1s"); ("metric", leaf "cpu");
                   ("func", array [leaf "min"; leaf "max"]);
                   ("step", leaf "soon"); ("func", array [leaf "median"])]);
          ("range", object [("from", leaf "20150101T000000");
                            ("to", leaf "20150102T000000")])].






(** A catalogue in which the id of a [cpu] series is first listed under a
    name shorter than the metric. *)
Definition short_name_catalogue : list (string * Z) :=
  [("x", 1); ("cpu host=a", 1)].


(* ===================================================================== *)
(** * Theorems                                                            *)
(* ===================================================================== *)

Local Open Scope list_scope.

Lemma validate_loop_nil_keywords items :
  validate_loop [] items =
  if existsb (fun kv => negb (str_mem (fst kv) ALLOWED_STMTS)) items
  then AKU_EQUERY_PARSING_ERROR else AKU_SUCCESS.
Proof.
  induction items as [|[k c] rest IH]; [reflexivity|].
  cbn [validate_loop existsb fst].
  destruct (str_mem k ALLOWED_STMTS); cbn [negb orb]; [|reflexivity].
  change (str_mem k []) with false.
  change (existsb (fun kw => str_mem kw []) UNIQUE_STMTS) with false.
  exact IH.
Qed.

(** ** validate_query *)

Lemma validate_query_unknown_only (p : ptree) :
  validate_query p =
  if has_unknown_key p then AKU_EQUERY_PARSING_ERROR else AKU_SUCCESS.
Proof. destruct p as [d cs]. apply validate_loop_nil_keywords. Qed.

Lemma validate_query_status (p : ptree) :
  validate_query p = AKU_SUCCESS \/ validate_query p = AKU_EQUERY_PARSING_ERROR.
Proof.
  rewrite validate_query_unknown_only. destruct (has_unknown_key p); auto.
Qed.

(** The part of the grammar rule the loop does enforce: a document with a
    key outside the allowed set is a parse error. *)
Lemma validate_query_rejects_unknown (p : ptree) :
  has_unknown_key p = true -> validate_query p = AKU_EQUERY_PARSING_ERROR.
Proof. intros Hk. rewrite validate_query_unknown_only, Hk. reflexivity. Qed.

Lemma validate_query_accepts_duplicate :
  has_duplicate_key select_twice = true /\
  validate_query select_twice = AKU_SUCCESS.
Proof. split; reflexivity. Qed.

(** C1.  The document [{"select": "cpu", "aggregate": {"cpu": "max"},
    "range": {...}}] carries two keys of the mutually exclusive set, yet
    [validate_query] answers [AKU_SUCCESS] for it, the query is classified as
    a SELECT, and [parse_select_query] accepts it: the set of keywords seen
    so far is consulted by the loop but no key is ever added to it. *)
Theorem validate_query_select_and_aggregate :
  count_exclusive select_and_aggregate = 2%nat /\
  validate_query select_and_aggregate = AKU_SUCCESS /\
  get_query_kind select_and_aggregate = (AKU_SUCCESS, SELECT) /\
  exists req,
    parse_select_query (penv := sample_env) select_and_aggregate catalogue
    = Ok (AKU_SUCCESS, req).
Proof.
  split; [reflexivity|]. split; [reflexivity|]. split; [reflexivity|].
  eexists. vm_compute. reflexivity.
Qed.

(** ** parse_group_aggregate_query *)

Section GroupAggregateFacts.
Context {penv : ParserEnv} {M : Type} {mops : SeriesMatcherOps M}.

Lemma ga_func_loop_length children : forall func n err func' n',
  ga_func_loop children func n = (err, func', n') ->
  (length func' + n = length func + n')%nat /\ (n <= n')%nat.
Proof.
  induction children as [|[k child] rest IH]; intros func n err func' n' Hrun;
    cbn [ga_func_loop] in Hrun.
  - injection Hrun as <- <- <-. lia.
  - unfold get_value_string in Hrun.
    destruct (Aggregation_from_string (pt_data child)) as [st f].
    destruct st; try (injection Hrun as <- <- <-; lia).
    apply IH in Hrun. rewrite length_app in Hrun. cbn [length] in Hrun. lia.
Qed.

Lemma ga_loop_func_nonempty aggregate items : forall c0 c1 c2 result c0' c1' c2' result',
  (c2 = true -> ga_func result <> []) ->
  ga_loop aggregate items c0 c1 c2 result = (c0', c1', c2', result') ->
  c2' = true -> ga_func result' <> [].
Proof.
  induction items as [|[tag kv] rest IH];
    intros c0 c1 c2 result c0' c1' c2' result' Hinv Hrun Hc2;
    cbn [ga_loop] in Hrun.
  - injection Hrun as <- <- <- <-. auto.
  - unfold get_value_string in Hrun.
    destruct (String.eqb tag "step").
    { destruct c0; [injection Hrun as <- <- <- <-; auto|].
      destruct (parse_duration (pt_data kv));
        (eapply IH; [|exact Hrun|exact Hc2]; exact Hinv). }
    destruct (String.eqb tag "metric").
    { destruct c1; [injection Hrun as <- <- <- <-; auto|].
      eapply IH; [|exact Hrun|exact Hc2]; exact Hinv. }
    destruct (String.eqb tag "func");
      [|eapply IH; [|exact Hrun|exact Hc2]; exact Hinv].
    destruct c2; [injection Hrun as <- <- <- <-; auto|].
    destruct (ga_func_loop _ (ga_func result) 0) as [[err func] n] eqn:Hf.
    apply ga_func_loop_length in Hf as [Hlen _].
    destruct err.
    + injection Hrun as <- <- <- <-. discriminate.
    + eapply IH; [|exact Hrun|exact Hc2]. cbn [ga_func].
      intros Hn ->. cbn [length] in Hlen.
      destruct n; [discriminate|lia].
Qed.

(** A `group-aggregate` statement that parses always carries at least one
    aggregation function: of the two guards that follow it in
    [parse_group_aggregate_query], only the one on the step can fire. *)
Lemma parse_group_aggregate_stmt_func_nonempty (p : ptree) gagg :
  parse_group_aggregate_stmt p = (AKU_SUCCESS, gagg) -> ga_func gagg <> [].
Proof.
  unfold parse_group_aggregate_stmt.
  destruct (get_child_optional "group-aggregate" p) as [aggregate|].
  - destruct (ga_loop _ _ _ _ _ _) as [[[c0 c1] c2] result] eqn:Hrun.
    destruct c0, c1, c2; cbn [andb]; intros Heq; try discriminate.
    injection Heq as <-.
    eapply ga_loop_func_nonempty; [|exact Hrun|reflexivity]. discriminate.
  - cbn [andb]. discriminate.
Qed.

(** C9.  When the `group-aggregate` statement parses but carries a zero
    step or no aggregation function, [parse_group_aggregate_query] returns
    the status in force at the guard, [AKU_SUCCESS], with the
    value-initialised request. *)
Theorem parse_group_aggregate_query_guard_status
    (p : ptree) (matcher : M) (gagg : GroupAggregate AggregationFunction) :
  validate_query p = AKU_SUCCESS ->
  parse_group_aggregate_stmt p = (AKU_SUCCESS, gagg) ->
  ga_step gagg = 0 \/ ga_func gagg = [] ->
  parse_group_aggregate_query p matcher = Ok (AKU_SUCCESS, ReshapeRequest_default).
Proof.
  intros Hvalid Hstmt Hguard.
  unfold parse_group_aggregate_query. rewrite Hvalid, Hstmt.
  destruct (ga_func gagg) as [|f fs]; [reflexivity|].
  destruct Hguard as [Hstep|Hfunc]; [|discriminate].
  rewrite Hstep. reflexivity.
Qed.
End GroupAggregateFacts.

Lemma parse_group_aggregate_query_guard_status_witness :
  parse_group_aggregate_query (penv := sample_env) zero_step_query catalogue
  = Ok (AKU_SUCCESS, ReshapeRequest_default).
Proof.
  apply (parse_group_aggregate_query_guard_status (penv := sample_env)
           zero_step_query catalogue
           {| ga_metric := "cpu"; ga_func := [F_MIN]; ga_step := 0 |}).
  - reflexivity.
  - vm_compute. reflexivity.
  - left. reflexivity.
Defined.

(** ** parse_aggregate_query and create_aggregate *)

Lemma groupby_items_success items : forall tags,
  fst (groupby_items items tags) = AKU_SUCCESS.
Proof.
  induction items as [|[k c] rest IH]; intros tags; cbn; [reflexivity|apply IH].
Qed.

Lemma parse_groupby_success (p : ptree) : fst (parse_groupby p) = AKU_SUCCESS.
Proof.
  unfold parse_groupby.
  destruct (get_child_optional "group-by" p); [apply groupby_items_success|reflexivity].
Qed.


Section AggregateFacts.
Context {penv : ParserEnv} {M : Type} {mops : SeriesMatcherOps M}.




End AggregateFacts.





(** ** The where-clause resolver: JOIN ids *)

Lemma length_zero_empty (s : string) : (String.length s =? 0)%nat = true <-> s = "".
Proof.
  destruct s; cbn; split; intros Hs; try reflexivity; discriminate.
Qed.

Section ResolverFacts.
Context {M : Type} {mops : SeriesMatcherOps M}.

Lemma secondary_ids_total (matcher : M) first metric ids0 : forall full,
  (forall id, In id ids0 -> named_in_range matcher first id) ->
  secondary_ids matcher first metric ids0 full
  = Ok (full ++ map (secondary_id matcher first metric) ids0).
Proof.
  induction ids0 as [|id rest IH]; intros full Hnames; cbn [secondary_ids map].
  - rewrite app_nil_r. reflexivity.
  - destruct (Hnames id (or_introl eq_refl)) as [Hne Hlong].
    destruct (String.length (id2str matcher id) =? 0)%nat eqn:Hlen.
    + apply length_zero_empty in Hlen. exfalso. exact (Hne Hlen).
    + destruct (Nat.ltb_spec (String.length (id2str matcher id))
                  (String.length first)) as [Hshort|_]; [lia|].
      rewrite IH by (intros i Hi; apply Hnames; right; exact Hi).
      rewrite <- app_assoc. reflexivity.
Qed.

Lemma secondary_ids_outcome (matcher : M) first metric ids0 : forall full,
  secondary_ids matcher first metric ids0 full
  = Ok (full ++ map (secondary_id matcher first metric) ids0) \/
  secondary_ids matcher first metric ids0 full = Panic "Matcher data is broken" \/
  secondary_ids matcher first metric ids0 full
  = Undefined "std::string from a reversed pointer range".
Proof.
  induction ids0 as [|id rest IH]; intros full; cbn [secondary_ids map].
  - left. rewrite app_nil_r. reflexivity.
  - destruct (String.length (id2str matcher id) =? 0)%nat;
      [right; left; reflexivity|].
    destruct (String.length (id2str matcher id) <? String.length first)%nat;
      [right; right; reflexivity|].
    destruct (IH (full ++ [secondary_id matcher first metric id]))
      as [Hok|[Hpanic|Hundef]].
    + left. unfold secondary_id in Hok at 1. rewrite Hok, <- app_assoc. reflexivity.
    + right. left. exact Hpanic.
    + right. right. exact Hundef.
Qed.

Lemma secondary_columns_length (matcher : M) first tail ids0 :
  length (secondary_columns matcher first tail ids0)
  = (length tail * length ids0)%nat.
Proof.
  unfold secondary_columns.
  induction tail as [|m rest IH]; cbn [map concat length]; [reflexivity|].
  rewrite length_app, length_map, IH. lia.
Qed.

Lemma tail_metrics_total (matcher : M) first tail ids0 : forall full,
  (forall id, In id ids0 -> named_in_range matcher first id) ->
  tail_metrics matcher first tail ids0 full
  = Ok (full ++ secondary_columns matcher first tail ids0).
Proof.
  unfold secondary_columns.
  induction tail as [|m rest IH]; intros full Hnames; cbn [tail_metrics map concat].
  - rewrite app_nil_r. reflexivity.
  - rewrite secondary_ids_total by exact Hnames. cbn.
    rewrite IH by exact Hnames. rewrite <- app_assoc. reflexivity.
Qed.

Lemma tail_metrics_outcome (matcher : M) first tail ids0 : forall full,
  tail_metrics matcher first tail ids0 full
  = Ok (full ++ secondary_columns matcher first tail ids0) \/
  tail_metrics matcher first tail ids0 full = Panic "Matcher data is broken" \/
  tail_metrics matcher first tail ids0 full
  = Undefined "std::string from a reversed pointer range".
Proof.
  unfold secondary_columns.
  induction tail as [|m rest IH]; intros full; cbn [tail_metrics map concat].
  - left. rewrite app_nil_r. reflexivity.
  - destruct (secondary_ids_outcome matcher first m ids0 full) as [-> | [-> | ->]];
      [|right; left; reflexivity|right; right; reflexivity].
    cbn. destruct (IH (full ++ map (secondary_id matcher first m) ids0))
      as [-> | [-> | ->]];
      [left; rewrite <- app_assoc; reflexivity
      |right; left; reflexivity|right; right; reflexivity].
Qed.

Lemma extract_ids_outcome (matcher : M) first tail tags :
  let r := {| metric_ := first :: tail; tags_ := tags |} in
  let ids0 := first_metric_ids matcher first tags in
  extract_ids r matcher
  = Ok (AKU_SUCCESS, ids0 ++ secondary_columns matcher first tail ids0) \/
  extract_ids r matcher = Panic "Matcher data is broken" \/
  extract_ids r matcher = Undefined "std::string from a reversed pointer range".
Proof.
  cbn zeta. unfold extract_ids, first_metric_ids. cbn [metric_ tags_].
  destruct tail as [|m rest].
  - left. unfold secondary_columns. cbn. rewrite app_nil_r. reflexivity.
  - match goal with |- context [tail_metrics ?a ?b ?c ?d ?e] =>
      destruct (tail_metrics_outcome a b c d e) as [-> | [-> | ->]] end;
      [left|right; left|right; right]; reflexivity.
Qed.

Lemma extract_ids_total (matcher : M) first tail tags :
  let r := {| metric_ := first :: tail; tags_ := tags |} in
  let ids0 := first_metric_ids matcher first tags in
  (forall id, In id ids0 -> named_in_range matcher first id) ->
  extract_ids r matcher
  = Ok (AKU_SUCCESS, ids0 ++ secondary_columns matcher first tail ids0).
Proof.
  cbn zeta. intros Hnames. unfold extract_ids, first_metric_ids in *.
  cbn [metric_ tags_].
  destruct tail as [|m rest].
  - unfold secondary_columns. cbn. rewrite app_nil_r. reflexivity.
  - rewrite tail_metrics_total by exact Hnames. reflexivity.
Qed.

Lemma secondary_ids_out_of_range (matcher : M) first metric ids0 : forall full,
  (exists id, In id ids0 /\ ~ named_in_range matcher first id) ->
  forall l, secondary_ids matcher first metric ids0 full <> Ok l.
Proof.
  induction ids0 as [|id rest IH]; intros full [bad [Hin Hbad]] l;
    [destruct Hin|].
  cbn [secondary_ids].
  destruct (String.length (id2str matcher id) =? 0)%nat eqn:Hzero; [discriminate|].
  destruct (Nat.ltb_spec (String.length (id2str matcher id)) (String.length first))
    as [Hshort|Hlong]; [discriminate|].
  apply IH. destruct Hin as [<- | Hin]; [|exists bad; split; assumption].
  exfalso. apply Hbad. split; [|exact Hlong].
  intros Hempty. rewrite Hempty in Hzero. discriminate.
Qed.

Lemma extract_ids_out_of_range (matcher : M) first m tail tags :
  let r := {| metric_ := first :: m :: tail; tags_ := tags |} in
  let ids0 := first_metric_ids matcher first tags in
  (exists id, In id ids0 /\ ~ named_in_range matcher first id) ->
  forall st l, extract_ids r matcher <> Ok (st, l).
Proof.
  cbn zeta. intros Hbad st l. unfold extract_ids, first_metric_ids in *.
  cbn [metric_ tags_ tail_metrics].
  match goal with |- context [secondary_ids ?a ?b ?c ?d ?e] =>
    pose proof (secondary_ids_out_of_range a b c d e Hbad) as Hnot;
    destruct (secondary_ids a b c d e) as [full| | |] end;
    cbn; try discriminate.
  exfalso. exact (Hnot full eq_refl).
Qed.

Lemma join_shape_length (matcher : M) first tail (ids0 : list aku_ParamId) :
  length (ids0 ++ secondary_columns matcher first tail ids0)
  = (length (first :: tail) * length ids0)%nat.
Proof. rewrite length_app, secondary_columns_length. cbn [length]. lia. Qed.

Lemma join_columns_divisible (metrics : list string) (l : list aku_ParamId) n :
  metrics <> [] ->
  length l = (length metrics * n)%nat ->
  join_columns metrics l = Ok (split_columns (length metrics) n l).
Proof.
  intros Hne Hlen. unfold join_columns.
  assert (length metrics <> 0)%nat as Hk by (destruct metrics; [congruence|discriminate]).
  rewrite Hlen.
  replace (length metrics * n)%nat with (n * length metrics)%nat by lia.
  rewrite Nat.Div0.mod_mul, Nat.div_mul by exact Hk. reflexivity.
Qed.

Lemma add_tags_metric name values r :
  metric_ (snd (add_tags name values r)) = metric_ r.
Proof.
  unfold add_tags. destruct (metric_ r) eqn:Hm; [exact Hm|].
  destruct (tags_count name (tags_ r)); [exact Hm|reflexivity].
Qed.

Lemma add_tag_metric name value r :
  metric_ (snd (add_tag name value r)) = metric_ r.
Proof.
  unfold add_tag. destruct (metric_ r) eqn:Hm; [exact Hm|].
  destruct (tags_count name (tags_ r)); [exact Hm|reflexivity].
Qed.

Lemma where_loop_metric items : forall r,
  metric_ (where_loop items r) = metric_ r.
Proof.
  induction items as [|[tag v] rest IH]; intros r; cbn [where_loop]; [reflexivity|].
  rewrite IH.
  destruct (negb (pt_empty v)); [apply add_tags_metric|apply add_tag_metric].
Qed.
End ResolverFacts.

Lemma join_items_app items : forall acc,
  join_items items acc = (AKU_SUCCESS, acc ++ map (fun kv => pt_data (snd kv)) items).
Proof.
  induction items as [|[k v] rest IH]; intros acc; cbn [join_items map].
  - rewrite app_nil_r. reflexivity.
  - unfold get_value_string. rewrite IH, <- app_assoc. reflexivity.
Qed.

Lemma parse_join_stmt_nonempty (p : ptree) metrics :
  parse_join_stmt p = (AKU_SUCCESS, metrics) -> metrics <> [].
Proof.
  unfold parse_join_stmt.
  destruct (get_child_optional "join" p) as [j|].
  - rewrite join_items_app. cbn [app].
    destruct (map _ (pt_children j)); [discriminate|].
    intros Heq. injection Heq as <-. discriminate.
  - discriminate.
Qed.

Section JoinFacts.
Context {penv : ParserEnv} {M : Type} {mops : SeriesMatcherOps M}.

Lemma parse_where_clause_join_length (p : ptree) (matcher : M) first tail st l :
  parse_where_clause p (first :: tail) matcher = Ok (st, l) ->
  exists n, length l = (length (first :: tail) * n)%nat.
Proof.
  unfold parse_where_clause.
  destruct (get_child_optional "where" p) as [w|].
  - set (r := where_loop _ _).
    assert (metric_ r = first :: tail) as Hm by (unfold r; apply where_loop_metric).
    destruct r as [ms tags]. cbn in Hm. subst ms.
    destruct (extract_ids_outcome matcher first tail tags) as [Hok|[Hbad|Hbad]];
      cbn zeta in *; intros Hrun.
    + rewrite Hok in Hrun. injection Hrun as <- <-.
      eexists. apply join_shape_length.
    + rewrite Hbad in Hrun. discriminate.
    + rewrite Hbad in Hrun. discriminate.
  - destruct (extract_ids_outcome matcher first tail []) as [Hok|[Hbad|Hbad]];
      cbn zeta in *; intros Hrun.
    + rewrite Hok in Hrun. injection Hrun as <- <-.
      eexists. apply join_shape_length.
    + rewrite Hbad in Hrun. discriminate.
    + rewrite Hbad in Hrun. discriminate.
Qed.

(** No document makes [parse_join_query] abort on the remainder check. *)
Lemma parse_join_query_no_remainder_panic (p : ptree) (matcher : M) :
  parse_join_query p matcher <> Panic "Invalid `where` statement processing results".
Proof.
  unfold parse_join_query.
  destruct (validate_query p); try discriminate.
  destruct (parse_join_stmt p) as [st metrics] eqn:Hstmt.
  destruct st; try discriminate.
  apply parse_join_stmt_nonempty in Hstmt.
  destruct metrics as [|first tail]; [congruence|].
  destruct (parse_orderby p) as [st order].
  destruct st; try discriminate.
  destruct (parse_where_clause p (first :: tail) matcher) as [[st l]|msg|w|w] eqn:Hw;
    cbn; try discriminate.
  - destruct st; try discriminate.
    destruct (parse_range_timestamp p) as [[st b] e].
    destruct st; try discriminate.
    apply parse_where_clause_join_length in Hw as [n Hn].
    rewrite (join_columns_divisible (first :: tail) l n) by (try discriminate; exact Hn).
    cbn. destruct (init_matcher_in_join_query _ _ _ _). discriminate.
  - revert Hw. unfold parse_where_clause.
    destruct (get_child_optional "where" p) as [wc|].
    + set (r := where_loop _ _).
      assert (metric_ r = first :: tail) as Hm by (unfold r; apply where_loop_metric).
      destruct r as [ms tags]. cbn in Hm. subst ms.
      destruct (extract_ids_outcome matcher first tail tags) as [-> | [-> | ->]];
        cbn zeta; intros Heq; [discriminate| |discriminate].
      injection Heq as <-. discriminate.
    + destruct (extract_ids_outcome matcher first tail []) as [-> | [-> | ->]];
        cbn zeta; intros Heq; [discriminate| |discriminate].
      injection Heq as <-. discriminate.
Qed.

(** C7.  For a join over the metrics [first :: tail], the resolver returns
    the ids matched for the first metric followed, for each further metric,
    by one id per matched series (0 when the catalogue lacks the series):
    its length is a multiple of the number of metrics.  It returns whenever
    the catalogue names every matched series with a name at least as long as
    the first metric; with a further metric and a matched series that has no
    name, or a shorter one, it does not return (it aborts on the missing
    name, and reads a reversed pointer range on the short one).  The column
    split of [parse_join_query] aborts the process on a remainder, and no
    document brings [parse_join_query] to that abort. *)
Theorem join_ids_divisible (matcher : M) (first : string) (tail : list string)
    (tags : list (string * list string)) :
  let metrics := first :: tail in
  let r := {| metric_ := metrics; tags_ := tags |} in
  let ids0 := first_metric_ids matcher first tags in
  ((forall id, In id ids0 -> named_in_range matcher first id) ->
   exists l,
     extract_ids r matcher = Ok (AKU_SUCCESS, l) /\
     l = ids0 ++ secondary_columns matcher first tail ids0 /\
     length (secondary_columns matcher first tail ids0)
     = (length tail * length ids0)%nat /\
     (length l mod length metrics = 0)%nat /\
     join_columns metrics l
     = Ok (split_columns (length metrics) (length ids0) l)) /\
  (forall st l, extract_ids r matcher = Ok (st, l) ->
                st = AKU_SUCCESS /\
                l = ids0 ++ secondary_columns matcher first tail ids0 /\
                (length l mod length metrics = 0)%nat) /\
  (tail <> [] ->
   (exists id, In id ids0 /\ ~ named_in_range matcher first id) ->
   (extract_ids r matcher = Panic "Matcher data is broken" \/
    extract_ids r matcher
    = Undefined "std::string from a reversed pointer range")) /\
  (forall (ms : list string) (l : list aku_ParamId),
      (length l mod length ms <> 0)%nat ->
      join_columns ms l = Panic "Invalid `where` statement processing results") /\
  (forall p, parse_join_query p matcher
             <> Panic "Invalid `where` statement processing results").
Proof.
  cbn zeta. split; [|split; [|split; [|split]]].
  - intros Hnames. eexists. split; [apply extract_ids_total, Hnames|].
    split; [reflexivity|]. split; [apply secondary_columns_length|].
    pose proof (join_shape_length matcher first tail
                  (first_metric_ids matcher first tags)) as Hlen.
    split.
    + rewrite Hlen, Nat.mul_comm. apply Nat.Div0.mod_mul.
    + apply join_columns_divisible; [discriminate|exact Hlen].
  - intros st l Hrun.
    destruct (extract_ids_outcome matcher first tail tags) as [Hok|[Hbad|Hbad]];
      cbn zeta in *; rewrite Hrun in *; try discriminate.
    injection Hok as -> ->. split; [reflexivity|]. split; [reflexivity|].
    rewrite join_shape_length, Nat.mul_comm. apply Nat.Div0.mod_mul.
  - intros Htail Hbad. destruct tail as [|m rest]; [congruence|].
    pose proof (extract_ids_out_of_range matcher first m rest tags Hbad) as Hnot.
    destruct (extract_ids_outcome matcher first (m :: rest) tags)
      as [Hok|[Hpanic|Hundef]]; cbn zeta in *.
    + exfalso. exact (Hnot _ _ Hok).
    + left. exact Hpanic.
    + right. exact Hundef.
  - intros ms l Hrem. unfold join_columns.
    destruct (length l mod length ms =? 0)%nat eqn:Hz; [|reflexivity].
    apply Nat.eqb_eq in Hz. contradiction.
  - intros p. apply parse_join_query_no_remainder_panic.
Qed.
End JoinFacts.

Lemma join_ids_divisible_witness :
  extract_ids {| metric_ := ["cpu"; "mem"]%string; tags_ := [] |} catalogue
  = Ok (AKU_SUCCESS, [1; 2; 3; 0]%Z) /\
  join_columns ["cpu"; "mem"]%string [1; 2; 3]%Z
  = Panic "Invalid `where` statement processing results".
Proof.
  pose proof (join_ids_divisible (penv := sample_env) catalogue "cpu" ["mem"%string] [])
    as [Htotal [_ [_ [Hguard _]]]].
  split.
  - destruct Htotal as [l [Hrun [Hshape _]]].
    + intros id Hid. vm_compute in Hid.
      destruct Hid as [<- | [<- | []]]; split;
        [discriminate|vm_compute; lia|discriminate|vm_compute; lia].
    + rewrite Hrun, Hshape. vm_compute. reflexivity.
  - apply Hguard. vm_compute. discriminate.
Defined.

(** A matched series whose catalogue name is shorter than the first metric:
    the resolver reads a reversed pointer range and does not return. *)
Lemma extract_ids_short_name :
  first_metric_ids short_name_catalogue "cpu" [] = [1%Z] /\
  id2str short_name_catalogue 1 = "x"%string /\
  extract_ids {| metric_ := ["cpu"; "mem"]%string; tags_ := [] |}
    short_name_catalogue
  = Undefined "std::string from a reversed pointer range".
Proof. repeat split. Qed.

(** ** The where-clause resolver: repeated tags *)

Lemma tags_count_insert k name values tags :
  tags_count k (tags_insert name values tags)
  = String.eqb name k || tags_count k tags.
Proof.
  unfold tags_count.
  induction tags as [|[k0 v0] rest IH]; cbn [tags_insert existsb fst].
  - reflexivity.
  - destruct (String.ltb name k0); [reflexivity|].
    destruct (String.eqb name k0) eqn:Heq; cbn [existsb fst].
    + apply String.eqb_eq in Heq. subst k0.
      destruct (String.eqb name k); reflexivity.
    + rewrite IH. destruct (String.eqb k0 k), (String.eqb name k); reflexivity.
Qed.

Lemma add_tags_duplicate name values r :
  tags_count name (tags_ r) = true -> add_tags name values r = (AKU_EBAD_ARG, r).
Proof.
  intros Hdup. unfold add_tags. rewrite Hdup. destruct (metric_ r); reflexivity.
Qed.

Lemma add_tag_duplicate name value r :
  tags_count name (tags_ r) = true -> add_tag name value r = (AKU_EBAD_ARG, r).
Proof.
  intros Hdup. unfold add_tag. rewrite Hdup. destruct (metric_ r); reflexivity.
Qed.

Section WhereFacts.
Context {M : Type} {mops : SeriesMatcherOps M}.

Lemma where_step_duplicate tag v r :
  tags_count tag (tags_ r) = true -> where_step tag v r = r.
Proof.
  intros Hdup. unfold where_step.
  destruct (negb (pt_empty v));
    [rewrite add_tags_duplicate|rewrite add_tag_duplicate]; auto.
Qed.

Lemma where_step_fresh tag v r k :
  metric_ r <> [] -> tags_count tag (tags_ r) = false ->
  tags_count k (tags_ (where_step tag v r))
  = String.eqb tag k || tags_count k (tags_ r).
Proof.
  intros Hm Hfresh. unfold where_step, add_tags, add_tag. rewrite Hfresh.
  destruct (metric_ r); [congruence|].
  destruct (negb (pt_empty v)); cbn [snd tags_]; apply tags_count_insert.
Qed.

Lemma where_step_metric tag v r : metric_ (where_step tag v r) = metric_ r.
Proof.
  unfold where_step.
  destruct (negb (pt_empty v)); [apply add_tags_metric|apply add_tag_metric].
Qed.

Lemma where_loop_first_occurrences items : forall seen r,
  metric_ r <> [] ->
  (forall k, str_mem k seen = tags_count k (tags_ r)) ->
  where_loop items r = where_loop (first_occurrences seen items) r.
Proof.
  induction items as [|[tag v] rest IH]; intros seen r Hm Hseen;
    cbn [where_loop first_occurrences]; [reflexivity|].
  fold (where_step tag v r).
  destruct (str_mem tag seen) eqn:Hin.
  - rewrite where_step_duplicate by (rewrite <- Hseen; exact Hin).
    apply IH; assumption.
  - cbn [where_loop]. fold (where_step tag v r).
    apply IH.
    + rewrite where_step_metric. exact Hm.
    + intros k. rewrite where_step_fresh by (try rewrite <- Hseen; assumption).
      unfold str_mem. cbn [existsb]. fold (str_mem k seen). rewrite Hseen.
      rewrite (String.eqb_sym k tag). reflexivity.
Qed.

Lemma find_child_dedup_where cs :
  find_child "where" (dedup_where_children cs)
  = option_map (fun w => PTree (pt_data w) (first_occurrences [] (pt_children w)))
      (find_child "where" cs).
Proof.
  induction cs as [|[k c] rest IH]; cbn [dedup_where_children find_child option_map];
    [reflexivity|].
  destruct (String.eqb k "where") eqn:Hk; cbn [find_child]; rewrite Hk;
    [reflexivity|exact IH].
Qed.

(** C10.  [parse_where_clause] never looks at what [add_tag] and
    [add_tags] return.  Both answer [AKU_EBAD_ARG] and leave the retriever
    as it was when the tag is already present, so a where clause that
    repeats a tag key resolves exactly as the clause without the repeated
    occurrences does, and whenever the resolver returns, its status is
    [AKU_SUCCESS]. *)
Theorem parse_where_clause_ignores_repeated_tags
    (p : ptree) (metrics : list string) (matcher : M) :
  parse_where_clause p metrics matcher
  = parse_where_clause (dedup_where p) metrics matcher /\
  (forall st l, metrics <> [] ->
                parse_where_clause p metrics matcher = Ok (st, l) ->
                st = AKU_SUCCESS) /\
  (forall name values value r,
      tags_count name (tags_ r) = true ->
      add_tags name values r = (AKU_EBAD_ARG, r) /\
      add_tag name value r = (AKU_EBAD_ARG, r)).
Proof.
  split; [|split].
  - unfold parse_where_clause, get_child_optional, dedup_where.
    cbn [pt_children]. rewrite find_child_dedup_where.
    destruct (find_child "where" (pt_children p)) as [w|]; cbn [option_map];
      [|reflexivity].
    destruct metrics as [|first tail]; [reflexivity|].
    cbn [pt_children]. f_equal.
    apply where_loop_first_occurrences; [discriminate|reflexivity].
  - intros st l Hm. destruct metrics as [|first tail]; [congruence|].
    unfold parse_where_clause.
    destruct (get_child_optional "where" p) as [w|].
    + set (r := where_loop _ _).
      assert (metric_ r = first :: tail) as Hr by (unfold r; apply where_loop_metric).
      destruct r as [ms tags]. cbn in Hr. subst ms.
      destruct (extract_ids_outcome matcher first tail tags) as [-> | [-> | ->]];
        cbn zeta; congruence.
    + destruct (extract_ids_outcome matcher first tail []) as [-> | [-> | ->]];
        cbn zeta; congruence.
  - intros name values value r Hdup.
    split; [apply add_tags_duplicate|apply add_tag_duplicate]; exact Hdup.
Qed.
End WhereFacts.

Lemma parse_where_clause_ignores_repeated_tags_witness :
  where_loop
    [("host", leaf "a"); ("host", leaf "b")]%string
    {| metric_ := ["cpu"%string]; tags_ := [] |}
  = {| metric_ := ["cpu"%string]; tags_ := [("host", ["a"])]%string |} /\
  parse_where_clause where_with_duplicate ["cpu"%string] catalogue
  = parse_where_clause (dedup_where where_with_duplicate) ["cpu"%string] catalogue /\
  (exists st l,
      parse_where_clause where_with_duplicate ["cpu"%string] catalogue = Ok (st, l) /\
      st = AKU_SUCCESS) /\
  add_tags "host" ["b"%string]
    {| metric_ := ["cpu"%string]; tags_ := [("host", ["a"])]%string |}
  = (AKU_EBAD_ARG, {| metric_ := ["cpu"%string]; tags_ := [("host", ["a"])]%string |}).
Proof.
  split; [reflexivity|]. split; [|split].
  - apply (parse_where_clause_ignores_repeated_tags
             where_with_duplicate ["cpu"%string] catalogue).
  - exists AKU_SUCCESS, [1; 2]%Z. split; [vm_compute; reflexivity|].
    destruct (parse_where_clause_ignores_repeated_tags
                where_with_duplicate ["cpu"%string] catalogue) as [_ [Hst _]].
    apply (Hst AKU_SUCCESS [1; 2]%Z); [discriminate|vm_compute; reflexivity].
  - destruct (parse_where_clause_ignores_repeated_tags
                where_with_duplicate ["cpu"%string] catalogue) as [_ [_ Hdup]].
    apply (Hdup "host"%string ["b"%string] "b"%string). reflexivity.
Defined.

(** ** std::stable_sort with the (timestamp, paramid) predicate *)

Lemma sample_lt_spec x y :
  sample_lt x y = true <->
  (timestamp x < timestamp y \/ (timestamp x = timestamp y /\ paramid x < paramid y))%Z.
Proof.
  unfold sample_lt.
  rewrite orb_true_iff, andb_true_iff, !Z.ltb_lt, Z.eqb_eq. reflexivity.
Qed.

Lemma sample_lt_false_le x y : sample_lt y x = false -> sample_le x y.
Proof.
  intros Hlt. unfold sample_le.
  destruct (Z.lt_trichotomy (timestamp x) (timestamp y)) as [Ht|[Ht|Ht]];
    [left; exact Ht| |].
  - right. split; [exact Ht|].
    destruct (Z.le_gt_cases (paramid x) (paramid y)) as [Hp|Hp]; [exact Hp|].
    assert (sample_lt y x = true) as Habs by (apply sample_lt_spec; right; lia).
    congruence.
  - assert (sample_lt y x = true) as Habs by (apply sample_lt_spec; left; lia).
    congruence.
Qed.

Lemma sample_lt_true_le x y : sample_lt x y = true -> sample_le x y.
Proof. rewrite sample_lt_spec. unfold sample_le. lia. Qed.

Lemma sample_le_trans x y z : sample_le x y -> sample_le y z -> sample_le x z.
Proof. unfold sample_le. lia. Qed.

Lemma insert_sorted_perm x l : Permutation (x :: l) (insert_sorted x l).
Proof.
  induction l as [|y rest IH]; cbn [insert_sorted]; [reflexivity|].
  destruct (sample_lt y x); [|reflexivity].
  rewrite perm_swap. apply perm_skip, IH.
Qed.

Lemma stable_sort_perm l : Permutation l (stable_sort l).
Proof.
  induction l as [|x rest IH]; cbn [stable_sort]; [reflexivity|].
  rewrite <- insert_sorted_perm. apply perm_skip, IH.
Qed.

Lemma insert_sorted_strongly x l :
  StronglySorted sample_le l -> StronglySorted sample_le (insert_sorted x l).
Proof.
  induction l as [|y rest IH]; intros Hs; cbn [insert_sorted].
  - constructor; constructor.
  - apply StronglySorted_inv in Hs as [Hrest Hall].
    destruct (sample_lt y x) eqn:Hyx.
    + constructor; [apply IH, Hrest|].
      rewrite <- insert_sorted_perm. constructor; [|exact Hall].
      apply sample_lt_true_le, Hyx.
    + apply sample_lt_false_le in Hyx.
      constructor; [constructor; assumption|].
      constructor; [exact Hyx|].
      eapply Forall_impl; [exact Hall|].
      intros z Hz. eapply sample_le_trans; eassumption.
Qed.

Lemma stable_sort_sorted l : StronglySorted sample_le (stable_sort l).
Proof.
  induction l as [|x rest IH]; cbn [stable_sort]; [constructor|].
  apply insert_sorted_strongly, IH.
Qed.

Lemma stable_sort_length l : length (stable_sort l) = length l.
Proof. symmetry. apply Permutation_length, stable_sort_perm. Qed.

Lemma stable_sort_In l s : In s (stable_sort l) <-> In s l.
Proof.
  split; apply Permutation_in; [symmetry|]; apply stable_sort_perm.
Qed.

(** Stability: samples with one key leave the sort in the order they
    entered it. *)
Lemma insert_sorted_same_key k x l :
  StronglySorted sample_le l ->
  List.filter (same_key k) (insert_sorted x l)
  = List.filter (same_key k) (x :: l).
Proof.
  induction l as [|y rest IH]; intros Hs; [reflexivity|].
  cbn [insert_sorted]. destruct (sample_lt y x) eqn:Hyx; [|reflexivity].
  apply StronglySorted_inv in Hs as [Hrest Hall].
  cbn [List.filter]. rewrite (IH Hrest). cbn [List.filter].
  destruct (same_key k y) eqn:Hky, (same_key k x) eqn:Hkx; try reflexivity.
  exfalso. unfold same_key in Hky, Hkx.
  apply andb_true_iff in Hky as [Ht1 Hp1]. apply andb_true_iff in Hkx as [Ht2 Hp2].
  apply Z.eqb_eq in Ht1, Hp1, Ht2, Hp2.
  apply sample_lt_spec in Hyx. lia.
Qed.

Lemma stable_sort_stable k l :
  List.filter (same_key k) (stable_sort l) = List.filter (same_key k) l.
Proof.
  induction l as [|x rest IH]; [reflexivity|]. cbn [stable_sort].
  rewrite insert_sorted_same_key by apply stable_sort_sorted.
  cbn [List.filter]. rewrite IH. reflexivity.
Qed.

(** ** Cursors *)

Lemma cursor_after_nil c : cursor_after [] c = c.
Proof. destruct c. unfold cursor_after. cbn. rewrite app_nil_r. reflexivity. Qed.

Lemma cursor_after_app l1 l2 c :
  cursor_after l2 (cursor_after l1 c) = cursor_after (l1 ++ l2) c.
Proof. unfold cursor_after. cbn. rewrite app_assoc. reflexivity. Qed.

Lemma put_all_accepting l : forall c,
  accepting c -> put_all l c = (true, cursor_after l c).
Proof.
  induction l as [|s rest IH]; intros c Hacc; cbn [put_all].
  - rewrite cursor_after_nil. reflexivity.
  - cbn [put Cursor_node]. unfold cursor_put. rewrite Hacc.
    fold (cursor_after [s] c). rewrite IH by exact Hacc.
    rewrite cursor_after_app. reflexivity.
Qed.

(** ** RandomSamplingNode *)

Lemma In_list_insert {A : Type} (l : list A) : forall (i : nat) (x y : A),
  In y (<[i:=x]> l) -> y = x \/ In y l.
Proof.
  induction l as [|a rest IH]; intros i x y Hin; [destruct i; contradiction|].
  destruct i as [|i]; cbn in Hin.
  - destruct Hin as [<- | Hin]; [left; reflexivity|right; right; exact Hin].
  - destruct Hin as [<- | Hin]; [right; left; reflexivity|].
    destruct (IH i x y Hin) as [-> | Hy]; [left; reflexivity|right; right; exact Hy].
Qed.

Lemma wrap32_index r n :
  (0 < n < U32_MOD)%Z -> wrap32 (wrap32 r mod n) = (wrap32 r mod n)%Z /\
  (0 <= wrap32 r mod n < n)%Z.
Proof.
  intros Hn. pose proof (Z.mod_pos_bound (wrap32 r) n ltac:(lia)) as Hb.
  split; [|exact Hb]. unfold wrap32 at 1. apply Z.mod_small. lia.
Qed.

Section SamplingFacts.
Context {G S : Type} {rand : Rand G} {nops : NodeOps S}.

(** With the buffer full, the slot index is the drawn value reduced modulo
    the buffer size, and the slot is always replaced. *)
Lemma rs_put_full_replaces (sample : aku_Sample) (n : RandomSamplingNode G S) :
  is_empty_marker sample = false ->
  (0 < buffer_size_ n < U32_MOD)%Z ->
  Z.of_nat (length (samples_ n)) = buffer_size_ n ->
  rs_put sample n
  = Ok (true,
        {| buffer_size_ := buffer_size_ n;
           samples_ := <[Z.to_nat (wrap32 (fst (rand_next (random_ n)))
                                   mod buffer_size_ n) := sample]> (samples_ n);
           random_ := snd (rand_next (random_ n));
           next_ := next_ n |}).
Proof.
  intros Hdata Hcap Hfull. unfold rs_put. unfold is_empty_marker in Hdata.
  rewrite Hdata, Hfull, Z.ltb_irrefl.
  destruct (rand_next (random_ n)) as [r g']. cbn [fst snd].
  destruct (wrap32_index r (buffer_size_ n) Hcap) as [-> Hix].
  destruct (Z.eqb_spec (buffer_size_ n) 0) as [Hz|_]; [lia|].
  destruct (Z.ltb_spec (wrap32 r mod buffer_size_ n) (buffer_size_ n)); [|lia].
  reflexivity.
Qed.

Lemma rs_put_data (sample : aku_Sample) (n : RandomSamplingNode G S) :
  is_empty_marker sample = false ->
  (0 < buffer_size_ n < U32_MOD)%Z ->
  (Z.of_nat (length (samples_ n)) <= buffer_size_ n)%Z ->
  exists n',
    rs_put sample n = Ok (true, n') /\
    buffer_size_ n' = buffer_size_ n /\ next_ n' = next_ n /\
    Z.of_nat (length (samples_ n'))
    = Z.min (Z.of_nat (length (samples_ n)) + 1) (buffer_size_ n) /\
    (forall x, In x (samples_ n') -> x = sample \/ In x (samples_ n)).
Proof.
  intros Hdata Hcap Hlen.
  destruct (Z.ltb_spec (Z.of_nat (length (samples_ n))) (buffer_size_ n)) as [Hlt|Hge].
  - eexists. split.
    + unfold rs_put. unfold is_empty_marker in Hdata. rewrite Hdata.
      apply Z.ltb_lt in Hlt. rewrite Hlt. reflexivity.
    + cbn [buffer_size_ next_ samples_]. repeat split.
      * rewrite length_app. cbn [length]. lia.
      * intros x Hx. apply in_app_or in Hx as [Hx|[<-|[]]]; auto.
  - assert (Z.of_nat (length (samples_ n)) = buffer_size_ n) as Hfull by lia.
    eexists. split; [apply rs_put_full_replaces; assumption|].
    cbn [buffer_size_ next_ samples_]. repeat split.
    + rewrite length_insert. lia.
    + intros x Hx. apply In_list_insert in Hx. exact Hx.
Qed.

(** A run of data samples into a node never stops and leaves the next node
    untouched; the buffer fills up to the capacity with samples of the run. *)
Lemma rs_run_data (l : list aku_Sample) : forall (n : RandomSamplingNode G S),
  (forall s, In s l -> is_empty_marker s = false) ->
  (0 < buffer_size_ n < U32_MOD)%Z ->
  (Z.of_nat (length (samples_ n)) <= buffer_size_ n)%Z ->
  exists n',
    rs_run l n = Ok (true, n') /\
    buffer_size_ n' = buffer_size_ n /\ next_ n' = next_ n /\
    Z.of_nat (length (samples_ n'))
    = Z.min (Z.of_nat (length (samples_ n) + length l)) (buffer_size_ n) /\
    (forall x, In x (samples_ n') -> In x l \/ In x (samples_ n)).
Proof.
  induction l as [|s rest IH]; intros n Hdata Hcap Hlen.
  - exists n. cbn [rs_run length]. repeat split; auto. lia.
  - destruct (rs_put_data s n) as [n1 [Hput [Hsize [Hnext [Hlen1 Hmem1]]]]];
      [apply Hdata; left; reflexivity|assumption..|].
    destruct (IH n1) as [n2 [Hrun [Hsize2 [Hnext2 [Hlen2 Hmem2]]]]].
    { intros x Hx. apply Hdata. right. exact Hx. }
    { rewrite Hsize. exact Hcap. }
    { rewrite Hsize. lia. }
    exists n2. cbn [rs_run]. rewrite Hput. cbn. rewrite Hrun.
    repeat split; try congruence.
    + rewrite Hlen2, Hsize. cbn [length]. lia.
    + intros x Hx. apply Hmem2 in Hx as [Hx|Hx]; [left; right; exact Hx|].
      apply Hmem1 in Hx as [-> | Hx]; [left; left; reflexivity|right; exact Hx].
Qed.

Lemma rs_flush_outcome (n : RandomSamplingNode G S) :
  rs_flush n
  = (fst (put_all (stable_sort (samples_ n)) (next_ n)),
     {| buffer_size_ := buffer_size_ n;
        samples_ := if fst (put_all (stable_sort (samples_ n)) (next_ n))
                    then [] else stable_sort (samples_ n);
        random_ := random_ n;
        next_ := snd (put_all (stable_sort (samples_ n)) (next_ n)) |}).
Proof.
  unfold rs_flush. destruct (put_all _ _) as [[|] next']; reflexivity.
Qed.
End SamplingFacts.

Lemma put_all_all_accepted (l : list aku_Sample) : forall (c : Cursor),
  (forall pre s post, l = pre ++ s :: post ->
                      accept c (offered c ++ pre) s = true) ->
  put_all l c = (true, cursor_after l c).
Proof.
  induction l as [|x rest IH]; intros c Hacc; cbn [put_all].
  - rewrite cursor_after_nil. reflexivity.
  - cbn [put Cursor_node]. unfold cursor_put.
    pose proof (Hacc [] x rest eq_refl) as Hx. rewrite app_nil_r in Hx.
    rewrite Hx. fold (cursor_after [x] c). rewrite IH.
    + rewrite cursor_after_app. reflexivity.
    + intros pre s post ->. cbn [cursor_after accept offered].
      rewrite <- app_assoc. apply (Hacc (x :: pre) s post). reflexivity.
Qed.

Lemma put_all_first_refusal (pre : list aku_Sample) (s : aku_Sample)
    (post : list aku_Sample) : forall (c : Cursor),
  (forall p1 x p2, pre = p1 ++ x :: p2 -> accept c (offered c ++ p1) x = true) ->
  accept c (offered c ++ pre) s = false ->
  put_all (pre ++ s :: post) c = (false, cursor_after (pre ++ [s]) c).
Proof.
  induction pre as [|y pre IH]; intros c Hpre Hs; cbn [app put_all].
  - cbn [put Cursor_node]. unfold cursor_put.
    rewrite app_nil_r in Hs. rewrite Hs. reflexivity.
  - cbn [put Cursor_node]. unfold cursor_put.
    pose proof (Hpre [] y pre eq_refl) as Hy. rewrite app_nil_r in Hy.
    rewrite Hy. fold (cursor_after [y] c). rewrite IH.
    + rewrite cursor_after_app. reflexivity.
    + intros p1 x p2 ->. cbn [cursor_after accept offered].
      rewrite <- app_assoc. apply (Hpre (y :: p1) x p2). reflexivity.
    + cbn [cursor_after accept offered]. rewrite <- app_assoc. exact Hs.
Qed.

Section SamplingOverCursor.
Context {G : Type} {rand : Rand G}.

Lemma rs_flush_accepting (n : RandomSamplingNode G Cursor) :
  accepting (next_ n) ->
  rs_flush n
  = (true, {| buffer_size_ := buffer_size_ n; samples_ := [];
              random_ := random_ n;
              next_ := cursor_after (stable_sort (samples_ n)) (next_ n) |}).
Proof.
  intros Hacc. rewrite rs_flush_outcome, put_all_accepting by exact Hacc.
  reflexivity.
Qed.

(** C8, as the code has it.  A flush offers the buffered samples to the next
    node in ascending (timestamp, paramid) order, samples of one key in
    arrival order.  When the next node takes every sample it is offered, the
    buffer is cleared and the flush answers [true]; when [s] is the first
    sample it refuses, the flush stops there: it answers [false], keeps the
    sorted buffer, and the next node has been offered the samples up to and
    including [s] and none of those after it.  An EMPTY marker at [put] runs
    this flush and nothing else; [complete] runs it and then completes the
    next node.  With a capacity C > 0, at least C data samples since the last
    flush and a next node that takes everything, the flush set off by an
    EMPTY marker, and the one set off by [complete], emit exactly C samples,
    sorted, each taken from the input. *)
Theorem rs_flush_sorted_drain (n : RandomSamplingNode G Cursor)
    (xs : list aku_Sample) (marker : aku_Sample) :
  (StronglySorted sample_le (stable_sort (samples_ n)) /\
   Permutation (samples_ n) (stable_sort (samples_ n)) /\
   forall k, List.filter (same_key k) (stable_sort (samples_ n))
             = List.filter (same_key k) (samples_ n)) /\
  (accepting (next_ n) ->
   rs_flush n
   = (true, {| buffer_size_ := buffer_size_ n; samples_ := [];
               random_ := random_ n;
               next_ := cursor_after (stable_sort (samples_ n)) (next_ n) |})) /\
  (fst (rs_flush n) = false ->
   samples_ (snd (rs_flush n)) = stable_sort (samples_ n)) /\
  ((forall pre s post,
       stable_sort (samples_ n) = pre ++ s :: post ->
       accept (next_ n) (offered (next_ n) ++ pre) s = true) ->
   rs_flush n
   = (true, {| buffer_size_ := buffer_size_ n; samples_ := [];
               random_ := random_ n;
               next_ := cursor_after (stable_sort (samples_ n)) (next_ n) |})) /\
  (forall pre s post,
      stable_sort (samples_ n) = pre ++ s :: post ->
      (forall p1 x p2, pre = p1 ++ x :: p2 ->
                       accept (next_ n) (offered (next_ n) ++ p1) x = true) ->
      accept (next_ n) (offered (next_ n) ++ pre) s = false ->
      rs_flush n
      = (false, {| buffer_size_ := buffer_size_ n;
                   samples_ := stable_sort (samples_ n);
                   random_ := random_ n;
                   next_ := cursor_after (pre ++ [s]) (next_ n) |})) /\
  ((is_empty_marker marker = true -> rs_put marker n = Ok (rs_flush n)) /\
   rs_complete n
   = {| buffer_size_ := buffer_size_ n;
        samples_ := samples_ (snd (rs_flush n));
        random_ := random_ n;
        next_ := cursor_complete (next_ (snd (rs_flush n))) |}) /\
  (accepting (next_ n) ->
   samples_ n = [] ->
   (0 < buffer_size_ n < U32_MOD)%Z ->
   (forall s, In s xs -> is_empty_marker s = false) ->
   (buffer_size_ n <= Z.of_nat (length xs))%Z ->
   is_empty_marker marker = true ->
   exists out n1,
     rs_run xs n = Ok (true, n1) /\
     rs_put marker n1
     = Ok (true, {| buffer_size_ := buffer_size_ n; samples_ := [];
                    random_ := random_ n1;
                    next_ := cursor_after out (next_ n) |}) /\
     rs_complete n1
     = {| buffer_size_ := buffer_size_ n; samples_ := [];
          random_ := random_ n1;
          next_ := cursor_complete (cursor_after out (next_ n)) |} /\
     Z.of_nat (length out) = buffer_size_ n /\
     StronglySorted sample_le out /\
     (forall s, In s out -> In s xs)).
Proof.
  split.
  { split; [apply stable_sort_sorted|].
    split; [apply stable_sort_perm|]. intros k. apply stable_sort_stable. }
  split; [apply rs_flush_accepting|].
  split.
  { rewrite rs_flush_outcome. cbn [fst snd samples_]. intros ->. reflexivity. }
  split.
  { intros Hall. rewrite rs_flush_outcome, put_all_all_accepted by exact Hall.
    reflexivity. }
  split.
  { intros pre s post Hsorted Hpre Hs.
    rewrite rs_flush_outcome, Hsorted, put_all_first_refusal by assumption.
    reflexivity. }
  split.
  { split.
    - intros Hmarker. unfold rs_put. unfold is_empty_marker in Hmarker.
      rewrite Hmarker. reflexivity.
    - unfold rs_complete. rewrite rs_flush_outcome. reflexivity. }
  - intros Hacc Hempty Hcap Hdata Hlen Hmarker.
    destruct (rs_run_data xs n Hdata Hcap) as [n1 [Hrun [Hsize [Hnext [Hlen1 Hmem]]]]];
      [rewrite Hempty; cbn; lia|].
    exists (stable_sort (samples_ n1)), n1.
    assert (rs_flush n1
            = (true, {| buffer_size_ := buffer_size_ n; samples_ := [];
                        random_ := random_ n1;
                        next_ := cursor_after (stable_sort (samples_ n1)) (next_ n) |}))
      as Hflush.
    { rewrite rs_flush_accepting by (rewrite Hnext; exact Hacc).
      rewrite Hsize, Hnext. reflexivity. }
    split; [exact Hrun|]. split; [|split; [|split; [|split]]].
    + unfold rs_put. unfold is_empty_marker in Hmarker. rewrite Hmarker, Hflush.
      reflexivity.
    + unfold rs_complete. rewrite Hflush. reflexivity.
    + rewrite stable_sort_length, Hlen1, Hempty. cbn [length]. lia.
    + apply stable_sort_sorted.
    + intros s Hs. apply (proj1 (stable_sort_In _ _)) in Hs.
      apply Hmem in Hs as [Hs|Hs]; [exact Hs|].
      rewrite Hempty in Hs. contradiction.
Qed.
End SamplingOverCursor.

Lemma rs_flush_sorted_drain_witness :
  rs_flush refused_node
  = (false, {| buffer_size_ := 2;
               samples_ := [value_sample 1 1; value_sample 2 1];
               random_ := [];
               next_ := cursor_after [value_sample 1 1] (new_cursor accept_none) |}) /\
  exists out n1,
    rs_run [sample_d; sample_c; sample_b; sample_a]
      (RandomSamplingNode_new 3 [5; 7]%Z (new_cursor accept_all)) = Ok (true, n1) /\
    rs_put (with_timestamp 10 EMPTY_SAMPLE) n1
    = Ok (true, {| buffer_size_ := 3; samples_ := []; random_ := random_ n1;
                   next_ := cursor_after out (new_cursor accept_all) |}) /\
    Z.of_nat (length out) = 3%Z /\
    StronglySorted sample_le out /\
    (forall s, In s out -> In s [sample_d; sample_c; sample_b; sample_a]).
Proof.
  split.
  { pose proof (rs_flush_sorted_drain refused_node [] sample_a)
      as [_ [_ [_ [_ [Hrefused _]]]]].
    apply (Hrefused [] (value_sample 1 1) [value_sample 2 1]).
    - reflexivity.
    - intros p1 x p2 Habs. destruct p1; discriminate.
    - reflexivity. }
  destruct (rs_flush_sorted_drain
              (RandomSamplingNode_new 3 [5; 7]%Z (new_cursor accept_all))
              [sample_d; sample_c; sample_b; sample_a]
              (with_timestamp 10 EMPTY_SAMPLE))
    as [_ [_ [_ [_ [_ [_ Hrun]]]]]].
  destruct Hrun as [out [n1 [Hrun [Hput [_ [Hlen [Hsorted Hmem]]]]]]].
  - intros h s. reflexivity.
  - reflexivity.
  - cbn. unfold U32_MOD. lia.
  - intros s Hs. cbn in Hs.
    destruct Hs as [<- | [<- | [<- | [<- | []]]]]; reflexivity.
  - cbn. lia.
  - reflexivity.
  - exists out, n1. repeat split; assumption.
Defined.

(** C8, as the specification words it, does not hold: a flush into a node that refuses the
    first sample neither drains the buffer nor clears it. *)
Lemma rs_flush_refused_keeps_buffer :
  ~ (samples_ (snd (rs_flush refused_node)) = [] /\
     offered (next_ (snd (rs_flush refused_node)))
     = stable_sort (samples_ refused_node)).
Proof. intros [Hclear _]. vm_compute in Hclear. discriminate. Qed.

(** With capacity 0 the first data sample takes a remainder by the (zero)
    buffer size. *)
Lemma rs_put_zero_capacity :
  rs_put sample_a (RandomSamplingNode_new 0 [5]%Z (new_cursor accept_all))
  = Undefined "remainder by zero".
Proof. reflexivity. Qed.

(** C3.  Capacity 2, samples a, b, c, d, drawn values 0 (for c) and 2 (for
    d).  When d arrives three samples have been seen, so Algorithm R reduces
    the drawn 2 modulo 3, finds index 2 outside the buffer and discards d.
    The node reduces modulo the buffer size instead, 2 mod 2 = 0, and
    replaces slot 0 with d. *)
Theorem rs_put_reduces_modulo_buffer_size :
  rs_run [sample_a; sample_b; sample_c]
    (RandomSamplingNode_new 2 [0; 2]%Z (new_cursor accept_all))
  = Ok (true, {| buffer_size_ := 2; samples_ := [sample_c; sample_b];
                 random_ := [2]%Z; next_ := new_cursor accept_all |}) /\
  rs_put sample_d
    {| buffer_size_ := 2; samples_ := [sample_c; sample_b];
       random_ := [2]%Z; next_ := new_cursor accept_all |}
  = Ok (true, {| buffer_size_ := 2; samples_ := [sample_d; sample_b];
                 random_ := []; next_ := new_cursor accept_all |}) /\
  algorithm_R_step 2 3 2 sample_d [sample_c; sample_b] = [sample_c; sample_b].
Proof. repeat split. Qed.

(** ** MetadataQueryProcessor *)

Lemma put_all_completed l : forall c : Cursor,
  completed (snd (put_all l c)) = completed c.
Proof.
  induction l as [|s rest IH]; intros c; cbn [put_all]; [reflexivity|].
  cbn [put Cursor_node]. unfold cursor_put.
  destruct (accept c (offered c) s); [|reflexivity].
  rewrite IH. reflexivity.
Qed.

Section MetadataFacts.
Context {senv : SampleEnv}.

Lemma metadata_start_loop_put_all {S : Type} {nops : NodeOps S} l : forall root : S,
  metadata_start_loop l root = put_all (map id_sample l) root.
Proof.
  induction l as [|id rest IH]; intros root; cbn [metadata_start_loop put_all map];
    [reflexivity|].
  destruct (put (id_sample id) root) as [[|] root']; cbn [negb]; [apply IH|reflexivity].
Qed.

(** C5, as the code has it.  [start] offers the root node one id-only sample
    (payload type [PARAMID_BIT]) per id of the filter, in the filter's order,
    and stops with [false] at the first sample the root refuses; it never
    calls [complete], which is left to [stop].  [put] answers [false] and
    changes nothing. *)
Theorem metadata_start_emits_ids (q : MetadataQueryProcessor Cursor)
    (sample : aku_Sample) :
  metadata_start q
  = (fst (put_all (map id_sample (filter_ids_ q)) (root_ q)),
     {| filter_ids_ := filter_ids_ q;
        root_ := snd (put_all (map id_sample (filter_ids_ q)) (root_ q)) |}) /\
  map paramid (map id_sample (filter_ids_ q)) = filter_ids_ q /\
  Forall (fun s => type (payload s) = PARAMID_BIT) (map id_sample (filter_ids_ q)) /\
  (accepting (root_ q) ->
   metadata_start q
   = (true, {| filter_ids_ := filter_ids_ q;
               root_ := cursor_after (map id_sample (filter_ids_ q)) (root_ q) |})) /\
  completed (root_ (snd (metadata_start q))) = completed (root_ q) /\
  completed (root_ (metadata_stop q)) = Datatypes.S (completed (root_ q)) /\
  metadata_put sample q = (false, q).
Proof.
  assert (metadata_start q
          = (fst (put_all (map id_sample (filter_ids_ q)) (root_ q)),
             {| filter_ids_ := filter_ids_ q;
                root_ := snd (put_all (map id_sample (filter_ids_ q)) (root_ q)) |}))
    as Hstart.
  { unfold metadata_start. rewrite metadata_start_loop_put_all.
    destruct (put_all _ _). reflexivity. }
  split; [exact Hstart|]. split; [|split; [|split; [|split; [|split]]]].
  - rewrite map_map. cbn [id_sample paramid]. apply map_id.
  - apply Forall_map. apply Forall_forall. intros id _. reflexivity.
  - intros Hacc. rewrite Hstart, put_all_accepting by exact Hacc. reflexivity.
  - rewrite Hstart. cbn [snd root_]. apply put_all_completed.
  - reflexivity.
  - reflexivity.
Qed.
End MetadataFacts.

Lemma metadata_start_emits_ids_witness :
  metadata_start (senv := sample_env_layout) metadata_query
  = (true, {| filter_ids_ := [1; 2]%Z;
              root_ := cursor_after
                         [id_sample (senv := sample_env_layout) 1;
                          id_sample (senv := sample_env_layout) 2]
                         (new_cursor accept_all) |}).
Proof.
  apply (metadata_start_emits_ids (senv := sample_env_layout)
           metadata_query sample_a).
  intros h s. reflexivity.
Defined.

(** C5, as the specification words it, does not hold: after [start] the root node has not
    been completed. *)
Lemma metadata_start_does_not_complete :
  ~ (completed (root_ (snd (metadata_start (senv := sample_env_layout) metadata_query)))
     = 1%nat).
Proof. vm_compute. discriminate. Qed.

(** ** Limiter and parse_processing_topology *)

Section LimiterFacts.
Context {S : Type} {nops : NodeOps S}.

Lemma accepts_from_put (x : aku_Sample) (next : S) :
  accepts_from next ->
  fst (put x next) = true /\ accepts_from (snd (put x next)).
Proof.
  intros Hacc.
  assert (fst (put x next) = true) as Hx.
  { specialize (Hacc [x]). cbn [put_all] in Hacc.
    destruct (put x next) as [[|] next']; [reflexivity|exact Hacc]. }
  split; [exact Hx|]. intros l. specialize (Hacc (x :: l)). cbn [put_all] in Hacc.
  destruct (put x next) as [ok next']. cbn [fst snd] in *. subst ok. exact Hacc.
Qed.

Lemma put_all_cons_accepted (x : aku_Sample) (l : list aku_Sample) (next : S) :
  accepts_from next ->
  put_all (x :: l) next = put_all l (snd (put x next)).
Proof.
  intros Hacc. cbn [put_all]. apply (accepts_from_put x) in Hacc as [Hx _].
  destruct (put x next) as [ok next']. cbn in *. subst ok. reflexivity.
Qed.

Lemma limiter_put_each (xs : list aku_Sample) : forall (l : Limiter S),
  accepts_from (lim_next_ l) ->
  (0 <= counter_ l)%Z -> (0 <= limit_ l)%Z -> (0 <= offset_ l)%Z ->
  fst (put_each xs l)
  = map (fun i => (counter_ l + Z.of_nat i <? offset_ l + limit_ l)%Z)
      (seq 0 (length xs)) /\
  lim_next_ (snd (put_each xs l))
  = snd (put_all (limiter_window (limit_ l) (offset_ l) (counter_ l) xs)
           (lim_next_ l)).
Proof.
  induction xs as [|x rest IH]; intros l Hacc Hc Hlim Hoff.
  - split; [reflexivity|]. unfold limiter_window.
    rewrite skipn_nil, firstn_nil. reflexivity.
  - cbn [put_each length seq map]. cbn [put Limiter_node]. unfold limiter_put.
    rewrite <- seq_shift, map_map.
    destruct (Z.ltb_spec (counter_ l) (offset_ l)) as [Hskip|Hpast].
    + (* still skipping *)
      match goal with |- context [put_each rest ?l1] =>
        destruct (IH l1 Hacc) as [Hans Hnext]; cbn [counter_ limit_ offset_]; try lia;
        destruct (put_each rest l1) as [oks l2] end.
      cbn [fst snd counter_ limit_ offset_ lim_next_] in *. split.
      * f_equal; [symmetry; apply Z.ltb_lt; lia|].
        rewrite Hans. apply map_ext. intros i. f_equal. lia.
      * rewrite Hnext. unfold limiter_window.
        replace (Z.to_nat (offset_ l - counter_ l))
          with (Datatypes.S (Z.to_nat (offset_ l - (counter_ l + 1)))) by lia.
        cbn [skipn]. rewrite !Z.max_r by lia. reflexivity.
    + destruct (Z.ltb_spec (counter_ l - offset_ l) (limit_ l)) as [Hin|Hout].
      * (* inside the window *)
        destruct (accepts_from_put x _ Hacc) as [Hok Hacc'].
        destruct (put x (lim_next_ l)) as [ok next'] eqn:Hput.
        cbn [fst snd] in Hok, Hacc'. subst ok.
        match goal with |- context [put_each rest ?l1] =>
          destruct (IH l1 Hacc') as [Hans Hnext]; cbn [counter_ limit_ offset_]; try lia;
          destruct (put_each rest l1) as [oks l2] end.
        cbn [fst snd counter_ limit_ offset_ lim_next_] in *. split.
        -- f_equal; [symmetry; apply Z.ltb_lt; lia|].
           rewrite Hans. apply map_ext. intros i. f_equal. lia.
        -- rewrite Hnext. unfold limiter_window.
           replace (Z.to_nat (offset_ l - counter_ l)) with O by lia.
           replace (Z.to_nat (offset_ l - (counter_ l + 1))) with O by lia.
           cbn [skipn]. rewrite !Z.max_l by lia.
           replace (Z.to_nat (offset_ l + limit_ l - counter_ l))
             with (Datatypes.S (Z.to_nat (offset_ l + limit_ l - (counter_ l + 1))))
             by lia.
           cbn [firstn]. rewrite put_all_cons_accepted by exact Hacc.
           rewrite Hput. reflexivity.
      * (* past the window: the counter stays *)
        destruct (IH l Hacc Hc Hlim Hoff) as [Hans Hnext].
        destruct (put_each rest l) as [oks l2].
        cbn [fst snd] in *. split.
        -- f_equal; [symmetry; apply Z.ltb_ge; lia|].
           rewrite Hans. apply map_ext. intros i.
           transitivity false; [|symmetry]; apply Z.ltb_ge; lia.
        -- rewrite Hnext. unfold limiter_window.
           replace (Z.to_nat (offset_ l + limit_ l - Z.max (counter_ l) (offset_ l)))
             with O by lia.
           reflexivity.
Qed.
End LimiterFacts.

Section TopologyFacts.
Context {penv : ParserEnv}.

Lemma parse_processing_topology_of_pair (p : ptree) (lo : Z * Z) :
  parse_limit_offset p = Ok lo ->
  parse_processing_topology p
  = Ok (AKU_SUCCESS,
        if (fst lo =? 0)%Z && (snd lo =? 0)%Z then [Terminal]
        else [LimiterNode (fst lo) (snd lo); Terminal]).
Proof.
  intros Hlo. unfold parse_processing_topology. rewrite Hlo. cbn.
  destruct (fst lo =? 0)%Z, (snd lo =? 0)%Z; reflexivity.
Qed.

(** C2, as the code has it.  [parse_processing_topology] puts a Limiter in
    front of the terminal node exactly when the pair returned by
    [parse_limit_offset] is not (0, 0), and builds it from that pair; a
    document with neither key gets the terminal node alone, and a document
    with `limit: l` (l not 0) and no `offset` gets Limiter(l, 0).  A
    Limiter(limit, offset) in front of a node that takes everything skips the
    first [offset] samples, forwards the next [limit] ones and answers
    [false] from then on; with limit 2 and offset 1 over four samples it
    forwards the second and the third, and the fourth [put] answers
    [false]. *)
Theorem limiter_topology {S : Type} {nops : NodeOps S}
    (p : ptree) (limit offset : Z) (next : S)
    (xs : list aku_Sample) (s1 s2 s3 s4 : aku_Sample) :
  (forall lo, parse_limit_offset p = Ok lo ->
     parse_processing_topology p
     = Ok (AKU_SUCCESS,
           if (fst lo =? 0)%Z && (snd lo =? 0)%Z then [Terminal]
           else [LimiterNode (fst lo) (snd lo); Terminal])) /\
  (get_child_optional "limit" p = None ->
   get_child_optional "offset" p = None ->
   parse_processing_topology p = Ok (AKU_SUCCESS, [Terminal])) /\
  (forall node l,
     get_child_optional "limit" p = Some node ->
     get_value_u64 (pt_data node) = Some l -> l <> 0%Z ->
     get_child_optional "offset" p = None ->
     parse_processing_topology p = Ok (AKU_SUCCESS, [LimiterNode l 0; Terminal])) /\
  (accepts_from next -> (0 <= limit)%Z -> (0 <= offset)%Z ->
   fst (put_each xs (Limiter_new limit offset next))
   = map (fun i => (Z.of_nat i <? offset + limit)%Z) (seq 0 (length xs)) /\
   lim_next_ (snd (put_each xs (Limiter_new limit offset next)))
   = snd (put_all (firstn (Z.to_nat limit) (skipn (Z.to_nat offset) xs)) next)) /\
  (accepts_from next ->
   fst (put_each [s1; s2; s3; s4] (Limiter_new 2 1 next))
   = [true; true; true; false] /\
   lim_next_ (snd (put_each [s1; s2; s3; s4] (Limiter_new 2 1 next)))
   = snd (put_all [s2; s3] next)).
Proof.
  split; [intros lo; apply parse_processing_topology_of_pair|].
  split; [|split; [|split]].
  - intros Hl Ho. unfold parse_processing_topology, parse_limit_offset.
    rewrite Hl, Ho. reflexivity.
  - intros node l Hl Hv Hnz Ho. unfold parse_processing_topology, parse_limit_offset.
    rewrite Hl, Hv, Ho. cbn.
    destruct (Z.eqb_spec l 0); [contradiction|]. reflexivity.
  - intros Hacc Hlim Hoff.
    destruct (limiter_put_each xs (Limiter_new limit offset next) Hacc) as [Hans Hnext];
      cbn [Limiter_new counter_ limit_ offset_]; try lia.
    cbn [Limiter_new counter_ limit_ offset_ lim_next_] in *. split.
    + rewrite Hans. apply map_ext. intros i. reflexivity.
    + rewrite Hnext. unfold limiter_window.
      rewrite Z.max_r, Z.sub_0_r by lia. f_equal. f_equal. f_equal. lia.
  - intros Hacc.
    destruct (limiter_put_each [s1; s2; s3; s4] (Limiter_new 2 1 next) Hacc)
      as [Hans Hnext]; cbn [Limiter_new counter_ limit_ offset_]; try lia.
    split; [exact Hans|exact Hnext].
Qed.
End TopologyFacts.

Lemma terminal_accepts_from (t : TerminalNode) :
  accepting (cursor t) -> accepts_from t.
Proof.
  intros Hacc l. revert t Hacc.
  induction l as [|s rest IH]; intros t Hacc; cbn [put_all]; [reflexivity|].
  cbn [put TerminalNode_node]. unfold terminal_put.
  destruct (negb (PDataType_eqb (type (payload s)) MARGIN)).
  - unfold cursor_put. rewrite Hacc. apply IH. exact Hacc.
  - apply IH. exact Hacc.
Qed.

Lemma limiter_topology_witness :
  parse_processing_topology (penv := sample_env) empty_query
  = Ok (AKU_SUCCESS, [Terminal]) /\
  parse_processing_topology (penv := sample_env) limit_only_query
  = Ok (AKU_SUCCESS, [LimiterNode 2 0; Terminal]) /\
  fst (put_each [sample_a; sample_b; sample_c; sample_d]
         (Limiter_new 2 1 open_terminal))
  = [true; true; true; false] /\
  offered (cursor (lim_next_ (snd (put_each [sample_a; sample_b; sample_c; sample_d]
                                     (Limiter_new 2 1 open_terminal)))))
  = [sample_b; sample_c] /\
  fst (put_each [sample_a; sample_b; sample_c] (Limiter_new 1 0 open_terminal))
  = [true; false; false].
Proof.
  pose proof (limiter_topology (penv := sample_env) empty_query 2 1 open_terminal
                [sample_a; sample_b; sample_c; sample_d]
                sample_a sample_b sample_c sample_d) as [_ [Hnone [_ [_ Hfour]]]].
  pose proof (limiter_topology (penv := sample_env) limit_only_query 2 1 open_terminal
                [sample_a; sample_b; sample_c; sample_d]
                sample_a sample_b sample_c sample_d) as [_ [_ [Hlimit _]]].
  assert (accepts_from open_terminal) as Hacc
    by (apply terminal_accepts_from; intros h s; reflexivity).
  split; [apply Hnone; reflexivity|].
  split; [apply (Hlimit (leaf "2") 2%Z); [reflexivity|reflexivity|lia|reflexivity]|].
  destruct (Hfour Hacc) as [Hans Hnext].
  split; [exact Hans|]. split; [rewrite Hnext; reflexivity|].
  pose proof (limiter_topology (penv := sample_env) limit_only_query 1 0 open_terminal
                [sample_a; sample_b; sample_c]
                sample_a sample_b sample_c sample_d) as [Hpair [_ [_ [Hrun _]]]].
  specialize (Hpair (2, 0)%Z eq_refl).
  destruct (Hrun Hacc) as [Hans' _]; [lia|lia|]. exact Hans'.
Defined.

(** The pipeline built for `limit: 2` over a cursor that takes everything:
    two samples reach the cursor and the third [put] answers [false]. *)
Lemma limit_only_pipeline :
  let p := build_pipeline [LimiterNode 2 0; Terminal] (new_cursor accept_all) in
  fst (put_each [sample_a; sample_b; sample_c] p) = [true; true; false] /\
  offered (pipeline_cursor (snd (put_each [sample_a; sample_b; sample_c] p)))
  = [sample_a; sample_b].
Proof. split; reflexivity. Qed.

(** C2, as the specification words it, does not hold: a document with neither `limit` nor
    `offset` (both 0) gets no Limiter at all. *)
Lemma topology_without_limiter :
  ~ (exists nodes,
        parse_processing_topology (penv := sample_env) empty_query
        = Ok (AKU_SUCCESS, nodes) /\
        In (LimiterNode 0 0) nodes).
Proof.
  intros [nodes [Hrun Hin]]. vm_compute in Hrun. injection Hrun as <-.
  destruct Hin as [Hin|[]]. discriminate.
Qed.

(** [parse_limit_offset] stores the value of `offset` into the limit: for
    `limit: 2, offset: 1` it returns (1, 0), and the pipeline gets
    Limiter(1, 0). *)
Lemma parse_limit_offset_takes_offset_for_limit :
  parse_limit_offset (penv := sample_env) limit_offset_query = Ok (1, 0)%Z /\
  parse_processing_topology (penv := sample_env) limit_offset_query
  = Ok (AKU_SUCCESS, [LimiterNode 1 0; Terminal]).
Proof. split; reflexivity. Qed.

(** ** GroupByStatement *)

Lemma bucket_range (s ts : Z) :
  (0 < s)%Z -> (ts / s * s <= ts < ts / s * s + s)%Z.
Proof.
  intros Hs. pose proof (Z.div_mod ts s ltac:(lia)) as Hdm.
  pose proof (Z.mod_pos_bound ts s Hs) as Hm. lia.
Qed.

Lemma wrap64_small (z : Z) : (0 <= z < U64_MOD)%Z -> wrap64 z = z.
Proof. intros Hz. unfold wrap64. apply Z.mod_small. exact Hz. Qed.

Lemma forward_dense_last (s : Z) (l : list Z) : forall prev,
  forward_dense s prev l = true -> (prev <= last_of prev l)%Z.
Proof.
  induction l as [|ts rest IH]; intros prev Hd; cbn [last_of]; [lia|].
  cbn [forward_dense] in Hd.
  apply andb_true_iff in Hd as [Hd Hrest]. apply andb_true_iff in Hd as [Hle _].
  apply Z.leb_le in Hle. specialize (IH ts Hrest). lia.
Qed.

Lemma bucket_bounds_same (s a : Z) : bucket_bounds s a a = [].
Proof. unfold bucket_bounds. rewrite Z.sub_diag. reflexivity. Qed.

Lemma bucket_bounds_step (s a b : Z) :
  (a < b)%Z -> bucket_bounds s a b = ((a + 1) * s)%Z :: bucket_bounds s (a + 1) b.
Proof.
  intros Hab. unfold bucket_bounds.
  replace (Z.to_nat (b - a)) with (Datatypes.S (Z.to_nat (b - (a + 1)))) by lia.
  cbn [seq map]. f_equal; [f_equal; lia|].
  rewrite <- seq_shift, map_map. apply map_ext. intros i. f_equal. lia.
Qed.

Section GroupByFacts.

Lemma groupby_put_first (s : Z) (sample : aku_Sample) (cur : Cursor) :
  (0 < s)%Z -> (0 <= timestamp sample)%Z ->
  (timestamp sample / s * s + s < U64_MOD)%Z ->
  accepting cur ->
  groupby_put sample (GroupByStatement_new s) cur
  = (true, groupby_at s (timestamp sample / s), cursor_after [sample] cur).
Proof.
  intros Hs Hts Hmax Hacc. unfold groupby_put, GroupByStatement_new.
  cbn [step_ first_hit_ lowerbound_ upperbound_].
  destruct (Z.eqb_spec s 0) as [|_]; [lia|]. cbn [negb].
  pose proof (bucket_range s (timestamp sample) Hs) as Hb.
  rewrite wrap64_small by lia.
  destruct (Z.leb_spec (timestamp sample / s * s + s) (timestamp sample)); [lia|].
  destruct (Z.ltb_spec (timestamp sample) (timestamp sample / s * s)); [lia|].
  cbn [put Cursor_node]. unfold cursor_put. rewrite Hacc. reflexivity.
Qed.

Lemma groupby_put_same_bucket (s q : Z) (sample : aku_Sample) (cur : Cursor) :
  (0 < s)%Z -> timestamp sample / s = q ->
  accepting cur ->
  groupby_put sample (groupby_at s q) cur
  = (true, groupby_at s q, cursor_after [sample] cur).
Proof.
  intros Hs Hq Hacc. unfold groupby_put, groupby_at.
  cbn [step_ first_hit_ lowerbound_ upperbound_].
  destruct (Z.eqb_spec s 0) as [|_]; [lia|]. cbn [negb].
  pose proof (bucket_range s (timestamp sample) Hs) as Hb. rewrite Hq in Hb.
  destruct (Z.leb_spec (q * s + s) (timestamp sample)); [lia|].
  destruct (Z.ltb_spec (timestamp sample) (q * s)); [lia|].
  cbn [put Cursor_node]. unfold cursor_put. rewrite Hacc. reflexivity.
Qed.

Lemma groupby_put_next_bucket (s q : Z) (sample : aku_Sample) (cur : Cursor) :
  (0 < s)%Z -> (0 <= q)%Z -> timestamp sample / s = (q + 1)%Z ->
  ((q + 1) * s + s < U64_MOD)%Z ->
  accepting cur ->
  groupby_put sample (groupby_at s q) cur
  = (true, groupby_at s (q + 1),
     cursor_after [marker_at ((q + 1) * s); sample] cur).
Proof.
  intros Hs Hq0 Hq Hmax Hacc. unfold groupby_put, groupby_at.
  cbn [step_ first_hit_ lowerbound_ upperbound_].
  destruct (Z.eqb_spec s 0) as [|_]; [lia|]. cbn [negb].
  pose proof (bucket_range s (timestamp sample) Hs) as Hb. rewrite Hq in Hb.
  destruct (Z.leb_spec (q * s + s) (timestamp sample)); [|lia].
  cbn [put Cursor_node]. unfold cursor_put. rewrite !Hacc. cbn [negb].
  rewrite !wrap64_small by nia.
  unfold cursor_after, marker_at. cbn [accept offered completed errors].
  rewrite <- app_assoc. cbn [app].
  replace ((q + 1) * s)%Z with (q * s + s)%Z by lia.
  rewrite Hacc. reflexivity.
Qed.

Lemma count_markers_app l1 l2 :
  count_markers (l1 ++ l2) = (count_markers l1 + count_markers l2)%nat.
Proof. unfold count_markers. rewrite List.filter_app, length_app. reflexivity. Qed.

Lemma scan_drive_dense (s : Z) (xs : list aku_Sample) :
  forall (prev : Z) (cur : Cursor),
  (0 < s)%Z -> (0 <= prev)%Z ->
  forward_dense s prev (map timestamp xs) = true ->
  (last_of prev (map timestamp xs) / s * s + s < U64_MOD)%Z ->
  (forall x, In x xs -> is_empty_marker x = false) ->
  accepting cur ->
  exists out,
    scan_drive xs {| groupby_ := groupby_at s (prev / s); root_node_ := cur |}
    = (true, {| groupby_ := groupby_at s (last_of prev (map timestamp xs) / s);
                root_node_ := cursor_after out cur |}) /\
    count_markers out
    = Z.to_nat (last_of prev (map timestamp xs) / s - prev / s) /\
    data_samples out = xs /\
    map timestamp (List.filter is_empty_marker out)
    = bucket_bounds s (prev / s) (last_of prev (map timestamp xs) / s).
Proof.
  induction xs as [|x rest IH]; intros prev cur Hs Hprev Hdense Hmax Hdata Hacc.
  - exists []. cbn [scan_drive map last_of]. rewrite cursor_after_nil.
    rewrite Z.sub_diag, bucket_bounds_same. repeat split; reflexivity.
  - cbn [map last_of forward_dense] in *.
    apply andb_true_iff in Hdense as [Hd Hrest].
    apply andb_true_iff in Hd as [Hle Hnear].
    apply Z.leb_le in Hle, Hnear.
    pose proof (forward_dense_last s _ _ Hrest) as Hlast.
    pose proof (Z.div_le_mono prev (timestamp x) s Hs Hle) as Hq.
    pose proof (Z.div_le_mono (timestamp x) _ s Hs Hlast) as Hqlast.
    pose proof (Z.div_pos prev s Hprev Hs) as Hq0.
    assert (is_empty_marker x = false) as Hx by (apply Hdata; left; reflexivity).
    assert (forall y, In y rest -> is_empty_marker y = false) as Hdata'
      by (intros y Hy; apply Hdata; right; exact Hy).
    assert (accepting (cursor_after [x] cur)) as Hacc1 by exact Hacc.
    destruct (Z.eq_dec (timestamp x / s) (prev / s)) as [Hsame|Hnext].
    + destruct (IH (timestamp x) (cursor_after [x] cur))
        as [out [Hrun [Hcount [Hsamples Hbounds]]]]; try assumption; [lia|].
      exists (x :: out). cbn [scan_drive]. unfold scan_put. cbn [groupby_ root_node_].
      rewrite groupby_put_same_bucket by assumption.
      rewrite <- Hsame, Hrun, cursor_after_app. cbn [app].
      split; [reflexivity|].
      unfold count_markers, data_samples in *. cbn [List.filter].
      rewrite Hx. cbn [negb]. rewrite Hcount, Hsamples, Hbounds.
      repeat split; reflexivity.
    + assert (timestamp x / s = prev / s + 1)%Z as Hstep by lia.
      destruct (IH (timestamp x) (cursor_after [marker_at ((prev / s + 1) * s); x] cur))
        as [out [Hrun [Hcount [Hsamples Hbounds]]]]; try assumption; [lia|].
      exists (marker_at ((prev / s + 1) * s) :: x :: out).
      cbn [scan_drive]. unfold scan_put. cbn [groupby_ root_node_].
      rewrite groupby_put_next_bucket; try assumption;
        [|rewrite <- Hstep; nia].
      rewrite Hstep in Hrun, Hcount, Hbounds.
      rewrite Hrun, cursor_after_app. cbn [app].
      split; [reflexivity|].
      unfold count_markers, data_samples in *. cbn [List.filter].
      rewrite Hx. cbn [negb is_empty_marker marker_at with_timestamp EMPTY_SAMPLE
                         payload type PDataType_eqb length map timestamp].
      rewrite Hcount, Hsamples, Hbounds.
      split; [lia|]. split; [reflexivity|].
      rewrite (bucket_bounds_step s (prev / s)) by lia. reflexivity.
Qed.
End GroupByFacts.

(** C4, as the code has it.  The statement aligns its bucket on the first
    timestamp to [ts / step * step].  For a forward stream of data samples in
    which no sample lies more than one bucket after the one before it, driven
    into a node that takes everything, the markers emitted are the boundaries
    of the buckets entered after the first one, in order: their number is
    [ts_last / step - ts_first / step], and the data samples pass through
    unchanged. *)
Theorem groupby_marker_count (step : Z) (first : aku_Sample)
    (rest : list aku_Sample) (cur : Cursor) :
  let ts_first := timestamp first in
  let ts_last := last_of ts_first (map timestamp rest) in
  (0 < step)%Z -> (0 <= ts_first)%Z ->
  forward_dense step ts_first (map timestamp rest) = true ->
  (ts_last / step * step + step < U64_MOD)%Z ->
  (forall x, In x (first :: rest) -> is_empty_marker x = false) ->
  accepting cur ->
  exists out,
    scan_drive (first :: rest) (groupby_query step cur)
    = (true, {| groupby_ := groupby_at step (ts_last / step);
                root_node_ := cursor_after out cur |}) /\
    count_markers out = Z.to_nat (ts_last / step - ts_first / step) /\
    data_samples out = first :: rest /\
    map timestamp (List.filter is_empty_marker out)
    = bucket_bounds step (ts_first / step) (ts_last / step).
Proof.
  cbn zeta. intros Hs Hfirst Hdense Hmax Hdata Hacc.
  pose proof (forward_dense_last step _ _ Hdense) as Hlast.
  pose proof (Z.div_le_mono _ _ step Hs Hlast) as Hq.
  destruct (scan_drive_dense step rest (timestamp first) (cursor_after [first] cur))
    as [out [Hrun [Hcount [Hsamples Hbounds]]]]; try assumption.
  { intros x Hx. apply Hdata. right. exact Hx. }
  exists (first :: out). cbn [scan_drive]. unfold scan_put, groupby_query.
  cbn [groupby_ root_node_].
  rewrite groupby_put_first; try assumption;
    [|pose proof (Z.div_pos _ _ Hfirst Hs); nia].
  rewrite Hrun, cursor_after_app. cbn [app]. split; [reflexivity|].
  assert (is_empty_marker first = false) as Hx by (apply Hdata; left; reflexivity).
  unfold count_markers, data_samples in *. cbn [List.filter].
  rewrite Hx. cbn [negb]. rewrite Hcount, Hsamples, Hbounds.
  repeat split; reflexivity.
Qed.

Lemma groupby_marker_count_witness :
  exists out,
    scan_drive [value_sample 9 1; value_sample 10 1; value_sample 25 1]
      (groupby_query 10 (new_cursor accept_all))
    = (true, {| groupby_ := groupby_at 10 2;
                root_node_ := cursor_after out (new_cursor accept_all) |}) /\
    count_markers out = 2%nat /\
    map timestamp (List.filter is_empty_marker out) = [10; 20]%Z.
Proof.
  destruct (groupby_marker_count 10 (value_sample 9 1)
              [value_sample 10 1; value_sample 25 1] (new_cursor accept_all))
    as [out [Hrun [Hcount [_ Hbounds]]]].
  - lia.
  - cbn. lia.
  - reflexivity.
  - vm_compute. reflexivity.
  - intros x Hx. cbn in Hx. destruct Hx as [<- | [<- | [<- | []]]]; reflexivity.
  - intros h s. reflexivity.
  - exists out. split; [exact Hrun|]. split; [exact Hcount|exact Hbounds].
Defined.

(** C4, as the specification words it, does not hold: with step 10 the stream of timestamps
    9, 10 crosses the boundary at 10 and gets one marker, while
    (10 - 9) / 10 = 0. *)
Lemma groupby_marker_count_misaligned :
  ~ (count_markers
       (offered (root_node_
          (snd (scan_drive [value_sample 9 1; value_sample 10 1]
                  (groupby_query 10 (new_cursor accept_all))))))
     = Z.to_nat ((10 - 9) / 10)).
Proof. vm_compute. discriminate. Qed.

(** One [put] emits at most one marker: the stream 0, 35 with step 10 gets
    the single marker at 10, and the statement is left on the bucket
    [10, 20) although the last sample lies in [30, 40). *)
Lemma groupby_one_marker_per_put :
  scan_drive [value_sample 0 1; value_sample 35 1]
    (groupby_query 10 (new_cursor accept_all))
  = (true, {| groupby_ := groupby_at 10 1;
              root_node_ := cursor_after
                              [value_sample 0 1; marker_at 10; value_sample 35 1]
                              (new_cursor accept_all) |}).
Proof. reflexivity. Qed.

(* ===================================================================== *)
(** * Further properties of the parser, the plan builder and the nodes    *)
(* ===================================================================== *)

(** ** Statement parsers *)

Lemma str_mem_In (s : string) (l : list string) : str_mem s l = true <-> In s l.
Proof.
  unfold str_mem. rewrite existsb_exists. split.
  - intros [x [Hx Heq]]. apply String.eqb_eq in Heq. subst x. exact Hx.
  - intros Hin. exists s. split; [exact Hin|apply String.eqb_refl].
Qed.

(** [validate_query] answers [AKU_SUCCESS] exactly for the documents whose
    top-level keys all belong to the allowed set, and
    [AKU_EQUERY_PARSING_ERROR] for every other document; how often and in
    which order the keys occur plays no part. *)
Theorem validate_query_allowed_keys (p : ptree) :
  (validate_query p = AKU_SUCCESS <->
   Forall (fun kv => In (fst kv) ALLOWED_STMTS) (pt_children p)) /\
  (validate_query p = AKU_SUCCESS \/ validate_query p = AKU_EQUERY_PARSING_ERROR).
Proof.
  rewrite validate_query_unknown_only. unfold has_unknown_key.
  destruct (existsb _ (pt_children p)) eqn:Hex.
  - split; [|right; reflexivity]. split; [discriminate|].
    intros Hall. exfalso. apply existsb_exists in Hex as [kv [Hin Hbad]].
    rewrite List.Forall_forall in Hall. apply Hall in Hin. apply str_mem_In in Hin.
    rewrite Hin in Hbad. discriminate.
  - split; [|left; reflexivity]. split; [|reflexivity]. intros _.
    apply List.Forall_forall. intros kv Hin. apply str_mem_In.
    destruct (str_mem (fst kv) ALLOWED_STMTS) eqn:Hm; [reflexivity|].
    assert (existsb (fun kv => negb (str_mem (fst kv) ALLOWED_STMTS)) (pt_children p)
            = true) as Habs
      by (apply existsb_exists; exists kv; split; [exact Hin|rewrite Hm; reflexivity]).
    congruence.
Qed.

Lemma find_child_skip (key : string) (pre : list (string * ptree)) rest :
  Forall (fun kv => String.eqb (fst kv) key = false) pre ->
  find_child key (pre ++ rest) = find_child key rest.
Proof.
  induction pre as [|[k c] pre IH]; intros Hpre; [reflexivity|].
  apply Forall_cons in Hpre as [Hk Hpre]. cbn [app find_child fst] in *.
  rewrite Hk. apply IH, Hpre.
Qed.

Lemma query_kind_loop_skip (p : ptree) (pre : list (string * ptree)) rest :
  Forall (fun kv => is_kind_key (fst kv) = false) pre ->
  query_kind_loop p (pre ++ rest) = query_kind_loop p rest.
Proof.
  induction pre as [|[k c] pre IH]; intros Hpre; [reflexivity|].
  apply Forall_cons in Hpre as [Hk Hpre]. cbn [app query_kind_loop fst] in *.
  unfold is_kind_key, str_mem, UNIQUE_STMTS in Hk. cbn [existsb] in Hk.
  apply orb_false_iff in Hk as [H1 Hk]. apply orb_false_iff in Hk as [H2 Hk].
  apply orb_false_iff in Hk as [H3 Hk]. apply orb_false_iff in Hk as [H4 _].
  rewrite H1, H2, H3, H4. apply IH, Hpre.
Qed.

Lemma kind_key_not_select (k : string) :
  is_kind_key k = false -> String.eqb k "select" = false.
Proof.
  unfold is_kind_key, str_mem, UNIQUE_STMTS. cbn [existsb].
  intros Hk. apply orb_false_iff in Hk as [H1 _]. exact H1.
Qed.

(** [get_query_kind] goes by the first top-level key that names a kind,
    whatever stands before or after it: `aggregate`, `join` and
    `group-aggregate` decide at once; `select` gives SELECT_META when its
    value is a string starting with [meta:names], SELECT for any other
    string, and a parse error when its value is not a plain string.  A
    document with no such key is a parse error. *)
Theorem get_query_kind_first_kind_key (d : string)
    (pre post : list (string * ptree)) (v : ptree) :
  Forall (fun kv => is_kind_key (fst kv) = false) pre ->
  get_query_kind (PTree d pre) = (AKU_EQUERY_PARSING_ERROR, SELECT) /\
  get_query_kind (PTree d (pre ++ ("aggregate", v) :: post))
  = (AKU_SUCCESS, AGGREGATE) /\
  get_query_kind (PTree d (pre ++ ("join", v) :: post)) = (AKU_SUCCESS, JOIN) /\
  get_query_kind (PTree d (pre ++ ("group-aggregate", v) :: post))
  = (AKU_SUCCESS, GROUP_AGGREGATE) /\
  get_query_kind (PTree d (pre ++ ("select", v) :: post))
  = (if pt_empty v
     then (AKU_SUCCESS, if is_meta_query (pt_data v) then SELECT_META else SELECT)
     else (AKU_EQUERY_PARSING_ERROR, SELECT)).
Proof.
  intros Hpre. unfold get_query_kind. cbn [pt_children].
  split; [|split; [|split; [|split]]];
    try (rewrite query_kind_loop_skip by exact Hpre; reflexivity).
  - rewrite <- (app_nil_r pre), query_kind_loop_skip by exact Hpre. reflexivity.
  - rewrite query_kind_loop_skip by exact Hpre.
    cbn [query_kind_loop]. cbn [String.eqb Ascii.eqb Bool.eqb].
    unfold parse_select_stmt, get_child_optional. cbn [pt_children].
    rewrite find_child_skip.
    + cbn [find_child]. cbn [String.eqb Ascii.eqb Bool.eqb].
      destruct (pt_empty v); [|reflexivity].
      destruct (is_meta_query (pt_data v)); reflexivity.
    + eapply Forall_impl; [exact Hpre|]. intros kv. apply kind_key_not_select.
Qed.

Lemma get_query_kind_first_kind_key_witness :
  get_query_kind output_first_query = (AKU_SUCCESS, JOIN).
Proof.
  apply (get_query_kind_first_kind_key ""
           [("output", leaf "csv"); ("limit", leaf "10")]%string
           [("select", leaf "cpu")]%string
           (array [leaf "cpu"; leaf "mem"])).
  repeat constructor.
Defined.

(** [parse_join_stmt] returns the values of the children of `join` in
    document order; a missing `join`, and a `join` without children (an empty
    list, or a plain string), is a parse error. *)
Theorem parse_join_stmt_children (p : ptree) :
  parse_join_stmt p
  = match get_child_optional "join" p with
    | Some join =>
        match pt_children join with
        | [] => (AKU_EQUERY_PARSING_ERROR, [])
        | cs => (AKU_SUCCESS, map (fun kv => pt_data (snd kv)) cs)
        end
    | None => (AKU_EQUERY_PARSING_ERROR, [])
    end.
Proof.
  unfold parse_join_stmt.
  destruct (get_child_optional "join" p) as [j|]; [|reflexivity].
  rewrite join_items_app. cbn [app].
  destruct (pt_children j) as [|kv cs]; reflexivity.
Qed.

Lemma last_cons_default {A : Type} (l : list A) : forall (x d d' : A),
  List.last (x :: l) d = List.last (x :: l) d'.
Proof.
  induction l as [|y rest IH]; intros x d d'; [reflexivity|].
  change (List.last (y :: rest) d = List.last (y :: rest) d'). apply IH.
Qed.

Section RangeFacts.
Context {penv : ParserEnv}.

Lemma range_loop_parsed (items : list (string * ptree)) :
  forall b e bs es,
  range_loop items b e bs es
  = (List.last (parsed_stamps "from" items) b,
     List.last (parsed_stamps "to" items) e,
     bs || negb (length (parsed_stamps "from" items) =? 0)%nat,
     es || negb (length (parsed_stamps "to" items) =? 0)%nat).
Proof.
  induction items as [|[k child] rest IH]; intros b e bs es.
  - cbn. rewrite !orb_false_r. reflexivity.
  - cbn [range_loop parsed_stamps].
    destruct (String.eqb k "from") eqn:Hf.
    + apply String.eqb_eq in Hf. subst k. cbn [String.eqb Ascii.eqb Bool.eqb].
      destruct (from_iso_string (pt_data child)) as [ts|]; [|apply IH].
      rewrite IH. cbn [length Nat.eqb negb]. rewrite orb_true_r.
      f_equal. f_equal. f_equal.
      destruct (parsed_stamps "from" rest) as [|x xs] eqn:Hp; [reflexivity|].
      change (List.last (x :: xs) ts = List.last (x :: xs) b).
      apply last_cons_default.
    + destruct (String.eqb k "to") eqn:Ht; [|apply IH].
      destruct (from_iso_string (pt_data child)) as [ts|]; [|apply IH].
      rewrite IH. cbn [length Nat.eqb negb]. rewrite orb_true_r.
      f_equal. f_equal. f_equal.
      destruct (parsed_stamps "to" rest) as [|x xs] eqn:Hp; [reflexivity|].
      change (List.last (x :: xs) ts = List.last (x :: xs) e).
      apply last_cons_default.
Qed.

(** [parse_range_timestamp] succeeds exactly when some `from` child and some
    `to` child of `range` can be read as timestamps.  Children that cannot be
    read are skipped, and of several readable ones the last in document order
    is taken; a bound that was never read is reported as 0. *)
Theorem parse_range_timestamp_last_wins (p : ptree) :
  let items := match get_child_optional "range" p with
               | Some range => pt_children range
               | None => []
               end in
  let froms := parsed_stamps "from" items in
  let tos := parsed_stamps "to" items in
  parse_range_timestamp p
  = (match froms, tos with
     | _ :: _, _ :: _ => AKU_SUCCESS
     | _, _ => AKU_EQUERY_PARSING_ERROR
     end, List.last froms 0%Z, List.last tos 0%Z).
Proof.
  cbn zeta. unfold parse_range_timestamp.
  destruct (get_child_optional "range" p) as [range|]; [|reflexivity].
  rewrite range_loop_parsed. cbn [orb].
  destruct (parsed_stamps "from" (pt_children range)),
           (parsed_stamps "to" (pt_children range)); reflexivity.
Qed.
End RangeFacts.

(** ** parse_select_meta_query *)

Lemma prefix_append (pat m : string) : String.prefix pat (pat ++ m)%string = true.
Proof.
  induction pat as [|c pat IH].
  - destruct m; reflexivity.
  - change (String.prefix (String c pat) (String c (pat ++ m)) = true). simpl.
    destruct (ascii_dec c c); [exact IH|congruence].
Qed.

Lemma string_drop_append (pat m : string) :
  string_drop (String.length pat) (pat ++ m)%string = m.
Proof. induction pat as [|c pat IH]; cbn; [reflexivity|exact IH]. Qed.

Lemma erase_first_unfold (pat s : string) :
  erase_first pat s
  = if String.prefix pat s then string_drop (String.length pat) s
    else match s with
         | EmptyString => EmptyString
         | String c rest => String c (erase_first pat rest)
         end.
Proof. destruct s; reflexivity. Qed.

(** Erasing a pattern from a string that starts with it leaves the rest. *)
Lemma erase_first_append (pat m : string) : erase_first pat (pat ++ m)%string = m.
Proof.
  rewrite erase_first_unfold, prefix_append. apply string_drop_append.
Qed.

Lemma prefix_split (pat : string) : forall s,
  String.prefix pat s = true -> exists r, s = (pat ++ r)%string.
Proof.
  induction pat as [|c pat IH]; intros s Hp.
  - exists s. reflexivity.
  - destruct s as [|d s]; [discriminate|]. simpl in Hp.
    destruct (ascii_dec c d) as [->|]; [|discriminate].
    destruct (IH s Hp) as [r ->]. exists r. reflexivity.
Qed.

Lemma string_length_append (a b : string) :
  String.length (a ++ b)%string = (String.length a + String.length b)%nat.
Proof.
  induction a as [|c a IH]; [reflexivity|].
  change (Datatypes.S (String.length (a ++ b)%string)
          = Datatypes.S (String.length a + String.length b)).
  rewrite IH. reflexivity.
Qed.

(** Erasing a pattern that does not occur leaves the string as it is. *)
Lemma erase_first_absent (pat : string) : forall s,
  (forall a b, s <> (a ++ pat ++ b)%string) -> erase_first pat s = s.
Proof.
  induction s as [|c s IH]; intros Habsent; rewrite erase_first_unfold.
  - destruct (String.prefix pat "") eqn:Hp; [|reflexivity].
    apply prefix_split in Hp as [r Hr]. exfalso.
    apply (Habsent ""%string r). exact Hr.
  - destruct (String.prefix pat (String c s)) eqn:Hp.
    + apply prefix_split in Hp as [r Hr]. exfalso.
      apply (Habsent ""%string r). exact Hr.
    + rewrite IH; [reflexivity|].
      intros a b ->. apply (Habsent (String c a) b). reflexivity.
Qed.

Section MetaFacts.
Context {M : Type} {mops : SeriesMatcherOps M}.

(** [parse_select_meta_query] on a valid document whose `select` holds the
    string [name].  A name that does not start with [meta:names] is a parse
    error.  [meta:names] itself lists every id of the catalogue, but is a
    parse error as soon as a `where` clause is present (no metric to apply it
    to).  Every longer name that starts with [meta:names] resolves exactly as
    the where clause of a query over one metric does, the metric being the
    name with the first occurrence of [meta:names:] erased: the rest of the
    name for [meta:names:<metric>], and the whole name, prefix included, when
    [meta:names:] occurs nowhere in it (as in [meta:namescpu]). *)
Theorem parse_select_meta_query_cases (p : ptree) (matcher : M) (name : string) :
  validate_query p = AKU_SUCCESS ->
  parse_select_stmt p = (AKU_SUCCESS, name) ->
  (is_meta_query name = false ->
   parse_select_meta_query p matcher = Ok (AKU_EQUERY_PARSING_ERROR, [])) /\
  (name = "meta:names"%string ->
   parse_select_meta_query p matcher
   = match get_child_optional "where" p with
     | Some _ => Ok (AKU_EQUERY_PARSING_ERROR, [])
     | None => Ok (AKU_SUCCESS, get_all_ids matcher)
     end) /\
  (is_meta_query name = true -> name <> "meta:names"%string ->
   parse_select_meta_query p matcher
   = parse_where_clause p [erase_first "meta:names:" name] matcher) /\
  (forall m, name = ("meta:names:" ++ m)%string ->
             erase_first "meta:names:" name = m) /\
  ((forall a b, name <> (a ++ "meta:names:" ++ b)%string) ->
   erase_first "meta:names:" name = name).
Proof.
  intros Hvalid Hstmt. unfold parse_select_meta_query. rewrite Hvalid, Hstmt.
  split; [|split; [|split; [|split]]].
  - intros ->. reflexivity.
  - intros ->. cbn. unfold parse_where_clause.
    destruct (get_child_optional "where" p); reflexivity.
  - intros Hmeta Hlonger. rewrite Hmeta. cbn [negb].
    unfold is_meta_query in Hmeta. rewrite Hmeta.
    destruct (prefix_split _ _ Hmeta) as [r Hr].
    assert ((10 <? String.length name)%nat = true) as ->.
    { apply Nat.ltb_lt. rewrite Hr, string_length_append.
      destruct r as [|c r]; [exfalso; apply Hlonger; exact Hr|].
      cbn. lia. }
    cbn [andb].
    destruct (parse_where_clause p [erase_first "meta:names:" name] matcher)
      as [[st l]|msg|w|w]; try reflexivity.
    destruct st; reflexivity.
  - intros m ->. apply erase_first_append.
  - apply erase_first_absent.
Qed.
End MetaFacts.

Lemma parse_select_meta_query_cases_witness :
  parse_select_meta_query meta_names_query catalogue
  = Ok (AKU_SUCCESS, [1; 2; 3]%Z) /\
  parse_select_meta_query meta_names_where_query catalogue
  = Ok (AKU_EQUERY_PARSING_ERROR, []) /\
  parse_select_meta_query meta_names_cpu_query catalogue
  = Ok (AKU_SUCCESS, [1; 2]%Z) /\
  parse_select_meta_query select_twice catalogue
  = Ok (AKU_EQUERY_PARSING_ERROR, []) /\
  parse_select_meta_query meta_namescpu_query catalogue
  = parse_where_clause meta_namescpu_query ["meta:namescpu"%string] catalogue.
Proof.
  split; [|split; [|split; [|split]]].
  - destruct (parse_select_meta_query_cases meta_names_query catalogue
                "meta:names" eq_refl eq_refl) as [_ [Hall _]].
    rewrite (Hall eq_refl). reflexivity.
  - destruct (parse_select_meta_query_cases meta_names_where_query catalogue
                "meta:names" eq_refl eq_refl) as [_ [Hall _]].
    rewrite (Hall eq_refl). reflexivity.
  - destruct (parse_select_meta_query_cases meta_names_cpu_query catalogue
                "meta:names:cpu" eq_refl eq_refl) as [_ [_ [Hm [Herase _]]]].
    rewrite (Hm eq_refl ltac:(discriminate)), (Herase "cpu"%string eq_refl).
    reflexivity.
  - destruct (parse_select_meta_query_cases select_twice catalogue "cpu"
                eq_refl eq_refl) as [Hn _].
    apply Hn. reflexivity.
  - destruct (parse_select_meta_query_cases meta_namescpu_query catalogue
                "meta:namescpu" eq_refl eq_refl) as [_ [_ [Hm _]]].
    rewrite (Hm eq_refl ltac:(discriminate)). reflexivity.
Defined.

(** ** From an accepted query to its plan *)

Lemma parse_select_stmt_status (p : ptree) :
  fst (parse_select_stmt p) = AKU_SUCCESS \/
  parse_select_stmt p = (AKU_EQUERY_PARSING_ERROR, ""%string).
Proof.
  unfold parse_select_stmt.
  destruct (get_child_optional "select" p) as [s|]; [|right; reflexivity].
  destruct (pt_empty s); [left|right]; reflexivity.
Qed.

Lemma parse_orderby_status (p : ptree) :
  fst (parse_orderby p) = AKU_SUCCESS \/
  parse_orderby p = (AKU_EQUERY_PARSING_ERROR, TIME).
Proof.
  unfold parse_orderby.
  destruct (get_child_optional "order-by" p) as [o|]; [|left; reflexivity].
  destruct (String.eqb (pt_data o) "time"); [left; reflexivity|].
  destruct (String.eqb (pt_data o) "series"); [left|right]; reflexivity.
Qed.

Section PlanOfQuery.
Context {penv : ParserEnv} {M : Type} {mops : SeriesMatcherOps M}.

Lemma parse_range_timestamp_status (p : ptree) :
  fst (fst (parse_range_timestamp p)) = AKU_SUCCESS \/
  fst (fst (parse_range_timestamp p)) = AKU_EQUERY_PARSING_ERROR.
Proof.
  unfold parse_range_timestamp.
  destruct (match get_child_optional "range" p with
            | Some range => range_loop (pt_children range) 0 0 false false
            | None => (0%Z, 0%Z, false, false)
            end) as [[[b e] bs] es].
  destruct (negb bs || negb es); [right|left]; reflexivity.
Qed.

(** A where clause over one metric always resolves: no abort is possible. *)
Lemma parse_where_clause_single (p : ptree) (m : string) (matcher : M) :
  exists l, parse_where_clause p [m] matcher = Ok (AKU_SUCCESS, l).
Proof.
  unfold parse_where_clause.
  destruct (get_child_optional "where" p) as [w|].
  - set (r := where_loop _ _).
    assert (metric_ r = [m]) as Hm by (unfold r; apply where_loop_metric).
    destruct r as [ms tags]. cbn in Hm. subst ms. eexists. reflexivity.
  - eexists. reflexivity.
Qed.

(** [parse_select_query] always returns: its status is [AKU_SUCCESS] or
    [AKU_EQUERY_PARSING_ERROR], every failure hands back the value-initialised
    request, and an accepted request carries no aggregation, one column, the
    parsed range and the parsed order. *)
Theorem parse_select_query_returns (p : ptree) (matcher : M) :
  exists st req,
    parse_select_query p matcher = Ok (st, req) /\
    (st = AKU_SUCCESS \/ st = AKU_EQUERY_PARSING_ERROR) /\
    (st <> AKU_SUCCESS -> req = ReshapeRequest_default) /\
    (st = AKU_SUCCESS ->
     agg_enabled (agg req) = false /\
     length (columns (select req)) = 1%nat /\
     (sel_begin (select req), sel_end (select req))
     = snd_range (parse_range_timestamp p) /\
     order_by req = snd (parse_orderby p) /\
     gb_enabled (group_by req)
     = negb (length (snd (parse_groupby p)) =? 0)%nat).
Proof.
  unfold parse_select_query.
  destruct (validate_query_status p) as [-> | ->];
    [|eexists _, _; split; [reflexivity|]; split; [auto|]; split; congruence].
  destruct (parse_select_stmt_status p) as [Hs|Hs];
    [|rewrite Hs; eexists _, _; split; [reflexivity|]; split; [auto|];
      split; congruence].
  destruct (parse_select_stmt p) as [st metric]. cbn [fst] in Hs. subst st.
  pose proof (parse_groupby_success p) as Hg.
  destruct (parse_groupby p) as [st tags]. cbn [fst snd] in *. subst st.
  destruct (parse_orderby_status p) as [Ho|Ho];
    [|rewrite Ho; eexists _, _; split; [reflexivity|]; split; [auto|];
      split; congruence].
  destruct (parse_orderby p) as [st order]. cbn [fst snd] in *. subst st.
  destruct (parse_where_clause_single p metric matcher) as [l ->]. cbn.
  unfold snd_range.
  destruct (parse_range_timestamp_status p) as [Hr|Hr];
    destruct (parse_range_timestamp p) as [[st b] e]; cbn [fst snd] in *; subst st.
  - eexists _, _. split; [reflexivity|]. split; [auto|]. split; [congruence|].
    intros _. destruct tags as [|t tags]; cbn;
      [|destruct (GroupByTag_new matcher metric (t :: tags))];
      repeat split; reflexivity.
  - eexists _, _. split; [reflexivity|]. split; [auto|]. split; congruence.
Qed.


End PlanOfQuery.



Section GroupAggregatePlan.
Context {penv : ParserEnv} {M : Type} {mops : SeriesMatcherOps M}.


End GroupAggregatePlan.


(** ** JOIN: columns and their plan *)

Lemma split_columns_length (k n : nat) : forall l,
  length (split_columns k n l) = k.
Proof. induction k as [|k IH]; intros l; cbn; [reflexivity|f_equal; apply IH]. Qed.

Lemma join_row_split (k n i : nat) : forall l,
  (k * n <= length l)%nat -> (i < n)%nat ->
  join_row (split_columns k n l) i
  = Ok (map (fun j => nth (j * n + i) l 0%Z) (seq 0 k)).
Proof.
  induction k as [|k IH]; intros l Hlen Hi; [reflexivity|].
  cbn [split_columns join_row ids seq map].
  rewrite lookup_take_lt by lia.
  destruct (l !! i) as [x|] eqn:Hx;
    [|apply lookup_ge_None in Hx; lia].
  rewrite IH by (rewrite ?length_drop; lia). cbn.
  f_equal. f_equal.
  - cbn. symmetry. rewrite nth_lookup, Hx. reflexivity.
  - rewrite <- seq_shift, map_map. apply map_ext. intros j.
    rewrite !nth_lookup, lookup_drop. f_equal. f_equal. cbn. lia.
Qed.

Lemma join_rows_split (k n : nat) (l : list aku_ParamId) (rows : list nat) :
  (k * n <= length l)%nat -> Forall (fun i => (i < n)%nat) rows ->
  join_rows (split_columns k n l) rows
  = Ok (flat_map (fun i => map (fun j => nth (j * n + i) l 0%Z) (seq 0 k)) rows).
Proof.
  intros Hlen. induction rows as [|i rest IH]; intros Hrows; [reflexivity|].
  apply Forall_cons in Hrows as [Hi Hrest]. cbn [join_rows flat_map].
  rewrite join_row_split by assumption. cbn.
  rewrite IH by exact Hrest. reflexivity.
Qed.

Section JoinPlan.
Context {penv : ParserEnv} {M : Type} {mops : SeriesMatcherOps M}.

Lemma init_matcher_in_join_query_success (cols : list Column) (old : option M)
    (global : M) (metrics : list string) m :
  init_matcher_in_join_query cols old global metrics = (AKU_SUCCESS, m) ->
  (2 <= length cols)%nat.
Proof.
  unfold init_matcher_in_join_query.
  destruct (Nat.ltb_spec (length cols) 2); [discriminate|]. intros _. assumption.
Qed.

(** The plan of a request as [parse_join_query] builds it: [k] columns of
    [n] ids cut out of the where-clause result [l]. *)
Lemma create_plan_join_columns (k n : nat) (l : list aku_ParamId)
    (b e : aku_Timestamp) (m : option M) (order : OrderBy) :
  (2 <= k)%nat -> length l = (k * n)%nat ->
  create_plan (F := AggregationFunction)
    {| agg := {| agg_enabled := false; agg_func := []; agg_step := 0 |};
       select := {| sel_begin := b; sel_end := e;
                    columns := split_columns k n l; sel_matcher := m |};
       order_by := order;
       group_by := {| gb_enabled := false; transient_map := ∅;
                      gb_matcher := None |} |}
  = Ok [ {| tier_ := 1; op_ := inl SCAN_RANGE; opt_ids_ := interleave k n l;
            opt_matcher_ := m; time_range_ := (b, e);
            opt_func_ := None; opt_step_ := None; opt_join_cardinality_ := None |};
         {| tier_ := 2; op_ := inr (join_tier2 order); opt_ids_ := take n l;
            opt_matcher_ := m; time_range_ := (b, e);
            opt_func_ := None; opt_step_ := None;
            opt_join_cardinality_ := Some (Z.of_nat k) |} ].
Proof.
  intros Hk Hlen. unfold create_plan, create_join, column0.
  cbn [agg select agg_enabled group_by gb_enabled columns andb orb negb
       sel_begin sel_end sel_matcher order_by].
  rewrite split_columns_length.
  destruct (Nat.ltb_spec 1 k); [|lia]. destruct (Nat.ltb_spec k 2); [lia|].
  destruct k as [|k']; [lia|]. cbn [split_columns].
  unfold mbind, outcome_mbind, outcome_bind. cbn [ids].
  change ({| ids := take n l |} :: split_columns k' n (drop n l))
    with (split_columns (Datatypes.S k') n l).
  rewrite length_take, Nat.min_l by nia.
  rewrite join_rows_split;
    [|lia|apply List.Forall_forall; intros i Hi; apply in_seq in Hi; lia].
  rewrite ?split_columns_length. destruct order; reflexivity.
Qed.

(** Every request [parse_join_query] accepts has one column per metric, at
    least two, all of one length, cut out of the where-clause result; the plan
    builder plans it without abort: the tier-1 scan runs over the ids read
    row by row (the i-th id of every metric, then the next row), and the
    tier-2 join gets the number of metrics as its cardinality and the ids of
    the first metric. *)
Theorem parse_join_query_plan (p : ptree) (matcher : M)
    (req : ReshapeRequest AggregationFunction M) :
  parse_join_query p matcher = Ok (AKU_SUCCESS, req) ->
  exists (k n : nat) (l : list aku_ParamId) t1 t2,
    (fst (parse_join_stmt p) = AKU_SUCCESS /\
     k = length (snd (parse_join_stmt p))) /\
    (2 <= k)%nat /\ length l = (k * n)%nat /\
    parse_where_clause p (snd (parse_join_stmt p)) matcher = Ok (AKU_SUCCESS, l) /\
    columns (select req) = split_columns k n l /\
    create_plan req = Ok [t1; t2] /\
    op_ t1 = inl SCAN_RANGE /\ opt_ids_ t1 = interleave k n l /\
    op_ t2 = inr (join_tier2 (order_by req)) /\
    opt_ids_ t2 = take n l /\
    opt_join_cardinality_ t2 = Some (Z.of_nat k).
Proof.
  unfold parse_join_query.
  destruct (validate_query p); try discriminate.
  destruct (parse_join_stmt p) as [st metrics] eqn:Hstmt.
  destruct st; try discriminate.
  apply parse_join_stmt_nonempty in Hstmt.
  destruct (parse_orderby p) as [st order]. destruct st; try discriminate.
  destruct (parse_where_clause p metrics matcher) as [[st l]| | |] eqn:Hw;
    cbn; try discriminate.
  destruct st; try discriminate.
  destruct (parse_range_timestamp p) as [[st b] e]. destruct st; try discriminate.
  unfold join_columns.
  destruct (Nat.eqb_spec (length l mod length metrics) 0) as [Hmod|];
    cbn; [|discriminate].
  destruct (init_matcher_in_join_query _ None matcher metrics) as [ist m] eqn:Hinit.
  intros Heq. injection Heq as -> <-.
  apply init_matcher_in_join_query_success in Hinit.
  rewrite split_columns_length in Hinit.
  assert (length l = (length metrics * (length l / length metrics))%nat) as Hlen
    by (apply Nat.Div0.div_exact; exact Hmod).
  eexists (length metrics), (length l / length metrics)%nat, l, _, _.
  split; [split; reflexivity|]. split; [exact Hinit|]. split; [exact Hlen|].
  split; [exact Hw|]. split; [reflexivity|].
  split; [apply create_plan_join_columns; assumption|].
  repeat split; reflexivity.
Qed.

(** A `join` over a single metric is never accepted: when the document is
    otherwise in order (valid keys, readable order and range), the answer is
    [AKU_EBAD_ARG], from the initialisation of the matcher, and not a parse
    error. *)
Theorem parse_join_query_single_metric (p : ptree) (matcher : M) (m : string) :
  parse_join_stmt p = (AKU_SUCCESS, [m]) ->
  exists st req,
    parse_join_query p matcher = Ok (st, req) /\
    st <> AKU_SUCCESS /\
    (validate_query p = AKU_SUCCESS ->
     fst (parse_orderby p) = AKU_SUCCESS ->
     fst (fst (parse_range_timestamp p)) = AKU_SUCCESS ->
     st = AKU_EBAD_ARG).
Proof.
  intros Hstmt. unfold parse_join_query. rewrite Hstmt.
  destruct (validate_query_status p) as [-> | ->];
    [|eexists _, _; split; [reflexivity|]; split; congruence].
  destruct (parse_orderby_status p) as [Ho|Ho];
    [|rewrite Ho; eexists _, _; split; [reflexivity|]; split; [discriminate|];
      cbn; congruence].
  destruct (parse_orderby p) as [st order]. cbn [fst] in Ho. subst st.
  destruct (parse_where_clause_single p m matcher) as [l ->]. cbn.
  destruct (parse_range_timestamp_status p) as [Hr|Hr];
    destruct (parse_range_timestamp p) as [[st b] e]; cbn [fst] in Hr; subst st.
  - unfold join_columns. cbn [length]. rewrite Nat.mod_1_r. cbn.
    eexists _, _. split; [reflexivity|]. split; [discriminate|reflexivity].
  - eexists _, _. split; [reflexivity|]. split; [discriminate|].
    cbn. congruence.
Qed.
End JoinPlan.

Lemma parse_join_query_plan_witness :
  exists t1 t2,
    create_plan join_request = Ok [t1; t2] /\
    opt_ids_ t1 = [1; 3; 2; 0]%Z /\ opt_ids_ t2 = [1; 2]%Z /\
    opt_join_cardinality_ t2 = Some 2%Z.
Proof.
  assert (parse_join_query (penv := sample_env) join_query catalogue
          = Ok (AKU_SUCCESS, join_request)) as Hp by (vm_compute; reflexivity).
  destruct (parse_join_query_plan (penv := sample_env) _ _ _ Hp)
    as [k [n [l [t1 [t2 [[_ Hk] [_ [Hlen [Hw [_ [Hplan [_ [H1 [_ [H2 Hc]]]]]]]]]]]]]]].
  vm_compute in Hk. subst k.
  vm_compute in Hw. injection Hw as <-.
  assert (n = 2%nat) as -> by (cbn in Hlen; lia).
  exists t1, t2. split; [exact Hplan|].
  split; [etransitivity; [exact H1|reflexivity]|].
  split; [etransitivity; [exact H2|reflexivity]|].
  etransitivity; [exact Hc|reflexivity].
Defined.

Lemma parse_join_query_single_metric_witness :
  exists req,
    parse_join_query (penv := sample_env) single_join_query catalogue
    = Ok (AKU_EBAD_ARG, req).
Proof.
  destruct (parse_join_query_single_metric (penv := sample_env)
              single_join_query catalogue "cpu" eq_refl)
    as [st [req [Hrun [_ Hst]]]].
  exists req. rewrite Hrun, (Hst eq_refl eq_refl eq_refl). reflexivity.
Defined.

(** ** The plan builder *)

Ltac plan_shape :=
  eexists _, _;
  repeat match goal with |- _ /\ _ => split end;
  try reflexivity; try discriminate; eexists; reflexivity.

(** Whatever the request, a plan that [create_plan] returns has exactly two
    stages, tier 1 followed by tier 2, both over the time range of the
    request, the first with a tier-1 operator and the matcher of the
    selection, the second with a tier-2 operator; and a request without
    columns never gets a plan. *)
Theorem create_plan_two_stages {F M : Type} (req : ReshapeRequest F M)
    (stages : list (QueryPlanStage F M)) :
  create_plan req = Ok stages ->
  exists t1 t2,
    stages = [t1; t2] /\
    tier_ t1 = 1%Z /\ tier_ t2 = 2%Z /\
    time_range_ t1 = (sel_begin (select req), sel_end (select req)) /\
    time_range_ t2 = (sel_begin (select req), sel_end (select req)) /\
    (exists o1, op_ t1 = inl o1) /\ (exists o2, op_ t2 = inr o2) /\
    opt_matcher_ t1 = sel_matcher (select req) /\
    columns (select req) <> [].
Proof.
  unfold create_plan, create_aggregate, create_group_aggregate, create_join,
    create_scan, column0.
  destruct (agg_enabled (agg req)), (agg_step (agg req) =? 0)%Z; cbn [andb negb orb].
  - destruct (order_by req); [|discriminate].
    destruct (columns (select req)) as [|c cs]; [discriminate|]. cbn.
    intros Heq. injection Heq as <-.
    destruct (gb_enabled (group_by req)); plan_shape.
  - destruct (columns (select req)) as [|c cs]; [discriminate|]. cbn.
    destruct (gb_enabled (group_by req)); [discriminate|].
    intros Heq. injection Heq as <-. plan_shape.
  - destruct (1 <? length (columns (select req)))%nat.
    + destruct (gb_enabled (group_by req) || (length (columns (select req)) <? 2)%nat);
        [discriminate|].
      destruct (columns (select req)) as [|c cs]; [discriminate|]. cbn.
      destruct (join_rows (c :: cs) (seq 0 (length (ids c)))); cbn; try discriminate.
      intros Heq. injection Heq as <-. plan_shape.
    + destruct (negb (length (columns (select req)) =? 1)%nat); [discriminate|].
      destruct (columns (select req)) as [|c cs]; [discriminate|]. cbn.
      intros Heq. injection Heq as <-.
      destruct (gb_enabled (group_by req)); plan_shape.
  - destruct (1 <? length (columns (select req)))%nat.
    + destruct (gb_enabled (group_by req) || (length (columns (select req)) <? 2)%nat);
        [discriminate|].
      destruct (columns (select req)) as [|c cs]; [discriminate|]. cbn.
      destruct (join_rows (c :: cs) (seq 0 (length (ids c)))); cbn; try discriminate.
      intros Heq. injection Heq as <-. plan_shape.
    + destruct (negb (length (columns (select req)) =? 1)%nat); [discriminate|].
      destruct (columns (select req)) as [|c cs]; [discriminate|]. cbn.
      intros Heq. injection Heq as <-.
      destruct (gb_enabled (group_by req)); plan_shape.
Qed.

Lemma create_plan_two_stages_witness :
  exists t1 t2,
    create_plan join_request = Ok [t1; t2] /\
    tier_ t1 = 1%Z /\ tier_ t2 = 2%Z /\ time_range_ t1 = time_range_ t2.
Proof.
  destruct (create_plan join_request) as [stages|msg|w|w] eqn:Hplan;
    try (vm_compute in Hplan; discriminate).
  destruct (create_plan_two_stages _ _ Hplan)
    as [t1 [t2 [-> [H1 [H2 [Hr1 [Hr2 _]]]]]]].
  exists t1, t2. split; [reflexivity|]. split; [exact H1|]. split; [exact H2|].
  rewrite Hr1, Hr2. reflexivity.
Defined.

(** ** GroupByStatement: zero step and backward streams *)

(** With a zero step the group-by statement is transparent: driving a stream
    through the processor is feeding it to the root node, no marker is
    added and the statement stays as it was. *)
Theorem scan_drive_zero_step {S : Type} {nops : NodeOps S}
    (xs : list aku_Sample) (root : S) :
  scan_drive xs {| groupby_ := GroupByStatement_new 0; root_node_ := root |}
  = (fst (put_all xs root),
     {| groupby_ := GroupByStatement_new 0; root_node_ := snd (put_all xs root) |}).
Proof.
  revert root. induction xs as [|x rest IH]; intros root; [reflexivity|].
  cbn [scan_drive put_all]. unfold scan_put, groupby_put. cbn.
  destruct (put x root) as [[|] root']; [apply IH|reflexivity].
Qed.

Lemma bucket_bounds_down_same (s a : Z) : bucket_bounds_down s a a = [].
Proof. unfold bucket_bounds_down. rewrite Z.sub_diag. reflexivity. Qed.

Lemma bucket_bounds_down_step (s a b : Z) :
  (b < a)%Z ->
  bucket_bounds_down s a b = ((a + 1) * s)%Z :: bucket_bounds_down s (a - 1) b.
Proof.
  intros Hab. unfold bucket_bounds_down.
  replace (Z.to_nat (a - b)) with (Datatypes.S (Z.to_nat (a - 1 - b))) by lia.
  cbn [seq map]. f_equal; [f_equal; lia|].
  rewrite <- seq_shift, map_map. apply map_ext. intros i. f_equal. lia.
Qed.

Lemma backward_dense_last (s : Z) (l : list Z) : forall prev,
  backward_dense s prev l = true -> (last_of prev l <= prev)%Z.
Proof.
  induction l as [|ts rest IH]; intros prev Hd; cbn [last_of]; [lia|].
  cbn [backward_dense] in Hd.
  apply andb_true_iff in Hd as [Hd Hrest]. apply andb_true_iff in Hd as [Hle _].
  apply Z.leb_le in Hle. specialize (IH ts Hrest). lia.
Qed.

Lemma groupby_put_previous_bucket (s q : Z) (sample : aku_Sample) (cur : Cursor) :
  (0 < s)%Z -> (1 <= q)%Z -> timestamp sample / s = (q - 1)%Z ->
  (q * s + s < U64_MOD)%Z ->
  accepting cur ->
  groupby_put sample (groupby_at s q) cur
  = (true, groupby_at s (q - 1),
     cursor_after [marker_at ((q + 1) * s); sample] cur).
Proof.
  intros Hs Hq0 Hq Hmax Hacc. unfold groupby_put, groupby_at.
  cbn [step_ first_hit_ lowerbound_ upperbound_].
  destruct (Z.eqb_spec s 0) as [|_]; [lia|]. cbn [negb].
  pose proof (bucket_range s (timestamp sample) Hs) as Hb. rewrite Hq in Hb.
  destruct (Z.leb_spec (q * s + s) (timestamp sample)); [nia|].
  destruct (Z.ltb_spec (timestamp sample) (q * s)); [|nia].
  cbn [put Cursor_node]. unfold cursor_put. rewrite !Hacc. cbn [negb].
  rewrite !wrap64_small by nia.
  unfold cursor_after, marker_at. cbn [accept offered completed errors].
  rewrite <- app_assoc. cbn [app].
  replace ((q + 1) * s)%Z with (q * s + s)%Z by lia.
  replace ((q - 1) * s)%Z with (q * s - s)%Z by lia.
  replace (q * s - s + s)%Z with (q * s + s - s)%Z by lia.
  rewrite Hacc. reflexivity.
Qed.

Lemma scan_drive_backward_dense (s : Z) (xs : list aku_Sample) :
  forall (prev : Z) (cur : Cursor),
  (0 < s)%Z ->
  (0 <= last_of prev (map timestamp xs))%Z ->
  backward_dense s prev (map timestamp xs) = true ->
  (prev / s * s + s < U64_MOD)%Z ->
  (forall x, In x xs -> is_empty_marker x = false) ->
  accepting cur ->
  exists out,
    scan_drive xs {| groupby_ := groupby_at s (prev / s); root_node_ := cur |}
    = (true, {| groupby_ := groupby_at s (last_of prev (map timestamp xs) / s);
                root_node_ := cursor_after out cur |}) /\
    count_markers out
    = Z.to_nat (prev / s - last_of prev (map timestamp xs) / s) /\
    data_samples out = xs /\
    map timestamp (List.filter is_empty_marker out)
    = bucket_bounds_down s (prev / s) (last_of prev (map timestamp xs) / s).
Proof.
  induction xs as [|x rest IH]; intros prev cur Hs Hlast0 Hdense Hmax Hdata Hacc.
  - exists []. cbn [scan_drive map last_of]. rewrite cursor_after_nil.
    rewrite Z.sub_diag, bucket_bounds_down_same. repeat split; reflexivity.
  - cbn [map last_of backward_dense] in *.
    apply andb_true_iff in Hdense as [Hd Hrest].
    apply andb_true_iff in Hd as [Hle Hnear].
    apply Z.leb_le in Hle, Hnear.
    pose proof (backward_dense_last s _ _ Hrest) as Hlast.
    pose proof (Z.div_le_mono (timestamp x) prev s Hs Hle) as Hq.
    pose proof (Z.div_le_mono _ (timestamp x) s Hs Hlast) as Hqlast.
    assert (0 <= timestamp x)%Z as Hx0 by lia.
    pose proof (Z.div_pos (timestamp x) s Hx0 Hs) as Hq0.
    pose proof (Z.div_pos _ s Hlast0 Hs) as Hql0.
    assert (is_empty_marker x = false) as Hx by (apply Hdata; left; reflexivity).
    assert (forall y, In y rest -> is_empty_marker y = false) as Hdata'
      by (intros y Hy; apply Hdata; right; exact Hy).
    assert (timestamp x / s * s + s < U64_MOD)%Z as Hmax' by nia.
    destruct (Z.eq_dec (timestamp x / s) (prev / s)) as [Hsame|Hnext].
    + destruct (IH (timestamp x) (cursor_after [x] cur))
        as [out [Hrun [Hcount [Hsamples Hbounds]]]]; try assumption.
      exists (x :: out). cbn [scan_drive]. unfold scan_put. cbn [groupby_ root_node_].
      rewrite groupby_put_same_bucket by assumption.
      rewrite <- Hsame, Hrun, cursor_after_app. cbn [app].
      split; [reflexivity|].
      unfold count_markers, data_samples in *. cbn [List.filter].
      rewrite Hx. cbn [negb]. rewrite Hcount, Hsamples, Hbounds.
      repeat split; reflexivity.
    + assert (timestamp x / s = prev / s - 1)%Z as Hstep by lia.
      destruct (IH (timestamp x) (cursor_after [marker_at ((prev / s + 1) * s); x] cur))
        as [out [Hrun [Hcount [Hsamples Hbounds]]]]; try assumption.
      exists (marker_at ((prev / s + 1) * s) :: x :: out).
      cbn [scan_drive]. unfold scan_put. cbn [groupby_ root_node_].
      rewrite groupby_put_previous_bucket; try assumption; [|lia].
      rewrite Hstep in Hrun, Hcount, Hbounds.
      rewrite Hrun, cursor_after_app. cbn [app].
      split; [reflexivity|].
      unfold count_markers, data_samples in *. cbn [List.filter].
      rewrite Hx. cbn [negb is_empty_marker marker_at with_timestamp EMPTY_SAMPLE
                         payload type PDataType_eqb length map timestamp].
      rewrite Hcount, Hsamples, Hbounds.
      split; [lia|]. split; [reflexivity|].
      rewrite (bucket_bounds_down_step s (prev / s)) by lia. reflexivity.
Qed.

(** Backward streams mirror forward ones.  For a stream of data samples
    with falling timestamps, none more than one bucket before the one before
    it, driven into a node that takes everything, the statement emits one
    marker for each bucket it leaves, stamped with the upper bound of that
    bucket: [ts_first / step - ts_last / step] markers in all, and the data
    samples pass through unchanged. *)
Theorem groupby_backward_marker_count (step : Z) (first : aku_Sample)
    (rest : list aku_Sample) (cur : Cursor) :
  let ts_first := timestamp first in
  let ts_last := last_of ts_first (map timestamp rest) in
  (0 < step)%Z -> (0 <= ts_last)%Z ->
  backward_dense step ts_first (map timestamp rest) = true ->
  (ts_first / step * step + step < U64_MOD)%Z ->
  (forall x, In x (first :: rest) -> is_empty_marker x = false) ->
  accepting cur ->
  exists out,
    scan_drive (first :: rest) (groupby_query step cur)
    = (true, {| groupby_ := groupby_at step (ts_last / step);
                root_node_ := cursor_after out cur |}) /\
    count_markers out = Z.to_nat (ts_first / step - ts_last / step) /\
    data_samples out = first :: rest /\
    map timestamp (List.filter is_empty_marker out)
    = bucket_bounds_down step (ts_first / step) (ts_last / step).
Proof.
  cbn zeta. intros Hs Hlast0 Hdense Hmax Hdata Hacc.
  pose proof (backward_dense_last step _ _ Hdense) as Hlast.
  destruct (scan_drive_backward_dense step rest (timestamp first)
              (cursor_after [first] cur))
    as [out [Hrun [Hcount [Hsamples Hbounds]]]]; try assumption.
  { intros x Hx. apply Hdata. right. exact Hx. }
  exists (first :: out). cbn [scan_drive]. unfold scan_put, groupby_query.
  cbn [groupby_ root_node_].
  rewrite groupby_put_first; try assumption; [|lia].
  rewrite Hrun, cursor_after_app. cbn [app]. split; [reflexivity|].
  assert (is_empty_marker first = false) as Hx by (apply Hdata; left; reflexivity).
  unfold count_markers, data_samples in *. cbn [List.filter].
  rewrite Hx. cbn [negb]. rewrite Hcount, Hsamples, Hbounds.
  repeat split; reflexivity.
Qed.

Lemma groupby_backward_marker_count_witness :
  exists out,
    scan_drive [value_sample 25 1; value_sample 12 1; value_sample 9 1]
      (groupby_query 10 (new_cursor accept_all))
    = (true, {| groupby_ := groupby_at 10 0;
                root_node_ := cursor_after out (new_cursor accept_all) |}) /\
    count_markers out = 2%nat /\
    map timestamp (List.filter is_empty_marker out) = [30; 20]%Z.
Proof.
  destruct (groupby_backward_marker_count 10 (value_sample 25 1)
              [value_sample 12 1; value_sample 9 1] (new_cursor accept_all))
    as [out [Hrun [Hcount [_ Hbounds]]]].
  - lia.
  - cbn. lia.
  - reflexivity.
  - vm_compute. reflexivity.
  - intros x Hx. cbn in Hx. destruct Hx as [<- | [<- | [<- | []]]]; reflexivity.
  - intros h s. reflexivity.
  - exists out. split; [exact Hrun|]. split; [exact Hcount|exact Hbounds].
Defined.

(** ** TerminalNode *)

(** Whatever the cursor answers, it is offered exactly the samples that are
    not MARGIN, in order: a MARGIN sample never reaches the cursor, and the
    node answers [true] for it. *)
Theorem terminal_swallows_margin (l : list aku_Sample) (t : TerminalNode) :
  offered (cursor (snd (put_each l t)))
  = offered (cursor t) ++ List.filter (fun s => negb (is_margin s)) l /\
  Forall2 (fun s ok => is_margin s = true -> ok = true) l (fst (put_each l t)).
Proof.
  revert t. induction l as [|s rest IH]; intros t.
  - cbn. rewrite app_nil_r. split; [reflexivity|constructor].
  - cbn [put_each List.filter]. cbn [put TerminalNode_node].
    unfold terminal_put, is_margin.
    destruct (PDataType_eqb (type (payload s)) MARGIN) eqn:Hm; cbn [negb].
    + destruct (IH t) as [Hoff Hans].
      destruct (put_each rest t) as [oks t']. cbn [fst snd] in *.
      split; [exact Hoff|]. constructor; [reflexivity|exact Hans].
    + destruct (IH {| cursor := snd (cursor_put s (cursor t)) |}) as [Hoff Hans].
      cbn [cursor_put fst snd] in *.
      destruct (put_each rest _) as [oks t']. cbn [fst snd] in *.
      split.
      * rewrite Hoff. cbn [cursor offered]. rewrite <- app_assoc. reflexivity.
      * constructor; [intros Habs; unfold is_margin in Habs; congruence|exact Hans].
Qed.

(** ** RandomSamplingNode below and at capacity *)

Section SamplingMore.
Context {G S : Type} {rand : Rand G} {nops : NodeOps S}.

Lemma rs_run_below_capacity (xs : list aku_Sample) :
  forall (n : RandomSamplingNode G S),
  (forall s, In s xs -> is_empty_marker s = false) ->
  (Z.of_nat (length (samples_ n) + length xs) <= buffer_size_ n)%Z ->
  rs_run xs n
  = Ok (true, {| buffer_size_ := buffer_size_ n; samples_ := samples_ n ++ xs;
                 random_ := random_ n; next_ := next_ n |}).
Proof.
  induction xs as [|x rest IH]; intros n Hdata Hlen.
  - cbn [rs_run]. rewrite app_nil_r. destruct n; reflexivity.
  - cbn [rs_run]. unfold rs_put.
    assert (is_empty_marker x = false) as Hx by (apply Hdata; left; reflexivity).
    unfold is_empty_marker in Hx. rewrite Hx.
    cbn [length] in Hlen.
    destruct (Z.ltb_spec (Z.of_nat (length (samples_ n))) (buffer_size_ n)); [|lia].
    cbn. rewrite IH.
    + cbn [buffer_size_ samples_ random_ next_]. rewrite <- app_assoc. reflexivity.
    + intros s Hs. apply Hdata. right. exact Hs.
    + cbn [buffer_size_ samples_]. rewrite length_app. cbn [length]. lia.
Qed.

Lemma rs_run_app (xs ys : list aku_Sample) :
  forall (n n1 : RandomSamplingNode G S),
  rs_run xs n = Ok (true, n1) -> rs_run (xs ++ ys) n = rs_run ys n1.
Proof.
  induction xs as [|x rest IH]; intros n n1 Hrun.
  - cbn in Hrun. injection Hrun as <-. reflexivity.
  - cbn [rs_run app] in *.
    destruct (rs_put x n) as [[ok n']|msg|w|w]; cbn in *; try discriminate.
    destruct ok; [apply IH; exact Hrun|discriminate].
Qed.

(** Whatever the generator draws, a data sample put into a node of positive
    capacity is in the buffer afterwards: below capacity it is appended, at
    capacity it takes the place of a buffered sample.  So after any run of
    data samples the one that arrived last is buffered, and the buffer never
    exceeds the capacity. *)
Theorem rs_run_keeps_last (xs : list aku_Sample) (s : aku_Sample)
    (n : RandomSamplingNode G S) :
  (0 < buffer_size_ n < U32_MOD)%Z ->
  (Z.of_nat (length (samples_ n)) <= buffer_size_ n)%Z ->
  (forall x, In x (xs ++ [s]) -> is_empty_marker x = false) ->
  exists n',
    rs_run (xs ++ [s]) n = Ok (true, n') /\
    In s (samples_ n') /\
    (Z.of_nat (length (samples_ n')) <= buffer_size_ n)%Z /\
    next_ n' = next_ n.
Proof.
  intros Hcap Hlen Hdata.
  destruct (rs_run_data xs n) as [n1 [Hrun [Hsize [Hnext [Hlen1 _]]]]];
    [intros x Hx; apply Hdata, in_or_app; left; exact Hx|assumption..|].
  assert (is_empty_marker s = false) as Hs
    by (apply Hdata, in_or_app; right; left; reflexivity).
  rewrite (rs_run_app xs [s] n n1 Hrun). cbn [rs_run].
  destruct (Z.ltb_spec (Z.of_nat (length (samples_ n1))) (buffer_size_ n1)) as [Hlt|Hge].
  - unfold rs_put. unfold is_empty_marker in Hs. rewrite Hs.
    apply Z.ltb_lt in Hlt. rewrite Hlt. cbn.
    eexists. split; [reflexivity|]. cbn [samples_ next_].
    split; [apply in_or_app; right; left; reflexivity|].
    split; [|exact Hnext].
    apply Z.ltb_lt in Hlt. rewrite length_app. cbn [length]. lia.
  - rewrite rs_put_full_replaces; [|exact Hs|lia|lia]. cbn.
    eexists. split; [reflexivity|]. cbn [samples_ next_].
    split; [|split; [rewrite length_insert; lia|exact Hnext]].
    destruct (wrap32_index (fst (rand_next (random_ n1))) (buffer_size_ n1)
                ltac:(lia)) as [_ Hix].
    apply list_elem_of_In. eapply list_elem_of_lookup_2.
    apply list_lookup_insert_eq. lia.
Qed.
End SamplingMore.

Section SamplingCursorMore.
Context {G : Type} {rand : Rand G}.

(** Up to the capacity nothing is sampled: [L <= C] data samples are
    buffered in arrival order without consulting the generator, and the
    marker that follows hands all [L] of them to the next node in
    (timestamp, paramid) order and empties the buffer; the marker itself is
    not forwarded. *)
Theorem rs_flush_below_capacity (n : RandomSamplingNode G Cursor)
    (xs : list aku_Sample) (marker : aku_Sample) :
  accepting (next_ n) ->
  samples_ n = [] ->
  (Z.of_nat (length xs) <= buffer_size_ n)%Z ->
  (forall s, In s xs -> is_empty_marker s = false) ->
  is_empty_marker marker = true ->
  rs_run (xs ++ [marker]) n
  = Ok (true, {| buffer_size_ := buffer_size_ n; samples_ := [];
                 random_ := random_ n;
                 next_ := cursor_after (stable_sort xs) (next_ n) |}) /\
  Permutation xs (stable_sort xs) /\
  StronglySorted sample_le (stable_sort xs).
Proof.
  intros Hacc Hempty Hlen Hdata Hmarker.
  split; [|split; [apply stable_sort_perm|apply stable_sort_sorted]].
  erewrite rs_run_app;
    [|apply rs_run_below_capacity; [exact Hdata|rewrite Hempty; cbn; lia]].
  cbn [rs_run]. unfold rs_put. unfold is_empty_marker in Hmarker. rewrite Hmarker.
  rewrite rs_flush_accepting by exact Hacc.
  cbn. rewrite Hempty. reflexivity.
Qed.

(** [complete] completes the next node exactly once and reports no error,
    whether or not the flush before it went through; when the next node
    refuses a sample the whole buffer is kept, sorted, and it is emptied
    otherwise. *)
Theorem rs_complete_completes_next (n : RandomSamplingNode G Cursor) :
  completed (next_ (rs_complete n)) = Datatypes.S (completed (next_ n)) /\
  errors (next_ (rs_complete n)) = errors (next_ n) /\
  samples_ (rs_complete n)
  = (if fst (put_all (stable_sort (samples_ n)) (next_ n))
     then [] else stable_sort (samples_ n)).
Proof.
  unfold rs_complete. rewrite rs_flush_outcome.
  cbn [buffer_size_ samples_ random_ next_ complete Cursor_node cursor_complete
       completed errors].
  rewrite put_all_completed. split; [reflexivity|]. split; [|reflexivity].
  generalize (next_ n). generalize (stable_sort (samples_ n)).
  intros l. induction l as [|s rest IH]; intros c; cbn [put_all]; [reflexivity|].
  cbn [put Cursor_node]. unfold cursor_put.
  destruct (accept c (offered c) s); [|reflexivity]. rewrite IH. reflexivity.
Qed.
End SamplingCursorMore.

Lemma rs_run_keeps_last_witness :
  exists n',
    rs_run [sample_a; sample_b; sample_c; sample_d]
      (RandomSamplingNode_new 2 [7; 4]%Z (new_cursor accept_all)) = Ok (true, n') /\
    In sample_d (samples_ n').
Proof.
  destruct (rs_run_keeps_last [sample_a; sample_b; sample_c] sample_d
              (RandomSamplingNode_new 2 [7; 4]%Z (new_cursor accept_all)))
    as [n' [Hrun [Hin _]]].
  - cbn. unfold U32_MOD. lia.
  - cbn. lia.
  - intros x Hx. cbn in Hx.
    destruct Hx as [<- | [<- | [<- | [<- | []]]]]; reflexivity.
  - exists n'. split; [exact Hrun|exact Hin].
Defined.

Lemma rs_flush_below_capacity_witness :
  rs_run [sample_c; sample_a; with_timestamp 10 EMPTY_SAMPLE]
    (RandomSamplingNode_new 3 [5]%Z (new_cursor accept_all))
  = Ok (true, {| buffer_size_ := 3; samples_ := []; random_ := [5]%Z;
                 next_ := cursor_after [sample_a; sample_c]
                            (new_cursor accept_all) |}).
Proof.
  apply (rs_flush_below_capacity
           (RandomSamplingNode_new 3 [5]%Z (new_cursor accept_all))
           [sample_c; sample_a] (with_timestamp 10 EMPTY_SAMPLE)).
  - intros h s. reflexivity.
  - reflexivity.
  - cbn. lia.
  - intros s Hs. cbn in Hs. destruct Hs as [<- | [<- | []]]; reflexivity.
  - reflexivity.
Defined.

(** ** Display names written by the group-aggregate and join parsers *)

Lemma string_append_assoc (a b c : string) :
  ((a ++ b) ++ c)%string = (a ++ b ++ c)%string.
Proof.
  induction a as [|ch a IH]; [reflexivity|].
  change (String ch ((a ++ b) ++ c)%string = String ch (a ++ b ++ c)%string).
  rewrite IH. reflexivity.
Qed.

Lemma string_append_nil_r (a : string) : (a ++ "")%string = a.
Proof.
  induction a as [|ch a IH]; [reflexivity|].
  change (String ch (a ++ "")%string = String ch a). rewrite IH. reflexivity.
Qed.

Section DisplayNameFacts.
Context {penv : ParserEnv} {M : Type} {mops : SeriesMatcherOps M}.

Lemma func_names_str_concat (metric_name : string)
    (funcs : list AggregationFunction) :
  func_names_str metric_name true funcs = function_names metric_name funcs.
Proof.
  unfold function_names. induction funcs as [|f rest IH]; [reflexivity|].
  cbn [func_names_str map String.concat].
  destruct rest as [|g rest'].
  - cbn [func_names_str map].
    change (metric_name ++ ":" ++ Aggregation_to_string f ++ "" = metric_name ++ ":" ++ Aggregation_to_string f)%string.
    rewrite string_append_nil_r. reflexivity.
  - change (func_names_str metric_name false (g :: rest'))
      with ("|" ++ func_names_str metric_name true (g :: rest'))%string.
    rewrite IH. cbn [map]. rewrite !string_append_assoc. reflexivity.
Qed.

Lemma metric_names_str_concat (metrics : list string) :
  metric_names_str true metrics = String.concat "|" metrics.
Proof.
  induction metrics as [|m rest IH]; [reflexivity|].
  cbn [metric_names_str String.concat]. destruct rest as [|g rest'].
  - change (m ++ "" = m)%string. apply string_append_nil_r.
  - change (metric_names_str false (g :: rest'))
      with ("|" ++ metric_names_str true (g :: rest'))%string.
    rewrite IH. reflexivity.
Qed.

Lemma init_group_aggregate_loop_names (gm : M) (metric_name : string)
    (funcs : list AggregationFunction) (l : list aku_ParamId) : forall (m : M),
  (named_after gm metric_name l = true ->
   init_group_aggregate_loop gm metric_name funcs l m
   = (AKU_SUCCESS,
      renamed_series gm (function_names metric_name funcs)
        (String.length metric_name) l m)) /\
  (named_after gm metric_name l = false ->
   fst (init_group_aggregate_loop gm metric_name funcs l m) = AKU_EBAD_DATA).
Proof.
  unfold named_after.
  induction l as [|id rest IH]; intros m; cbn [init_group_aggregate_loop forallb].
  - split; [reflexivity|discriminate].
  - destruct (String.prefix metric_name (id2str gm id)); cbn [negb andb].
    + rewrite func_names_str_concat. exact (IH _).
    + split; [discriminate|reflexivity].
Qed.

Lemma init_join_loop_names (gm : M) (metrics : list string)
    (l : list aku_ParamId) : forall (m : M),
  (named_after gm (hd ""%string metrics) l = true ->
   init_join_loop gm metrics l m
   = (AKU_SUCCESS,
      renamed_series gm (String.concat "|" metrics)
        (String.length (hd ""%string metrics)) l m)) /\
  (named_after gm (hd ""%string metrics) l = false ->
   fst (init_join_loop gm metrics l m) = AKU_EBAD_DATA).
Proof.
  unfold named_after.
  induction l as [|id rest IH]; intros m; cbn [init_join_loop forallb].
  - split; [reflexivity|discriminate].
  - destruct (String.prefix (hd ""%string metrics) (id2str gm id)); cbn [negb andb].
    + rewrite metric_names_str_concat. exact (IH _).
    + split; [discriminate|reflexivity].
Qed.

(** A group-aggregate query without `group-by` tags whose statement, where
    clause, range and order are in order is answered with [AKU_SUCCESS]
    whatever the initialisation of the matcher reports: the status of
    [init_matcher_in_group_aggregate] is overwritten.  The request carries
    the one column the where clause selected.  When every series of it is
    named after the metric, its matcher names each of them
    [m:f1|m:f2|...] followed by the tags of the series; when the catalogue
    name of one selected series does not start with the metric, the request
    has no matcher at all. *)
Theorem parse_group_aggregate_query_names (p : ptree) (matcher : M)
    (gagg : GroupAggregate AggregationFunction) (l : list aku_ParamId) :
  validate_query p = AKU_SUCCESS ->
  parse_group_aggregate_stmt p = (AKU_SUCCESS, gagg) ->
  ga_step gagg <> 0%Z ->
  parse_groupby p = (AKU_SUCCESS, []) ->
  parse_where_clause p [ga_metric gagg] matcher = Ok (AKU_SUCCESS, l) ->
  fst (fst (parse_range_timestamp p)) = AKU_SUCCESS ->
  fst (parse_orderby p) = AKU_SUCCESS ->
  exists req,
    parse_group_aggregate_query p matcher = Ok (AKU_SUCCESS, req) /\
    columns (select req) = [ {| ids := l |} ] /\
    agg_func (agg req) = ga_func gagg /\
    agg_step (agg req) = ga_step gagg /\
    gb_enabled (group_by req) = false /\
    fst (init_group_aggregate_loop matcher (ga_metric gagg) (ga_func gagg) l
           matcher_new)
    = (if named_after matcher (ga_metric gagg) l
       then AKU_SUCCESS else AKU_EBAD_DATA) /\
    sel_matcher (select req)
    = if named_after matcher (ga_metric gagg) l
      then Some (renamed_series matcher
                   (function_names (ga_metric gagg) (ga_func gagg))
                   (String.length (ga_metric gagg)) l matcher_new)
      else None.
Proof.
  intros Hvalid Hstmt Hstep Hgroupby Hwhere Hrange Horder.
  unfold parse_group_aggregate_query. rewrite Hvalid, Hstmt.
  destruct (ga_func gagg) as [|f fs] eqn:Hf;
    [apply parse_group_aggregate_stmt_func_nonempty in Hstmt; congruence|].
  destruct (Z.eqb_spec (ga_step gagg) 0) as [|_]; [contradiction|].
  rewrite Hgroupby. cbn [make_groupbytag]. rewrite Hwhere. cbn.
  destruct (parse_range_timestamp p) as [[st b] e]. cbn [fst] in Hrange. subst st.
  destruct (parse_orderby p) as [st order]. cbn [fst] in Horder. subst st.
  cbn.
  destruct (init_group_aggregate_loop_names matcher (ga_metric gagg) (f :: fs) l
              matcher_new) as [Hgood Hbad].
  destruct (named_after matcher (ga_metric gagg) l).
  - rewrite (Hgood eq_refl). cbn. eexists. split; [reflexivity|].
    cbn. repeat split; reflexivity.
  - specialize (Hbad eq_refl).
    destruct (init_group_aggregate_loop _ _ _ _ _) as [ist im].
    cbn in Hbad. subst ist. cbn. eexists. split; [reflexivity|].
    cbn. repeat split; reflexivity.
Qed.

(** The matcher of a join request: with fewer than two columns, or a number
    of columns other than the number of metrics, [AKU_EBAD_ARG]; when a
    series of the first column is not named after the first metric,
    [AKU_EBAD_DATA]; in both cases the matcher of the request is left as it
    was.  Otherwise every series of the first column is named
    [m1|m2|...] followed by the tags it has under the first metric. *)
Theorem init_matcher_in_join_query_names (cols : list Column) (old : option M)
    (gm : M) (metrics : list string) :
  init_matcher_in_join_query cols old gm metrics
  = if (length cols <? 2)%nat || negb (length cols =? length metrics)%nat
    then (AKU_EBAD_ARG, old)
    else if named_after gm (hd ""%string metrics) (ids (hd {| ids := [] |} cols))
    then (AKU_SUCCESS,
          Some (renamed_series gm (String.concat "|" metrics)
                  (String.length (hd ""%string metrics))
                  (ids (hd {| ids := [] |} cols)) matcher_new))
    else (AKU_EBAD_DATA, old).
Proof.
  unfold init_matcher_in_join_query.
  destruct (length cols <? 2)%nat; [reflexivity|].
  destruct (length cols =? length metrics)%nat; [|reflexivity]. cbn [negb orb].
  destruct (init_join_loop_names gm metrics (ids (hd {| ids := [] |} cols))
              matcher_new) as [Hgood Hbad].
  destruct (named_after gm (hd ""%string metrics) (ids (hd {| ids := [] |} cols))).
  - rewrite (Hgood eq_refl). reflexivity.
  - specialize (Hbad eq_refl).
    destruct (init_join_loop _ _ _ _) as [ist im]. cbn in Hbad. subst ist.
    reflexivity.
Qed.
End DisplayNameFacts.

Lemma parse_group_aggregate_query_names_witness :
  (exists req,
     parse_group_aggregate_query (penv := sample_env) group_aggregate_query
       catalogue = Ok (AKU_SUCCESS, req) /\
     sel_matcher (select req)
     = Some [("cpu:min|cpu:max host=a"%string, 1%Z);
             ("cpu:min|cpu:max host=b"%string, 2%Z)]) /\
  (exists req,
     parse_group_aggregate_query (penv := sample_env) group_aggregate_query
       aliased_catalogue = Ok (AKU_SUCCESS, req) /\
     fst (init_group_aggregate_loop (penv := sample_env) aliased_catalogue
            "cpu" [F_MIN; F_MAX] [1%Z] matcher_new) = AKU_EBAD_DATA /\
     sel_matcher (select req) = None).
Proof.
  split.
  - destruct (parse_group_aggregate_query_names (penv := sample_env)
                group_aggregate_query catalogue
                {| ga_metric := "cpu"; ga_func := [F_MIN; F_MAX];
                   ga_step := 100000000 |} [1; 2]%Z)
      as [req [Hrun [_ [_ [_ [_ [_ Hm]]]]]]];
      try reflexivity; [discriminate|].
    exists req. split; [exact Hrun|]. etransitivity; [exact Hm|]. reflexivity.
  - destruct (parse_group_aggregate_query_names (penv := sample_env)
                group_aggregate_query aliased_catalogue
                {| ga_metric := "cpu"; ga_func := [F_MIN; F_MAX];
                   ga_step := 100000000 |} [1]%Z)
      as [req [Hrun [_ [_ [_ [_ [Hinit Hm]]]]]]];
      try reflexivity; [discriminate|].
    exists req. split; [exact Hrun|].
    split; [etransitivity; [exact Hinit|]; reflexivity|].
    etransitivity; [exact Hm|]. reflexivity.
Defined.

(** ** The constructor of ScanQueryProcessor *)

Section ScanConstructorFacts.
Context {flags : NodeFlags} {S : Type}.
Variable get_requirements : S -> Z.

Lemma check_group_by_outcome (nodes : list S) :
  (check_group_by get_requirements nodes = Ok tt /\
   Forall (fun ptr => requires_group_by get_requirements ptr = false) nodes) \/
  (check_group_by get_requirements nodes = Throw "`group_by` required" /\
   Exists (fun ptr => requires_group_by get_requirements ptr = true) nodes).
Proof.
  induction nodes as [|ptr rest IH]; cbn [check_group_by].
  - left. split; [reflexivity|constructor].
  - destruct (requires_group_by get_requirements ptr) eqn:Hreq.
    + right. split; [reflexivity|]. apply Exists_cons_hd. exact Hreq.
    + destruct IH as [[Hok Hall]|[Hthrow Hex]].
      * left. split; [exact Hok|]. constructor; assumption.
      * right. split; [exact Hthrow|]. apply Exists_cons_tl. exact Hex.
Qed.

Lemma check_sampling_order_counted (rnodes : list S) : forall (nnormal : Z),
  (0 < nnormal)%Z ->
  (check_sampling_order get_requirements rnodes nnormal = Ok tt /\
   Forall (fun ptr => is_terminal get_requirements ptr = false) rnodes) \/
  (check_sampling_order get_requirements rnodes nnormal
   = Throw "invalid sampling order" /\
   Exists (fun ptr => is_terminal get_requirements ptr = true) rnodes).
Proof.
  induction rnodes as [|it rest IH]; intros nnormal Hpos;
    cbn [check_sampling_order].
  - left. split; [reflexivity|constructor].
  - destruct (is_terminal get_requirements it) eqn:Hterm.
    + destruct (Z.eqb_spec nnormal 0) as [|_]; [lia|]. cbn [negb].
      right. split; [reflexivity|]. apply Exists_cons_hd. exact Hterm.
    + destruct (IH (nnormal + 1)%Z ltac:(lia)) as [[Hok Hall]|[Hthrow Hex]].
      * left. split; [exact Hok|]. constructor; assumption.
      * right. split; [exact Hthrow|]. apply Exists_cons_tl. exact Hex.
Qed.

Lemma check_sampling_order_outcome (rnodes : list S) :
  (check_sampling_order get_requirements rnodes 0 = Ok tt /\
   exists terminals normal,
     rnodes = terminals ++ normal /\
     Forall (fun ptr => is_terminal get_requirements ptr = true) terminals /\
     Forall (fun ptr => is_terminal get_requirements ptr = false) normal) \/
  (check_sampling_order get_requirements rnodes 0
   = Throw "invalid sampling order" /\
   exists front ptr back,
     rnodes = front ++ ptr :: back /\
     Exists (fun ptr => is_terminal get_requirements ptr = false) front /\
     is_terminal get_requirements ptr = true).
Proof.
  induction rnodes as [|it rest IH]; cbn [check_sampling_order].
  - left. split; [reflexivity|]. exists [], []. repeat split; constructor.
  - destruct (is_terminal get_requirements it) eqn:Hterm.
    + cbn. destruct IH as [[Hok [ts [ns [-> [Hts Hns]]]]]
                          |[Hthrow [front [ptr [back [-> [Hfront Hptr]]]]]]].
      * left. split; [exact Hok|]. exists (it :: ts), ns.
        split; [reflexivity|]. split; [constructor; assumption|exact Hns].
      * right. split; [exact Hthrow|]. exists (it :: front), ptr, back.
        split; [reflexivity|]. split; [apply Exists_cons_tl; exact Hfront|exact Hptr].
    + cbn. destruct (check_sampling_order_counted rest 1%Z ltac:(lia))
        as [[Hok Hall]|[Hthrow Hex]].
      * left. split; [exact Hok|]. exists [], (it :: rest).
        split; [reflexivity|]. split; constructor; assumption.
      * right. split; [exact Hthrow|].
        apply List.Exists_exists in Hex as [ptr [Hin Hptr]].
        apply in_split in Hin as [l1 [l2 ->]].
        exists (it :: l1), ptr, l2. split; [reflexivity|].
        split; [apply Exists_cons_hd; exact Hterm|exact Hptr].
Qed.

Lemma terminals_last_rev (nodes : list S) :
  terminals_last get_requirements nodes <->
  exists terminals normal,
    rev nodes = terminals ++ normal /\
    Forall (fun ptr => is_terminal get_requirements ptr = true) terminals /\
    Forall (fun ptr => is_terminal get_requirements ptr = false) normal.
Proof.
  unfold terminals_last. split.
  - intros [normal [terminals [-> [Hn Ht]]]].
    exists (rev terminals), (rev normal). rewrite rev_app_distr.
    split; [reflexivity|]. split; apply List.Forall_rev; assumption.
  - intros [terminals [normal [Hrev [Ht Hn]]]].
    exists (rev normal), (rev terminals).
    split; [|split; apply List.Forall_rev; assumption].
    rewrite <- rev_app_distr, <- Hrev, rev_involutive. reflexivity.
Qed.

Lemma not_terminals_last (nodes front back : list S) (ptr : S) :
  rev nodes = front ++ ptr :: back ->
  Exists (fun ptr => is_terminal get_requirements ptr = false) front ->
  is_terminal get_requirements ptr = true ->
  ~ terminals_last get_requirements nodes.
Proof.
  intros Hrev Hfront Hptr Hlast.
  apply terminals_last_rev in Hlast as [ts [ns [Heq [Hts Hns]]]].
  rewrite Hrev in Heq.
  apply List.Exists_exists in Hfront as [x [Hx Hnormal]].
  apply in_split in Hx as [f1 [f2 ->]].
  rewrite <- !app_assoc in Heq. cbn in Heq.
  (* x is normal and comes before the terminal ptr *)
  assert (forall (ts : list S) f1 rest,
            f1 ++ x :: rest = ts ++ ns ->
            Forall (fun p => is_terminal get_requirements p = true) ts ->
            exists k, rest = k ++ ns \/ exists pre, ns = pre ++ x :: rest) as Hsplit.
  { clear. intros ts. induction ts as [|t ts IH]; intros f1 rest Heq Hts.
    - exists []. right. exists f1. cbn in Heq. symmetry. exact Heq.
    - destruct f1 as [|f f1]; cbn in Heq.
      + injection Heq as -> Hrest. exists ts. left. exact Hrest.
      + injection Heq as _ Hrest. apply Forall_cons in Hts as [_ Hts].
        exact (IH f1 rest Hrest Hts). }
  destruct (Hsplit ts f1 (f2 ++ ptr :: back) Heq Hts) as [k [Hk|[pre Hpre]]].
  - (* x itself lies in ts: contradiction with Hts *)
    assert (In x ts) as Hin.
    { assert (f1 ++ x :: k ++ ns = ts ++ ns) as Hcut by (rewrite <- Hk; exact Heq).
      change (f1 ++ x :: k ++ ns) with (f1 ++ (x :: k) ++ ns) in Hcut.
      rewrite app_assoc in Hcut. apply app_inv_tail in Hcut. subst ts.
      apply in_or_app. right. left. reflexivity. }
    rewrite List.Forall_forall in Hts. specialize (Hts x Hin). congruence.
  - (* ptr lies in ns: contradiction with Hns *)
    assert (In ptr ns) as Hin.
    { rewrite Hpre. apply in_or_app. right. right.
      apply in_or_app. right. left. reflexivity. }
    rewrite List.Forall_forall in Hns. specialize (Hns ptr Hin). congruence.
Qed.

(** The constructor aborts on an empty node list.  Otherwise it throws
    "`group_by` required" when the group-by statement is empty and some node
    requires one, whatever the order of the nodes; failing that it throws
    "invalid sampling order" exactly when a terminal node stands before a
    node that is not terminal.  When neither happens the object is built:
    its root is the first node, its bounds are the smaller and the larger of
    the two timestamps, and it runs backward exactly when [begin > end]. *)
Theorem scan_constructor_outcome (nodes : list S) (begin_ end_ : aku_Timestamp)
    (groupby : GroupByStatement) :
  match ScanQueryProcessor_new get_requirements nodes begin_ end_ groupby with
  | Panic msg => nodes = [] /\ msg = "`nodes` shouldn't be empty"%string
  | Throw what =>
      nodes <> [] /\
      ((what = "`group_by` required"%string /\ step_ groupby = 0%Z /\
        Exists (fun ptr => requires_group_by get_requirements ptr = true) nodes) \/
       (what = "invalid sampling order"%string /\
        (step_ groupby = 0%Z ->
         Forall (fun ptr => requires_group_by get_requirements ptr = false) nodes) /\
        ~ terminals_last get_requirements nodes))
  | Ok q =>
      (step_ groupby = 0%Z ->
       Forall (fun ptr => requires_group_by get_requirements ptr = false) nodes) /\
      terminals_last get_requirements nodes /\
      head nodes = Some (root_node_ (scan_processor q)) /\
      groupby_ (scan_processor q) = groupby /\
      (scan_lowerbound_ q <= scan_upperbound_ q)%Z /\
      ((scan_direction_ q = AKU_CURSOR_DIR_FORWARD /\
        scan_lowerbound_ q = begin_ /\ scan_upperbound_ q = end_) \/
       (scan_direction_ q = AKU_CURSOR_DIR_BACKWARD /\ (end_ < begin_)%Z /\
        scan_lowerbound_ q = end_ /\ scan_upperbound_ q = begin_))
  | Undefined _ => False
  end.
Proof.
  unfold ScanQueryProcessor_new. destruct nodes as [|root rest].
  { split; reflexivity. }
  set (nodes := root :: rest).
  assert (nodes <> []) as Hne by discriminate.
  assert ((step_ groupby = 0%Z ->
           Forall (fun ptr => requires_group_by get_requirements ptr = false) nodes)
          -> match (_ ← check_sampling_order get_requirements (rev nodes) 0;
                    Ok {| scan_lowerbound_ := Z.min begin_ end_;
                          scan_upperbound_ := Z.max begin_ end_;
                          scan_direction_ :=
                            if (end_ <? begin_)%Z then AKU_CURSOR_DIR_BACKWARD
                            else AKU_CURSOR_DIR_FORWARD;
                          scan_processor :=
                            {| groupby_ := groupby; root_node_ := root |} |})
             with
             | Panic msg => nodes = [] /\ msg = "`nodes` shouldn't be empty"%string
             | Throw what =>
                 nodes <> [] /\
                 ((what = "`group_by` required"%string /\ step_ groupby = 0%Z /\
                   Exists (fun ptr => requires_group_by get_requirements ptr = true)
                     nodes) \/
                  (what = "invalid sampling order"%string /\
                   (step_ groupby = 0%Z ->
                    Forall (fun ptr => requires_group_by get_requirements ptr = false)
                      nodes) /\
                   ~ terminals_last get_requirements nodes))
             | Ok q =>
                 (step_ groupby = 0%Z ->
                  Forall (fun ptr => requires_group_by get_requirements ptr = false)
                    nodes) /\
                 terminals_last get_requirements nodes /\
                 head nodes = Some (root_node_ (scan_processor q)) /\
                 groupby_ (scan_processor q) = groupby /\
                 (scan_lowerbound_ q <= scan_upperbound_ q)%Z /\
                 ((scan_direction_ q = AKU_CURSOR_DIR_FORWARD /\
                   scan_lowerbound_ q = begin_ /\ scan_upperbound_ q = end_) \/
                  (scan_direction_ q = AKU_CURSOR_DIR_BACKWARD /\ (end_ < begin_)%Z /\
                   scan_lowerbound_ q = end_ /\ scan_upperbound_ q = begin_))
             | Undefined _ => False
             end) as Horder.
  { intros Hgb.
    destruct (check_sampling_order_outcome (rev nodes))
      as [[Hok Hsplit]|[Hthrow [front [ptr [back [Hrev [Hfront Hptr]]]]]]].
    - rewrite Hok. cbn.
      split; [exact Hgb|]. split; [apply terminals_last_rev; exact Hsplit|].
      split; [reflexivity|]. split; [reflexivity|]. split; [lia|].
      destruct (Z.ltb_spec end_ begin_).
      + right. repeat split; lia.
      + left. repeat split; lia.
    - rewrite Hthrow. cbn. split; [exact Hne|]. right.
      split; [reflexivity|]. split; [exact Hgb|].
      eapply not_terminals_last; eassumption. }
  unfold groupby_empty. destruct (Z.eqb_spec (step_ groupby) 0) as [Hzero|Hstep].
  - destruct (check_group_by_outcome nodes) as [[Hok Hall]|[Hthrow Hex]].
    + rewrite Hok. apply Horder. intros _. exact Hall.
    + rewrite Hthrow. cbn. split; [exact Hne|]. left.
      split; [reflexivity|]. split; [exact Hzero|exact Hex].
  - apply Horder. intros Habs. contradiction.
Qed.
End ScanConstructorFacts.

(** ** Builder::build_query_processor *)

Lemma last_cons_swap {A : Type} (l : list A) : forall (x d : A),
  List.last (x :: l) d = List.last l x.
Proof.
  induction l as [|y l IH]; intros x d; [reflexivity|].
  change (List.last (y :: l) d = List.last (y :: l) x).
  rewrite !IH. reflexivity.
Qed.

Section BuilderFacts.
Context {penv : ParserEnv} {flags : NodeFlags} {N F : Type}
        {benv : Builder.BuilderEnv N F}.

Lemma range_child_first (name : string) (items : list (string * ptree))
    (ts : aku_Timestamp) :
  Builder.range_child items name = Ok ts ->
  exists rest, parsed_stamps name items = ts :: rest.
Proof.
  induction items as [|[k child] rest IH]; cbn [Builder.range_child parsed_stamps];
    [discriminate|].
  destruct (String.eqb k name); [|exact IH].
  destruct (from_iso_string (pt_data child)) as [t|]; [|discriminate].
  intros Heq. injection Heq as ->. eexists. reflexivity.
Qed.

Lemma where_items_last (metric : string) (items : list (string * ptree)) :
  forall (result0 r : option F),
  Builder.where_items metric items result0 = Ok r ->
  match last items with
  | None => r = result0
  | Some item =>
      exists f, r = Some f /\
        Builder.RegexFilter_new
          (Builder.series_regexp metric (fst item) (snd item)) = Ok f
  end.
Proof.
  induction items as [|[tag idslist] rest IH]; intros result0 r;
    cbn [Builder.where_items].
  - intros Heq. injection Heq as <-. reflexivity.
  - destruct (Builder.RegexFilter_new (Builder.series_regexp metric tag idslist))
      as [f| | |] eqn:Hf; cbn; try discriminate.
    intros Hrest. specialize (IH _ _ Hrest).
    destruct rest as [|item rest'].
    + cbn in IH |- *. exists f. split; [exact IH|exact Hf].
    + change (last ((tag, idslist) :: item :: rest')) with (last (item :: rest')).
      destruct (last (item :: rest')) eqn:Hl; [exact IH|].
      apply last_None in Hl. discriminate.
Qed.

Lemma sampler_chain_last (children : list (string * ptree)) (terminal : N) :
  forall nodes,
  Builder.sampler_chain children terminal = Ok nodes ->
  last nodes = Some terminal.
Proof.
  induction children as [|i rest IH]; intros nodes; cbn [Builder.sampler_chain].
  - intros Heq. injection Heq as <-. reflexivity.
  - destruct (Builder.sampler_chain rest terminal) as [ns| | |]; cbn;
      try discriminate.
    destruct (Builder.make_sampler (snd i) (hd terminal ns)) as [n| | |]; cbn;
      try discriminate.
    intros Heq. injection Heq as <-. specialize (IH ns eq_refl).
    destruct ns as [|x ns']; [discriminate|]. exact IH.
Qed.

Lemma sampler_chain_failed (pre post : list (string * ptree)) (terminal : N) :
  (forall nodes, Builder.sampler_chain post terminal <> Ok nodes) ->
  Builder.sampler_chain (pre ++ post) terminal
  = Builder.sampler_chain post terminal.
Proof.
  intros Hfail. induction pre as [|i pre IH]; [reflexivity|].
  cbn [app Builder.sampler_chain]. rewrite IH.
  destruct (Builder.sampler_chain post terminal) as [ns| | |]; cbn;
    [exfalso; exact (Hfail ns eq_refl)|reflexivity..].
Qed.

Lemma make_samplers_chain (terminal : N) (pre : list (string * ptree)) :
  forall (post : list (string * ptree)) (nodes_post : list N),
  Builder.sampler_chain post terminal = Ok nodes_post ->
  (allnodes ← Builder.make_samplers (rev pre) (hd terminal nodes_post)
                 (rev nodes_post);
   Ok (rev allnodes))
  = Builder.sampler_chain (pre ++ post) terminal.
Proof.
  induction pre as [|c pre IH] using rev_ind; intros post nodes_post Hpost.
  - cbn. rewrite rev_involutive. symmetry. exact Hpost.
  - rewrite rev_app_distr. cbn [rev app Builder.make_samplers snd].
    rewrite <- app_assoc. cbn [app].
    destruct (Builder.make_sampler (snd c) (hd terminal nodes_post))
      as [n|msg|w|w] eqn:Hn.
    + cbn. rewrite <- (IH (c :: post) (n :: nodes_post)).
      * reflexivity.
      * cbn [Builder.sampler_chain]. rewrite Hpost. cbn. rewrite Hn. reflexivity.
    + cbn. rewrite sampler_chain_failed.
      * cbn [Builder.sampler_chain]. rewrite Hpost. cbn. rewrite Hn. reflexivity.
      * intros nodes. cbn [Builder.sampler_chain]. rewrite Hpost. cbn.
        rewrite Hn. discriminate.
    + cbn. rewrite sampler_chain_failed.
      * cbn [Builder.sampler_chain]. rewrite Hpost. cbn. rewrite Hn. reflexivity.
      * intros nodes. cbn [Builder.sampler_chain]. rewrite Hpost. cbn.
        rewrite Hn. discriminate.
    + cbn. rewrite sampler_chain_failed.
      * cbn [Builder.sampler_chain]. rewrite Hpost. cbn. rewrite Hn. reflexivity.
      * intros nodes. cbn [Builder.sampler_chain]. rewrite Hpost. cbn.
        rewrite Hn. discriminate.
Qed.

Lemma ScanQueryProcessor_new_ok (nodes : list N) (b e : aku_Timestamp)
    (g : GroupByStatement) (q : ScanQuery (S := N)) :
  ScanQueryProcessor_new Builder.get_requirements nodes b e g = Ok q ->
  terminals_last Builder.get_requirements nodes /\
  head nodes = Some (root_node_ (scan_processor q)) /\
  groupby_ (scan_processor q) = g /\
  scan_lowerbound_ q = Z.min b e /\ scan_upperbound_ q = Z.max b e.
Proof.
  unfold ScanQueryProcessor_new. destruct nodes as [|root rest]; [discriminate|].
  set (nodes := root :: rest).
  destruct (if groupby_empty g
            then check_group_by Builder.get_requirements nodes
            else Ok tt) as [[]| | |];
    unfold mbind, outcome_mbind, outcome_bind; try discriminate.
  destruct (check_sampling_order_outcome Builder.get_requirements (rev nodes))
    as [[Hok Hsplit]|[Hthrow _]].
  - rewrite Hok. intros Heq. injection Heq as <-. cbn.
    split; [apply terminals_last_rev; exact Hsplit|]. repeat split.
  - rewrite Hthrow. discriminate.
Qed.

(** The reader of the older builder returns the first `from` (or `to`)
    child of `range`, while the parser of queryparser.cpp keeps the last
    readable one: whenever the older reader answers for both bounds, the
    newer parser accepts the same document, and it returns the last stamps
    of the lists whose first stamps the older reader returned. *)
Theorem builder_range_reads_first_child (p : ptree)
    (ts_begin ts_end : aku_Timestamp) :
  Builder.parse_range_timestamp p "from" = Ok ts_begin ->
  Builder.parse_range_timestamp p "to" = Ok ts_end ->
  exists range froms tos,
    get_child_optional "range" p = Some range /\
    parsed_stamps "from" (pt_children range) = ts_begin :: froms /\
    parsed_stamps "to" (pt_children range) = ts_end :: tos /\
    parse_range_timestamp p
    = (AKU_SUCCESS, List.last froms ts_begin, List.last tos ts_end).
Proof.
  unfold Builder.parse_range_timestamp, parse_range_timestamp.
  destruct (get_child_optional "range" p) as [range|]; [|discriminate].
  intros Hfrom Hto.
  apply range_child_first in Hfrom as [froms Hfroms].
  apply range_child_first in Hto as [tos Htos].
  exists range, froms, tos. split; [reflexivity|].
  split; [exact Hfroms|]. split; [exact Htos|].
  rewrite range_loop_parsed, Hfroms, Htos, !last_cons_swap. reflexivity.
Qed.

(** Every child of `where` builds a filter and replaces the one before it:
    the filter returned is the one of the last child, a `where` without
    children returns no filter at all (a null pointer), and a query without
    `where` is filtered by the metric alone, any metric when none is named.
    A child that holds a plain value instead of a list contributes the
    expression [")"]. *)
Theorem builder_where_last_child (p : ptree) (metric pred : string)
    (result : option F) :
  Builder.parse_where_clause p metric pred = Ok result ->
  let name := if String.eqb metric "" then "\w+"%string else metric in
  match get_child_optional "where" p with
  | None =>
      exists f, result = Some f /\
        Builder.RegexFilter_new (name ++ "(\s\w+=\w+)*")%string = Ok f
  | Some where_ =>
      match last (pt_children where_) with
      | None => result = None
      | Some item =>
          exists f, result = Some f /\
            Builder.RegexFilter_new
              (Builder.series_regexp name (fst item) (snd item)) = Ok f /\
            (pt_children (snd item) = [] ->
             Builder.series_regexp name (fst item) (snd item) = ")"%string)
      end
  end.
Proof.
  unfold Builder.parse_where_clause. cbn zeta.
  destruct (get_child_optional "where" p) as [where_|].
  - intros Hitems. apply where_items_last in Hitems.
    destruct (last (pt_children where_)) as [item|]; [|exact Hitems].
    destruct Hitems as [f [Hr Hf]]. exists f. split; [exact Hr|].
    split; [exact Hf|]. intros Hleaf. unfold Builder.series_regexp.
    rewrite Hleaf. reflexivity.
  - destruct (Builder.RegexFilter_new _) as [f| | |] eqn:Hf; cbn;
      try discriminate.
    intros Heq. injection Heq as <-. exists f. split; reflexivity.
Qed.

(** What the builder returns.  A metadata processor is returned only for a
    childless `select` holding [names] in a query without `sample`; its root
    is the terminal node, and neither `range` nor the samplers are looked
    at.  A scan processor is returned only when both bounds of `range` were
    read; its nodes are the samplers of `sample` linked in the order of the
    list and closed by the terminal node, its root is the first of them, and
    no terminal node stands before a node that is not terminal. *)
Theorem build_query_processor_result (p : ptree) (terminal : N)
    (r : Builder.QueryProcessor N F) :
  Builder.build_query_processor p terminal = Ok r ->
  match r with
  | Builder.Metadata filter root =>
      root = terminal /\
      get_child_optional "sample" p = None /\
      Builder.parse_select_stmt p = Ok (Some "names"%string) /\
      Builder.parse_where_clause p (Builder.parse_metric p) "in" = Ok filter
  | Builder.Scan q metric filter =>
      exists nodes ts_begin ts_end,
        Builder.sampler_chain
          (match get_child_optional "sample" p with
           | Some params => pt_children params
           | None => []
           end) terminal = Ok nodes /\
        head nodes = Some (root_node_ (scan_processor q)) /\
        last nodes = Some terminal /\
        terminals_last Builder.get_requirements nodes /\
        Builder.parse_select_stmt p = Ok None /\
        Builder.parse_range_timestamp p "from" = Ok ts_begin /\
        Builder.parse_range_timestamp p "to" = Ok ts_end /\
        scan_lowerbound_ q = Z.min ts_begin ts_end /\
        scan_upperbound_ q = Z.max ts_begin ts_end /\
        Builder.parse_groupby p = Ok (groupby_ (scan_processor q)) /\
        metric = Builder.parse_metric p /\
        Builder.parse_where_clause p metric "in" = Ok filter
  end.
Proof.
  unfold Builder.build_query_processor.
  destruct (Builder.parse_groupby p) as [g| | |]; cbn; try discriminate.
  destruct (Builder.parse_select_stmt p) as [select| | |] eqn:Hsel; cbn;
    try discriminate.
  destruct (Builder.parse_where_clause p (Builder.parse_metric p) "in")
    as [filter| | |] eqn:Hwhere; cbn; try discriminate.
  assert (forall s, select = Some s -> s = "names"%string) as Hnames.
  { intros s ->. unfold Builder.parse_select_stmt in Hsel.
    destruct (get_child_optional "select" p) as [sel|]; [|discriminate].
    destruct (pt_empty sel); [|discriminate].
    destruct (String.eqb_spec (pt_data sel) "names") as [Hd|];
      [|discriminate].
    injection Hsel as <-. exact Hd. }
  assert (forall (children : list (string * ptree)) (x : Builder.QueryProcessor N F),
            (ts_begin ← Builder.parse_range_timestamp p "from";
             ts_end ← Builder.parse_range_timestamp p "to";
             allnodes ← Builder.make_samplers (rev children) terminal [terminal];
             q ← ScanQueryProcessor_new Builder.get_requirements (rev allnodes)
                   ts_begin ts_end g;
             Ok (Builder.Scan q (Builder.parse_metric p) filter)) = Ok x ->
            exists q nodes ts_begin ts_end,
              x = Builder.Scan q (Builder.parse_metric p) filter /\
              Builder.sampler_chain children terminal = Ok nodes /\
              head nodes = Some (root_node_ (scan_processor q)) /\
              last nodes = Some terminal /\
              terminals_last Builder.get_requirements nodes /\
              Builder.parse_range_timestamp p "from" = Ok ts_begin /\
              Builder.parse_range_timestamp p "to" = Ok ts_end /\
              scan_lowerbound_ q = Z.min ts_begin ts_end /\
              scan_upperbound_ q = Z.max ts_begin ts_end /\
              g = groupby_ (scan_processor q)) as Hscan.
  { intros children x.
    destruct (Builder.parse_range_timestamp p "from") as [b| | |]; cbn;
      try discriminate.
    destruct (Builder.parse_range_timestamp p "to") as [e| | |]; cbn;
      try discriminate.
    pose proof (make_samplers_chain terminal children [] [terminal] eq_refl)
      as Hchain.
    rewrite app_nil_r in Hchain. cbn [hd rev app] in Hchain.
    destruct (Builder.make_samplers (rev children) terminal [terminal])
      as [allnodes| | |]; cbn in Hchain |- *; try discriminate.
    destruct (ScanQueryProcessor_new Builder.get_requirements (rev allnodes) b e g)
      as [q| | |] eqn:Hq; cbn; try discriminate.
    intros Heq. injection Heq as <-.
    apply ScanQueryProcessor_new_ok in Hq as [Hlast [Hroot [Hg [Hlo Hhi]]]].
    exists q, (rev allnodes), b, e. split; [reflexivity|].
    split; [symmetry; exact Hchain|]. split; [exact Hroot|].
    split; [eapply sampler_chain_last; symmetry; exact Hchain|].
    split; [exact Hlast|]. repeat split; try assumption. symmetry. exact Hg. }
  destruct (get_child_optional "sample" p) as [params|], select as [s|].
  - discriminate.
  - intros Hx. apply Hscan in Hx
      as [q [nodes [b [e [-> [Hc [Hr [Hl [Ht [Hb [He [Hlo [Hhi Hg]]]]]]]]]]]]].
    exists nodes, b, e. subst g. repeat split; assumption.
  - intros Heq. injection Heq as <-.
    rewrite (Hnames s eq_refl). repeat split.
  - change (Ok [terminal]) with
      (Builder.make_samplers (rev []) terminal [terminal]).
    intros Hx. apply Hscan in Hx
      as [q [nodes [b [e [-> [Hc [Hr [Hl [Ht [Hb [He [Hlo [Hhi Hg]]]]]]]]]]]]].
    exists nodes, b, e. subst g. repeat split; assumption.
Qed.
End BuilderFacts.

Lemma builder_range_reads_first_child_witness :
  Builder.parse_range_timestamp (penv := sample_env) sampled_query "from"
  = Ok 20150101000000%Z /\
  parse_range_timestamp (penv := sample_env) sampled_query
  = (AKU_SUCCESS, 20140101000000%Z, 20150102000000%Z).
Proof.
  destruct (builder_range_reads_first_child (penv := sample_env) sampled_query
              20150101000000%Z 20150102000000%Z eq_refl eq_refl)
    as [range [froms [tos [Hrange [Hfroms [Htos Hparse]]]]]].
  split; [reflexivity|].
  vm_compute in Hrange. injection Hrange as <-.
  vm_compute in Hfroms. injection Hfroms as <-.
  vm_compute in Htos. injection Htos as <-.
  exact Hparse.
Defined.

Lemma builder_where_last_child_witness :
  exists f,
    Builder.parse_where_clause (benv := named_nodes) sampled_query "cpu" "in"
    = Ok (Some f) /\
    Builder.RegexFilter_new (BuilderEnv := named_nodes)
      "(?:(cpu(?:\s\w+=\w+)*\sregion=eu(?:\s\w+=\w+)*))"%string = Ok f.
Proof.
  assert (Builder.parse_where_clause (benv := named_nodes) sampled_query "cpu" "in"
          = Ok (Some "(?:(cpu(?:\s\w+=\w+)*\sregion=eu(?:\s\w+=\w+)*))"%string))
    as Hp by (vm_compute; reflexivity).
  pose proof (builder_where_last_child (benv := named_nodes) _ _ _ _ Hp) as Hlast.
  cbn in Hlast. destruct Hlast as [f [Hf [Hnew _]]].
  exists f. split; [rewrite <- Hf; exact Hp|exact Hnew].
Defined.

Lemma build_query_processor_result_witness :
  (exists nodes,
     Builder.sampler_chain (benv := named_nodes)
       [(""%string, object [("name"%string, leaf "reservoir")]);
        (""%string, object [("name"%string, leaf "paa")])]
       ["terminal"%string] = Ok nodes /\
     head nodes = Some ["reservoir"%string; "paa"%string; "terminal"%string] /\
     last nodes = Some ["terminal"%string]) /\
  Builder.build_query_processor (penv := sample_env) (flags := sample_flags)
    (benv := named_nodes) names_query ["terminal"%string]
  = Ok (Builder.Metadata None ["terminal"%string]).
Proof.
  split; [|reflexivity].
  set (q := {| scan_lowerbound_ := 20150101000000%Z;
               scan_upperbound_ := 20150102000000%Z;
               scan_direction_ := AKU_CURSOR_DIR_FORWARD;
               scan_processor :=
                 {| groupby_ := GroupByStatement_new 0;
                    root_node_ := ["reservoir"%string; "paa"%string;
                                   "terminal"%string] |} |}).
  assert (Builder.build_query_processor (penv := sample_env)
            (flags := sample_flags) (benv := named_nodes) sampled_query
            ["terminal"%string]
          = Ok (Builder.Scan q "cpu"
                  (Some "(?:(cpu(?:\s\w+=\w+)*\sregion=eu(?:\s\w+=\w+)*))"%string)))
    as Hp by (vm_compute; reflexivity).
  pose proof (build_query_processor_result (penv := sample_env)
                (flags := sample_flags) (benv := named_nodes) _ _ _ Hp) as Hres.
  cbn beta iota in Hres.
  destruct Hres as [nodes [b [e [Hchain [Hroot [Hlast _]]]]]].
  exists nodes. split; [exact Hchain|]. split; [exact Hroot|exact Hlast].
Defined.

(** ** The order of the children of `where` *)

Lemma string_ltb_trans (a b c : string) :
  String.ltb a b = true -> String.ltb b c = true -> String.ltb a c = true.
Proof.
  unfold String.ltb. intros Hab Hbc.
  destruct (String.compare a b) eqn:Cab; try discriminate.
  destruct (String.compare b c) eqn:Cbc; try discriminate.
  apply OrderedTypeEx.String_as_OT.cmp_lt in Cab, Cbc.
  pose proof (OrderedTypeEx.String_as_OT.lt_trans _ _ _ Cab Cbc) as Hac.
  apply OrderedTypeEx.String_as_OT.cmp_lt in Hac.
  unfold OrderedTypeEx.String_as_OT.cmp in Hac. rewrite Hac. reflexivity.
Qed.

Lemma string_ltb_asym (a b : string) :
  String.ltb a b = true -> String.ltb b a = true -> False.
Proof.
  unfold String.ltb. rewrite (String.compare_antisym b a).
  destruct (String.compare a b); cbn; discriminate.
Qed.

Lemma string_ltb_total (a b : string) :
  String.ltb a b = false -> String.eqb a b = false -> String.ltb b a = true.
Proof.
  unfold String.ltb. rewrite (String.compare_antisym b a).
  destruct (String.compare a b) eqn:Cab; cbn; try discriminate; [|reflexivity].
  intros _ Hne. apply String.compare_eq_iff in Cab. subst b.
  rewrite String.eqb_refl in Hne. discriminate.
Qed.

Lemma tag_lt_antisym : AntiSymm eq tag_lt.
Proof.
  intros a b Hab Hba. exfalso. exact (string_ltb_asym _ _ Hab Hba).
Qed.

Lemma tags_insert_perm (name : string) (values : list string)
    (tags : list (string * list string)) :
  tags_count name tags = false ->
  Permutation (tags_insert name values tags) ((name, values) :: tags).
Proof.
  unfold tags_count.
  induction tags as [|[k v] rest IH]; cbn [tags_insert existsb fst];
    [reflexivity|].
  intros Hfresh. apply orb_false_iff in Hfresh as [Hk Hrest].
  destruct (String.ltb name k); [reflexivity|].
  rewrite String.eqb_sym, Hk.
  rewrite (IH Hrest). apply perm_swap.
Qed.

Lemma tags_insert_sorted (name : string) (values : list string)
    (tags : list (string * list string)) :
  StronglySorted tag_lt tags ->
  tags_count name tags = false ->
  StronglySorted tag_lt (tags_insert name values tags).
Proof.
  unfold tags_count.
  induction tags as [|[k v] rest IH]; cbn [tags_insert existsb fst];
    intros Hsorted Hfresh.
  - constructor; constructor.
  - apply orb_false_iff in Hfresh as [Hk Hrest].
    apply StronglySorted_inv in Hsorted as [Hs Hall].
    destruct (String.ltb name k) eqn:Hlt.
    + constructor; [constructor; assumption|].
      constructor; [exact Hlt|].
      eapply List.Forall_impl; [|exact Hall].
      intros [k' v'] Hk'. unfold tag_lt in *. cbn [fst] in *.
      eapply string_ltb_trans; eassumption.
    + rewrite String.eqb_sym, Hk.
      constructor; [apply IH; assumption|].
      assert (Permutation (tags_insert name values rest) ((name, values) :: rest))
        as Hperm by (apply tags_insert_perm; exact Hrest).
      rewrite List.Forall_forall. intros x Hx.
      apply (Permutation_in _ Hperm) in Hx. destruct Hx as [<-|Hx].
      * unfold tag_lt. cbn [fst]. apply string_ltb_total; [exact Hlt|].
        rewrite String.eqb_sym. exact Hk.
      * rewrite List.Forall_forall in Hall. exact (Hall x Hx).
Qed.

Lemma tags_count_false (name : string) (tags : list (string * list string)) :
  tags_count name tags = false <-> ~ In name (map fst tags).
Proof.
  unfold tags_count. induction tags as [|[k v] rest IH]; cbn [existsb map fst In].
  - split; [intros _ []|reflexivity].
  - rewrite orb_false_iff, IH. split.
    + intros [Hk Hrest] [Heq|Hin]; [|exact (Hrest Hin)].
      subst k. rewrite String.eqb_refl in Hk. discriminate.
    + intros Hnot. split.
      * destruct (String.eqb_spec k name) as [->|]; [|reflexivity].
        exfalso. apply Hnot. left. reflexivity.
      * intros Hin. apply Hnot. right. exact Hin.
Qed.

Lemma where_step_entry (item : string * ptree) (r : SeriesRetreiver) :
  metric_ r <> [] ->
  tags_count (fst item) (tags_ r) = false ->
  where_step (fst item) (snd item) r
  = {| metric_ := metric_ r;
       tags_ := tags_insert (fst (where_entry item)) (snd (where_entry item))
                  (tags_ r) |}.
Proof.
  intros Hm Hfresh. unfold where_step, add_tags, add_tag, where_entry.
  rewrite Hfresh. destruct (metric_ r); [congruence|].
  destruct (negb (pt_empty (snd item))); reflexivity.
Qed.

Lemma where_loop_entries (items : list (string * ptree)) :
  forall (r : SeriesRetreiver),
  metric_ r <> [] ->
  List.NoDup (map fst items) ->
  (forall k, In k (map fst items) -> ~ In k (map fst (tags_ r))) ->
  StronglySorted tag_lt (tags_ r) ->
  metric_ (where_loop items r) = metric_ r /\
  StronglySorted tag_lt (tags_ (where_loop items r)) /\
  Permutation (tags_ (where_loop items r)) (rev (map where_entry items) ++ tags_ r).
Proof.
  induction items as [|item rest IH]; intros r Hm Hnodup Hfresh Hsorted.
  - cbn. split; [reflexivity|]. split; [exact Hsorted|reflexivity].
  - destruct item as [tag idslist].
    change (where_loop ((tag, idslist) :: rest) r)
      with (where_loop rest (where_step tag idslist r)).
    cbn [map fst] in Hnodup, Hfresh. apply NoDup_cons_iff in Hnodup as [Hnew Hnodup].
    assert (tags_count tag (tags_ r) = false) as Hcount
      by (apply tags_count_false, Hfresh; left; reflexivity).
    pose proof (where_step_entry (tag, idslist) r Hm Hcount) as Hstep.
    cbn [fst snd] in Hstep. rewrite Hstep.
    set (entry := where_entry (tag, idslist)) in *.
    assert (fst entry = tag) as Hkey by reflexivity.
    destruct (IH {| metric_ := metric_ r;
                    tags_ := tags_insert (fst entry) (snd entry) (tags_ r) |})
      as [Hmetric [Hs Hp]].
    + exact Hm.
    + exact Hnodup.
    + intros k Hk Hin. cbn [tags_] in Hin.
      apply (Permutation_in _ (Permutation_map fst
               (tags_insert_perm (fst entry) (snd entry) (tags_ r)
                  ltac:(rewrite Hkey; exact Hcount)))) in Hin.
      cbn [map fst] in Hin. destruct Hin as [Heq|Hin].
      * rewrite Hkey in Heq. subst k. exact (Hnew Hk).
      * exact (Hfresh k (or_intror Hk) Hin).
    + cbn [tags_]. apply tags_insert_sorted; [exact Hsorted|].
      rewrite Hkey. exact Hcount.
    + cbn [metric_ tags_] in *. split; [exact Hmetric|]. split; [exact Hs|].
      rewrite Hp. cbn [map rev]. rewrite <- app_assoc. cbn [app].
      apply Permutation_app_head.
      rewrite (tags_insert_perm (fst entry) (snd entry) (tags_ r))
        by (rewrite Hkey; exact Hcount).
      subst entry. destruct (where_entry (tag, idslist)). reflexivity.
Qed.

Section WhereOrder.
Context {M : Type} {mops : SeriesMatcherOps M}.

(** [tags_] is an ordered map, so the resolver sees the tags of `where` in
    key order whatever their order in the query: when no tag is repeated,
    two `where` objects that hold the same children in different orders
    select the same ids, in the same order, with the same status. *)
Theorem parse_where_clause_order_irrelevant
    (items items' : list (string * ptree)) (before after : list (string * ptree))
    (data : string) (metrics : list string) (matcher : M) :
  List.NoDup (map fst items) ->
  Permutation items items' ->
  find_child "where" before = None ->
  parse_where_clause
    (object (before ++ ("where"%string, PTree data items) :: after)) metrics matcher
  = parse_where_clause
      (object (before ++ ("where"%string, PTree data items') :: after)) metrics matcher.
Proof.
  intros Hnodup Hperm Hbefore.
  assert (forall its,
            get_child_optional "where"
              (object (before ++ ("where"%string, PTree data its) :: after))
            = Some (PTree data its)) as Hfind.
  { intros its. unfold get_child_optional, object. cbn [pt_children].
    clear - Hbefore. induction before as [|[k c] rest IH]; cbn [app find_child].
    - reflexivity.
    - cbn [find_child] in Hbefore.
      destruct (String.eqb k "where"); [discriminate|]. exact (IH Hbefore). }
  unfold parse_where_clause. rewrite !Hfind. cbn [pt_children].
  destruct metrics as [|metric tail]; [reflexivity|].
  set (r0 := {| metric_ := metric :: tail; tags_ := [] |}).
  assert (List.NoDup (map fst items')) as Hnodup'
    by (eapply Permutation_NoDup; [apply Permutation_map; exact Hperm|exact Hnodup]).
  destruct (where_loop_entries items r0) as [Hm [Hs Hp]];
    [discriminate|exact Hnodup|intros k _ []|constructor|].
  destruct (where_loop_entries items' r0) as [Hm' [Hs' Hp']];
    [discriminate|exact Hnodup'|intros k _ []|constructor|].
  assert (where_loop items r0 = where_loop items' r0) as ->; [|reflexivity].
  destruct (where_loop items r0) as [m t], (where_loop items' r0) as [m' t'].
  cbn [metric_ tags_] in *. f_equal; [congruence|].
  apply (@sorting.StronglySorted_unique _ tag_lt tag_lt_antisym); [exact Hs|exact Hs'|].
  rewrite Hp, Hp'. apply Permutation_app_tail, Permutation_rev', Permutation_map.
  exact Hperm.
Qed.
End WhereOrder.

Lemma parse_where_clause_order_irrelevant_witness :
  parse_where_clause where_host_region ["cpu"%string] catalogue
  = parse_where_clause where_region_host ["cpu"%string] catalogue.
Proof.
  apply (parse_where_clause_order_irrelevant
           [("host"%string, array [leaf "a"; leaf "b"]);
            ("region"%string, leaf "eu")]
           [("region"%string, leaf "eu");
            ("host"%string, array [leaf "a"; leaf "b"])]
           [("select"%string, leaf "cpu")] [] ""%string).
  - cbn. repeat constructor; cbn; intuition discriminate.
  - apply perm_swap.
  - reflexivity.
Defined.

(** ** The `group-aggregate` statement once it is complete *)

Section GroupAggregateStatement.
Context {penv : ParserEnv}.

Lemma ga_loop_func_lookup (a a' : ptree) (items : list (string * ptree)) :
  get_child_optional "func" a = get_child_optional "func" a' ->
  forall c0 c1 c2 result,
  ga_loop a items c0 c1 c2 result = ga_loop a' items c0 c1 c2 result.
Proof.
  intros Hfunc. induction items as [|[tag kv] rest IH]; intros c0 c1 c2 result;
    cbn [ga_loop]; [reflexivity|].
  rewrite Hfunc.
  destruct (String.eqb tag "step").
  { destruct c0; [reflexivity|]. unfold get_value_string.
    destruct (parse_duration (pt_data kv)); apply IH. }
  destruct (String.eqb tag "metric").
  { unfold get_value_string. destruct c1; [reflexivity|apply IH]. }
  destruct (String.eqb tag "func"); [|apply IH].
  destruct c2; [reflexivity|].
  destruct (ga_func_loop _ (ga_func result) 0) as [[err func] n].
  destruct err; [reflexivity|apply IH].
Qed.

Lemma ga_loop_complete (a : ptree) (items : list (string * ptree))
    (result : GroupAggregate AggregationFunction) :
  ga_loop a items true true true result = (true, true, true, result).
Proof.
  induction items as [|[tag kv] rest IH]; cbn [ga_loop]; [reflexivity|].
  destruct (String.eqb tag "step"); [reflexivity|].
  destruct (String.eqb tag "metric"); [reflexivity|].
  destruct (String.eqb tag "func"); [reflexivity|exact IH].
Qed.

Lemma ga_loop_complete_prefix (a : ptree) (pre post : list (string * ptree)) :
  forall c0 c1 c2 result result',
  ga_loop a pre c0 c1 c2 result = (true, true, true, result') ->
  ga_loop a (pre ++ post) c0 c1 c2 result = (true, true, true, result').
Proof.
  induction pre as [|[tag kv] rest IH]; intros c0 c1 c2 result result' Hrun.
  - cbn in Hrun. injection Hrun as -> -> -> ->. apply ga_loop_complete.
  - cbn [app ga_loop] in Hrun |- *.
    destruct (String.eqb tag "step").
    { destruct c0; [exact Hrun|]. unfold get_value_string in *.
      destruct (parse_duration (pt_data kv)); apply IH; exact Hrun. }
    destruct (String.eqb tag "metric").
    { unfold get_value_string in *. destruct c1; [exact Hrun|apply IH; exact Hrun]. }
    destruct (String.eqb tag "func"); [|apply IH; exact Hrun].
    destruct c2; [exact Hrun|].
    destruct (ga_func_loop _ (ga_func result) 0) as [[err func] n].
    destruct err; [exact Hrun|apply IH; exact Hrun].
Qed.

Lemma ga_loop_without_func (a : ptree) (items : list (string * ptree)) :
  find_child "func" items = None ->
  forall c0 c1 result,
  snd (fst (ga_loop a items c0 c1 false result)) = false.
Proof.
  induction items as [|[tag kv] rest IH]; intros Hnone c0 c1 result;
    cbn [ga_loop]; [reflexivity|].
  cbn [find_child] in Hnone.
  destruct (String.eqb tag "step") eqn:Hs.
  { apply String.eqb_eq in Hs. subst tag. cbn in Hnone.
    destruct c0; [reflexivity|]. unfold get_value_string.
    destruct (parse_duration (pt_data kv)); apply IH; exact Hnone. }
  destruct (String.eqb tag "metric") eqn:Hm.
  { apply String.eqb_eq in Hm. subst tag. cbn in Hnone.
    unfold get_value_string. destruct c1; [reflexivity|apply IH; exact Hnone]. }
  destruct (String.eqb tag "func") eqn:Hf; [discriminate|].
  apply IH. exact Hnone.
Qed.

Lemma find_child_app_some (key : string) (pre post : list (string * ptree))
    (c : ptree) :
  find_child key pre = Some c -> find_child key (pre ++ post) = Some c.
Proof.
  induction pre as [|[k v] rest IH]; cbn [app find_child]; [discriminate|].
  destruct (String.eqb k key); [trivial|exact IH].
Qed.

(** Once `step`, `metric` and `func` have been read, the rest of the
    statement plays no part: a `group-aggregate` object that is accepted
    stays accepted, with the same metric, functions and step, whatever
    children are appended to it -- repeated tags, a step that cannot be
    read, a function list naming no function. *)
Theorem parse_group_aggregate_stmt_complete_prefix (p p' : ptree)
    (d d' : string) (pre post : list (string * ptree))
    (gagg : GroupAggregate AggregationFunction) :
  get_child_optional "group-aggregate" p = Some (PTree d pre) ->
  get_child_optional "group-aggregate" p' = Some (PTree d' (pre ++ post)) ->
  parse_group_aggregate_stmt p = (AKU_SUCCESS, gagg) ->
  parse_group_aggregate_stmt p' = (AKU_SUCCESS, gagg).
Proof.
  unfold parse_group_aggregate_stmt. intros -> ->. cbn [pt_children].
  destruct (ga_loop (PTree d pre) pre false false false GroupAggregate_init)
    as [[[c0 c1] c2] result] eqn:Hrun.
  destruct c0, c1, c2; cbn [andb]; intros Heq; try discriminate.
  injection Heq as <-.
  destruct (find_child "func" pre) as [f|] eqn:Hfunc.
  - rewrite (ga_loop_func_lookup (PTree d' (pre ++ post)) (PTree d pre)).
    + rewrite (ga_loop_complete_prefix _ _ _ _ _ _ _ _ Hrun). reflexivity.
    + unfold get_child_optional. cbn [pt_children].
      rewrite Hfunc. apply find_child_app_some. exact Hfunc.
  - pose proof (ga_loop_without_func (PTree d pre) pre Hfunc false false
                  GroupAggregate_init) as Hnever.
    rewrite Hrun in Hnever. discriminate.
Qed.
End GroupAggregateStatement.

Lemma parse_group_aggregate_stmt_complete_prefix_witness :
  parse_group_aggregate_stmt (penv := sample_env) group_aggregate_trailing_query
  = (AKU_SUCCESS,
     {| ga_metric := "cpu"; ga_func := [F_MIN; F_MAX]; ga_step := 100000000 |}).
Proof.
  apply (parse_group_aggregate_stmt_complete_prefix (penv := sample_env)
           group_aggregate_query group_aggregate_trailing_query ""%string ""%string
           [("step"%string, leaf "1s"); ("metric"%string, leaf "cpu");
            ("func"%string, array [leaf "min"; leaf "max"])]
           [("step"%string, leaf "soon");
            ("func"%string, array [leaf "median"])]);
    reflexivity.
Defined.
